(** * TradeFlash Lite: the real-time ingestion and reconciliation engine

    A shallow embedding of [src/App.tsx]: the normalizers, the reconnect
    policy of the WebSocket effect, the [onmessage] dispatcher with its
    state updaters, the derived views, the formatters and the watchlist
    actions, followed by the properties the specification states about them
    and by further properties of the code.

    Conventions of the embedding
    - A JavaScript number is a primitive binary64 [float]; arithmetic and
      comparisons are the kernel's IEEE 754 operations.
    - A JavaScript string is a [string] of code units; the case mapping and
      the white-space class are the ASCII ones.
    - A value of type [any]/[unknown], and every value [JSON.parse] returns,
      is a [jsval].
    - What the JavaScript engine supplies and the repository does not define
      ([JSON.parse], the text of engine error messages, the decimal rendering
      of non-integral numbers, the numeric reading of strings) is a variable
      of the section [Engine]; the time [Date.now()] returns is an argument
      of [tsAgo]. *)

From Stdlib Require Import ZArith Floats Uint63 Ascii String DecimalString Sorted.
From stdpp Require Import base list strings gmap fin_maps.

#[local] Set Warnings "-register-all,-inexact-float".

Local Open Scope string_scope.
Local Open Scope list_scope.

(* ===================================================================== *)
(** * JavaScript strings *)
(* ===================================================================== *)

Module JsString.

(** Code unit of a character. *)
Definition code (c : ascii) : nat := nat_of_ascii c.

Definition is_upper (c : ascii) : bool := (65 <=? code c)%nat && (code c <=? 90)%nat.
Definition is_lower (c : ascii) : bool := (97 <=? code c)%nat && (code c <=? 122)%nat.
Definition is_digit (c : ascii) : bool := (48 <=? code c)%nat && (code c <=? 57)%nat.

(** [\s] of a regular expression and the characters [trim] strips: TAB, LF,
    VT, FF, CR and SPACE. *)
Definition is_space (c : ascii) : bool :=
  ((9 <=? code c)%nat && (code c <=? 13)%nat) || (code c =? 32)%nat.

Definition upper_char (c : ascii) : ascii :=
  if is_lower c then ascii_of_nat (code c - 32) else c.

(** [s.toUpperCase()] *)
Fixpoint toUpperCase (s : string) : string :=
  match s with
  | EmptyString => EmptyString
  | String c r => String (upper_char c) (toUpperCase r)
  end.

Fixpoint trimStart (s : string) : string :=
  match s with
  | String c r => if is_space c then trimStart r else s
  | EmptyString => EmptyString
  end.

(** Drops the white space at the end: a character is kept when it is not a
    space or when something is kept after it. *)
Fixpoint trimEnd (s : string) : string :=
  match s with
  | EmptyString => EmptyString
  | String c r =>
      match trimEnd r with
      | EmptyString => if is_space c then EmptyString else String c EmptyString
      | r' => String c r'
      end
  end.

(** [s.trim()] *)
Definition trim (s : string) : string := trimEnd (trimStart s).

Fixpoint forallb (p : ascii -> bool) (s : string) : bool :=
  match s with
  | EmptyString => true
  | String c r => p c && forallb p r
  end.

(** [s.split(re)] for a regular expression [re = /[cls]+/] that matches the
    non-empty runs of the characters of the class [sep].  [cur] is the piece
    being read, reversed; [in_run] says that the previous character belonged
    to a separator run (whose piece has been emitted already). *)
Fixpoint split_go (sep : ascii -> bool) (cur : list ascii) (in_run : bool)
    (s : string) : list string :=
  match s with
  | EmptyString => [string_of_list_ascii (rev cur)]
  | String c r =>
      if sep c then
        if in_run then split_go sep [] true r
        else string_of_list_ascii (rev cur) :: split_go sep [] true r
      else split_go sep (c :: cur) false r
  end.

Definition split_runs (sep : ascii -> bool) (s : string) : list string :=
  split_go sep [] false s.

(** [s.replace(/^\//, "")]: one leading slash is removed. *)
Definition strip_leading_slash (s : string) : string :=
  match s with
  | String "/" r => r
  | _ => s
  end.

End JsString.

(* ===================================================================== *)
(** * JavaScript numbers *)
(* ===================================================================== *)

Module JsNumber.

Local Open Scope float_scope.

(** [Number.isFinite(x)] for a number [x]. *)
Definition isFinite (x : float) : bool :=
  negb (PrimFloat.is_nan x) && negb (PrimFloat.is_infinity x).

(** Truthiness of a number: [NaN], [0] and [-0] are falsy. *)
Definition truthy (x : float) : bool :=
  negb (PrimFloat.is_nan x) && negb (PrimFloat.is_zero x).

(** The float of an integer of magnitude at most 2^53 (exact). *)
Definition of_Z (z : Z) : float :=
  let a := PrimFloat.of_uint63 (Uint63.of_Z (Z.abs z)) in
  if (z <? 0)%Z then - a else a.

(** The integer a number is, when it is one: [±m·2^e] with [e >= 0], or
    with the [-e] low bits of [m] all zero. *)
Definition to_Z (x : float) : option Z :=
  match Prim2SF x with
  | S754_zero _ => Some 0%Z
  | S754_finite s m e =>
      let v := if (0 <=? e)%Z then Some (Z.pos m * 2 ^ e)%Z
               else if (Z.pos m mod 2 ^ (- e) =? 0)%Z then Some (Z.pos m / 2 ^ (- e))%Z
               else None in
      if s then Z.opp <$> v else v
  | _ => None
  end.

(** [Math.round(x)], by the steps of the language definition: a number that
    is not finite or is integral is returned as it is; otherwise the result
    is the integer closest to [x], the one towards [+Infinity] on a tie, that
    is [floor(x + 1/2)] taken exactly on the value [±m·2^e] of [x] (here
    [e < 0], so the result is below 2^53 in magnitude); the zero results are
    [+0] for [0 < x < 0.5] and [-0] for [-0.5 <= x < 0]. *)
Definition Math_round (x : float) : float :=
  if negb (isFinite x) then x
  else match to_Z x with
       | Some _ => x
       | None =>
           match Prim2SF x with
           | S754_finite s m e =>
               let d := (2 ^ (- e))%Z in
               let n := if s then Z.neg m else Z.pos m in
               let r := ((2 * n + d) / (2 * d))%Z in
               if (r =? 0)%Z then (if s then PrimFloat.neg_zero else PrimFloat.zero)
               else of_Z r
           | _ => x
           end
       end.

(** [Math.min(a, b)] *)
Definition Math_min (a b : float) : float :=
  if PrimFloat.is_nan a || PrimFloat.is_nan b then PrimFloat.nan
  else if a <? b then a
  else if b <? a then b
  else if PrimFloat.get_sign a then a else b.

(** Decimal digits of an integer, as [Number::toString] prints one of
    magnitude below 10^21. *)
Definition Z_to_string (z : Z) : string :=
  let digits := NilZero.string_of_uint (N.to_uint (Z.to_N (Z.abs z))) in
  if (z <? 0)%Z then String "-" digits else digits.

End JsNumber.

(* ===================================================================== *)
(** * JavaScript values *)
(* ===================================================================== *)

(** The values a frame decodes to ([JSON.parse] never returns [undefined],
    which arises from reading an absent property), and the values of the
    loosely typed parameters ([any], [unknown]). An object lists its own
    properties in creation order, each key once. *)
Inductive jsval : Type :=
| JUndefined
| JNull
| JBool (b : bool)
| JNum (n : float)
| JStr (s : string)
| JArr (xs : list jsval)
| JObj (props : list (string * jsval)).

Module Js.

(** [Array.isArray(v)] *)
Definition isArray (v : jsval) : bool :=
  match v with JArr _ => true | _ => false end.

Definition isNullish (v : jsval) : bool :=
  match v with JUndefined | JNull => true | _ => false end.

(** [a ?? b] *)
Definition nullish_or (a b : jsval) : jsval := if isNullish a then b else a.

(** Truthiness: [undefined], [null], [false], [NaN], [±0] and [""] are
    falsy. *)
Definition truthy (v : jsval) : bool :=
  match v with
  | JUndefined | JNull => false
  | JBool b => b
  | JNum n => JsNumber.truthy n
  | JStr s => negb (String.eqb s "")
  | JArr _ | JObj _ => true
  end.

(** Own property of an object's property list. *)
Fixpoint lookup (k : string) (props : list (string * jsval)) : option jsval :=
  match props with
  | [] => None
  | (k', v) :: r => if String.eqb k k' then Some v else lookup k r
  end.

(** [o[k] = v] on a property list: an existing property keeps its place. *)
Fixpoint assign (k : string) (v : jsval) (props : list (string * jsval))
    : list (string * jsval) :=
  match props with
  | [] => [(k, v)]
  | (k', v') :: r =>
      if String.eqb k k' then (k', v) :: r else (k', v') :: assign k v r
  end.

(** [v?.k] for a key [k] that is neither an array index nor [length] nor a
    name on a prototype (the keys read in this program: [topic], [data],
    [rows], [es_spx_basis], [symbol], [equities], [options]): [undefined]
    unless [v] is an object that owns [k]. *)
Definition opt_get (v : jsval) (k : string) : jsval :=
  match v with
  | JObj props => default JUndefined (lookup k props)
  | _ => JUndefined
  end.

(** [v.k] for such a key: reading a property of [undefined] or [null]
    throws a [TypeError]. *)
Definition get (v : jsval) (k : string) : option jsval :=
  if isNullish v then None else Some (opt_get v k).

End Js.

(* ===================================================================== *)
(** * Arrays, [Set] and [Map] *)
(* ===================================================================== *)

Module JsArray.

Section Ops.
Context {A : Type}.

(** [arr.slice(start)]: a negative [start] counts from the end; the start
    index is clamped to [0 .. arr.length]. *)
Definition slice_from (start : Z) (arr : list A) : list A :=
  let len := Z.of_nat (length arr) in
  let k := if (start <? 0)%Z then Z.max (len + start) 0 else Z.min start len in
  drop (Z.to_nat k) arr.

(** [arr.sort(cmp)]: the sort is stable; [a] is placed after [b] when
    [cmp(a, b) > 0] (a [NaN] result counts as [0]). Each element is
    inserted in front of the already sorted elements that followed it. *)
Fixpoint sort_insert (cmp : A -> A -> float) (x : A) (l : list A) : list A :=
  match l with
  | [] => [x]
  | y :: r => if PrimFloat.ltb 0 (cmp x y) then y :: sort_insert cmp x r
              else x :: y :: r
  end.

Definition sort (cmp : A -> A -> float) (arr : list A) : list A :=
  foldr (sort_insert cmp) [] arr.

(** [new Set(arr)], as the list of its elements in insertion order:
    [add] appends a value that is not yet an element. *)
Definition Set_add `{EqDecision A} (s : list A) (x : A) : list A :=
  if decide (x ∈ s) then s else s ++ [x].

Definition Set_of `{EqDecision A} (arr : list A) : list A :=
  foldl Set_add [] arr.

End Ops.

Section MapOps.
Context {V : Type}.

(** A [Map<string, V>] as its entries in insertion order. *)
Definition Map_get (k : string) (m : list (string * V)) : option V :=
  snd <$> List.find (fun e => String.eqb k e.1) m.

(** [m.set(k, v)]: the entry of an existing key keeps its place. *)
Fixpoint Map_set (k : string) (v : V) (m : list (string * V)) : list (string * V) :=
  match m with
  | [] => [(k, v)]
  | (k', v') :: r =>
      if String.eqb k k' then (k', v) :: r else (k', v') :: Map_set k v r
  end.

End MapOps.

End JsArray.

(* ===================================================================== *)
(** * Types of [App.tsx] *)
(* ===================================================================== *)

(** The argument of [notionalOf]: [{ notional?: number; qty?: number;
    price?: number }]. [None] is an absent ([undefined]) or [null] field. *)
Record FlowSize := {
  notional : option float;
  qty : option float;
  price : option float;
}.

Variant OptionRight := C | P.

(** [OptionRow]; an optional field is [None] when absent or [null]. *)
Record OptionRow := {
  underlying : string;
  expiration : string;
  strike : float;
  right : OptionRight;
  opt_last : option float;
  opt_bid : option float;
  opt_ask : option float;
  opt_ts : option float;
}.

(** An element of [optGrouped]: [{ key, rows }]. *)
Record OptionGroup := {
  key : string;
  rows : list OptionRow;
}.

(** [Watchlist]; the option entries are stored as received. *)
Record Watchlist := {
  equities : list string;
  wl_options : list jsval;
}.

Variant WsState := idle | connecting | open | closed | error.

(** The React state of [App] that the message handler writes. *)
Record State := {
  equity : gmap string jsval;
  options : jsval;
  sweeps : list jsval;
  blocks : list jsval;
  wl : Watchlist;
  err : option string;
  basis : jsval;
}.

(** The initial state: [useState] defaults. *)
Definition State_init : State := {|
  equity := ∅;
  options := JArr [];
  sweeps := [];
  blocks := [];
  wl := {| equities := []; wl_options := [] |};
  err := None;
  basis := JNull;
|}.

(** What [JSON.parse] does with a frame: it returns a value or throws a
    [SyntaxError] with a message. *)
Variant parse_result :=
| Parsed (v : jsval)
| SyntaxError (message : string).

(** What handling one frame leads to. A functional state updater runs when
    React processes the update, outside the handler's [try] block: an
    exception it throws is not caught by the handler. *)
Variant outcome :=
| Handled (st : State)
| UpdaterThrew.

(* ===================================================================== *)
(** * The program *)
(* ===================================================================== *)

Section Engine.

(** [Number::toString] of a number that is not an integer below 10^21 in
    magnitude (the engine's shortest round-trip digits). *)
Variable number_digits : float -> string.
(** [StringToNumber]: the numeric reading of a string. *)
Variable string_to_number : string -> float.
(** [JSON.parse] *)
Variable JSON_parse : string -> parse_result.
(** The message of the [TypeError] for reading the named property of
    [null]. *)
Variable null_read_message : string -> string.

(** ** Coercions *)

(** [Number::toString(x)] *)
Definition Number_toString (x : float) : string :=
  if PrimFloat.is_nan x then "NaN"
  else if PrimFloat.is_infinity x then
    (if PrimFloat.get_sign x then "-Infinity" else "Infinity")
  else match JsNumber.to_Z x with
       | Some z => if (Z.abs z <? 10 ^ 21)%Z then JsNumber.Z_to_string z
                   else number_digits x
       | None => number_digits x
       end.

(** [String(v)]; an array prints its elements joined by commas, [null] and
    [undefined] elements as the empty string. *)
Fixpoint js_String (v : jsval) : string :=
  match v with
  | JUndefined => "undefined"
  | JNull => "null"
  | JBool true => "true"
  | JBool false => "false"
  | JNum n => Number_toString n
  | JStr s => s
  | JArr xs =>
      (fix join (l : list jsval) : string :=
         match l with
         | [] => ""
         | x :: r =>
             let sx := if Js.isNullish x then "" else js_String x in
             match r with
             | [] => sx
             | _ :: _ => sx +:+ "," +:+ join r
             end
         end) xs
  | JObj _ => "[object Object]"
  end.

(** [Number(v)] *)
Definition js_Number (v : jsval) : float :=
  match v with
  | JUndefined => PrimFloat.nan
  | JNull => 0%float
  | JBool true => 1%float
  | JBool false => 0%float
  | JNum n => n
  | JStr s => string_to_number s
  | JArr _ | JObj _ => string_to_number (js_String v)
  end.

(** ** Safe formatters *)

(** The missing marker, an em dash (here the bytes of its UTF-8 text). *)
Definition DASH : string := "—".

(** [fmtIvPct]: format IV as percent; accepts 0–1 or 0–100 styles; dash for
    [<= 0]. *)
Definition fmtIvPct (iv : jsval) : string :=
  let n := js_Number iv in
  if negb (JsNumber.isFinite n) || PrimFloat.leb n 0 then DASH
  else
    let pctRaw := if PrimFloat.ltb 1.5 n then n else PrimFloat.mul n 100 in
    let pct := JsNumber.Math_min pctRaw 300 in
    Number_toString (JsNumber.Math_round pct) +:+ "%".

(** ** Helpers *)

(** [x || 0] for an optional number. *)
Definition or_zero (x : option float) : float :=
  match x with
  | Some n => if JsNumber.truthy n then n else 0%float
  | None => 0%float
  end.

(** [notionalOf]: [Math.round(m.notional ?? ((m.qty || 0) * (m.price || 0) * 100))] *)
Definition notionalOf (m : FlowSize) : float :=
  JsNumber.Math_round
    (match notional m with
     | Some n => n
     | None => PrimFloat.mul (PrimFloat.mul (or_zero (qty m)) (or_zero (price m))) 100
     end).

(** [TICKER_OK.test(s)] for [/^[A-Z0-9][A-Z0-9.\-_/]{0,9}$/]. *)
Definition ticker_head (c : ascii) : bool := JsString.is_upper c || JsString.is_digit c.

Definition ticker_tail (c : ascii) : bool :=
  ticker_head c || Ascii.eqb c "." || Ascii.eqb c "-" || Ascii.eqb c "_" || Ascii.eqb c "/".

Definition TICKER_OK (s : string) : bool :=
  match s with
  | EmptyString => false
  | String c r =>
      ticker_head c && JsString.forallb ticker_tail r && (String.length r <=? 9)%nat
  end.

(** [uniq]: [Array.from(new Set(arr))] *)
Definition uniq (arr : list string) : list string := JsArray.Set_of arr.

(** The separator class of [/[\s,;|]+/]. *)
Definition list_sep (c : ascii) : bool :=
  JsString.is_space c || Ascii.eqb c "," || Ascii.eqb c ";" || Ascii.eqb c "|".

(** The candidates [parseSymbolsList] reads from its argument: the elements
    of an array as strings, the pieces of a string, nothing otherwise. *)
Definition symbol_candidates (v : jsval) : list string :=
  match v with
  | JArr xs => map js_String xs
  | JStr s => JsString.split_runs list_sep s
  | _ => []
  end.

(** [parseSymbolsList] *)
Definition parseSymbolsList (v : jsval) : list string :=
  uniq (List.filter TICKER_OK
          (map (fun s => JsString.toUpperCase (JsString.trim s)) (symbol_candidates v))).

(** [normalizeWatchlist] *)
Definition normalizeWatchlist (raw : jsval) : Watchlist :=
  {| equities := parseSymbolsList (Js.opt_get raw "equities");
     wl_options := match Js.opt_get raw "options" with
                   | JArr xs => xs
                   | _ => []
                   end |}.

(** [normalizeSymbol]: [s?.toUpperCase().replace(/^\//, "") ?? s]. A
    nullish [s] is returned as it is; a value that is neither nullish nor a
    string has no [toUpperCase] method, and the call throws ([None]). *)
Definition normalizeSymbol (s : jsval) : option jsval :=
  match s with
  | JUndefined | JNull => Some s
  | JStr x => Some (JStr (JsString.strip_leading_slash (JsString.toUpperCase x)))
  | _ => None
  end.

(** ** State updates *)

Definition set_equity (v : gmap string jsval) (st : State) : State :=
  {| equity := v; options := options st; sweeps := sweeps st; blocks := blocks st;
     wl := wl st; err := err st; basis := basis st |}.
Definition set_options (v : jsval) (st : State) : State :=
  {| equity := equity st; options := v; sweeps := sweeps st; blocks := blocks st;
     wl := wl st; err := err st; basis := basis st |}.
Definition set_sweeps (v : list jsval) (st : State) : State :=
  {| equity := equity st; options := options st; sweeps := v; blocks := blocks st;
     wl := wl st; err := err st; basis := basis st |}.
Definition set_blocks (v : list jsval) (st : State) : State :=
  {| equity := equity st; options := options st; sweeps := sweeps st; blocks := v;
     wl := wl st; err := err st; basis := basis st |}.
Definition set_wl (v : Watchlist) (st : State) : State :=
  {| equity := equity st; options := options st; sweeps := sweeps st; blocks := blocks st;
     wl := v; err := err st; basis := basis st |}.
Definition set_err (v : option string) (st : State) : State :=
  {| equity := equity st; options := options st; sweeps := sweeps st; blocks := blocks st;
     wl := wl st; err := v; basis := basis st |}.
Definition set_basis (v : jsval) (st : State) : State :=
  {| equity := equity st; options := options st; sweeps := sweeps st; blocks := blocks st;
     wl := wl st; err := err st; basis := v |}.

(** The property key of the index [i]: its decimal digits. *)
Definition index_key (i : nat) : string := NilZero.string_of_uint (Nat.to_uint i).

(** The own enumerable properties [{...t}] copies: those of an object, the
    indexed elements of an array or of a string, none for other values. *)
Definition spread_props (t : jsval) : list (string * jsval) :=
  match t with
  | JObj props => props
  | JArr xs => imap (fun i x => (index_key i, x)) xs
  | JStr s => imap (fun i c => (index_key i, JStr (String c EmptyString)))
                (list_ascii_of_string s)
  | _ => []
  end.

(** One turn of the loop of the [setEquity] updater:
    [const sym = normalizeSymbol(t.symbol); next[sym] = { ...t, symbol: sym }].
    Reading [t.symbol] throws when [t] is [null]. *)
Definition merge_tick (next : gmap string jsval) (t : jsval)
    : option (gmap string jsval) :=
  match Js.get t "symbol" with
  | None => None
  | Some raw =>
      match normalizeSymbol raw with
      | None => None
      | Some sym =>
          Some (<[js_String sym := JObj (Js.assign "symbol" sym (spread_props t))]> next)
      end
  end.

(** The [setEquity] updater: [(prev) => { const next = { ...prev }; for
    (const t of arr) ...; return next; }] *)
Fixpoint merge_ticks (next : gmap string jsval) (arr : list jsval)
    : option (gmap string jsval) :=
  match arr with
  | [] => Some next
  | t :: r =>
      match merge_tick next t with
      | Some next' => merge_ticks next' r
      | None => None
      end
  end.

(** The values [...v] spreads into an array: the elements of an array, the
    characters of a string; other values are not iterable and the spread
    throws ([None]). *)
Definition iterate (v : jsval) : option (list jsval) :=
  match v with
  | JArr xs => Some xs
  | JStr s => Some (map (fun c => JStr (String c EmptyString)) (list_ascii_of_string s))
  | _ => None
  end.

(** The [setSweeps] and [setBlocks] updater:
    [(prev) => [...prev.slice(-400), ...data]] *)
Definition append_events (prev : list jsval) (data : jsval) : option (list jsval) :=
  match iterate data with
  | Some batch => Some (JsArray.slice_from (-400) prev ++ batch)
  | None => None
  end.

(** ** The message handler *)

(** The body of the [try] block of [ws.onmessage] after [JSON.parse]. *)
Definition dispatch (st : State) (msg : jsval) : outcome :=
  match Js.get msg "topic" with
  | None => Handled (set_err (Some (null_read_message "topic")) st)
  | Some (JStr topic) =>
      if String.eqb topic "equity_ts" then
        let payload := Js.opt_get msg "data" in
        let arr := match payload with
                   | JArr xs => xs
                   | _ => match Js.opt_get payload "rows" with
                          | JArr xs => xs
                          | _ => []
                          end
                   end in
        let maybeBasis :=
          if Js.isArray payload then JNull
          else Js.nullish_or (Js.opt_get payload "es_spx_basis") JNull in
        let st1 :=
          set_basis (match maybeBasis with
                     | JNum n => if JsNumber.isFinite n then maybeBasis else JNull
                     | _ => JNull
                     end) st in
        match arr with
        | [] => Handled st1
        | _ :: _ =>
            match merge_ticks (equity st1) arr with
            | Some next => Handled (set_equity next st1)
            | None => UpdaterThrew
            end
        end
      else if String.eqb topic "basis" then
        let data := Js.opt_get msg "data" in
        let source := if Js.truthy data then data else JObj [] in
        let es_spx_basis := Js.opt_get source "es_spx_basis" in
        Handled (set_basis (Js.nullish_or es_spx_basis JNull) st)
      else if String.eqb topic "options_ts" then
        Handled (set_options (Js.opt_get msg "data") st)
      else if String.eqb topic "sweeps" then
        match append_events (sweeps st) (Js.opt_get msg "data") with
        | Some next => Handled (set_sweeps next st)
        | None => UpdaterThrew
        end
      else if String.eqb topic "blocks" then
        match append_events (blocks st) (Js.opt_get msg "data") with
        | Some next => Handled (set_blocks next st)
        | None => UpdaterThrew
        end
      else if String.eqb topic "watchlist" then
        Handled (set_wl (normalizeWatchlist (Js.opt_get msg "data")) st)
      else Handled st
  | Some _ => Handled st
  end.

(** [ws.onmessage]: a frame that does not parse sets the last error to the
    message of the exception. *)
Definition onmessage (st : State) (frame : string) : outcome :=
  match JSON_parse frame with
  | SyntaxError message => Handled (set_err (Some message) st)
  | Parsed msg => dispatch st msg
  end.

(** The frames of a connection, handled one at a time in arrival order;
    nothing is handled once an updater has thrown. *)
Fixpoint onmessages (st : State) (frames : list string) : outcome :=
  match frames with
  | [] => Handled st
  | f :: r =>
      match onmessage st f with
      | Handled st' => onmessages st' r
      | UpdaterThrew => UpdaterThrew
      end
  end.

(** ** The WebSocket effect: connect and reconnect *)

(** The variables of the effect's closure. [retry] counts in exact integers
    (a binary64 counts exactly up to 2^53). [timers] logs the delays handed
    to [setTimeout(connect, backoff)], oldest first. *)
Record Conn := {
  wsState : WsState;
  retry : nat;
  stopped : bool;
  timers : list Z;
}.

Definition Conn_init : Conn :=
  {| wsState := idle; retry := 0; stopped := false; timers := [] |}.

(** [Math.min(1000 * Math.pow(2, retry), 10000)]. The product is exact in
    binary64 while it is finite and is [Infinity] afterwards; the minimum
    with 10000 is the same as over the integers. *)
Definition backoff (retry : nat) : Z := Z.min (1000 * 2 ^ Z.of_nat retry) 10000.

(** [connect()] *)
Definition connect (c : Conn) : Conn :=
  if stopped c then c
  else {| wsState := connecting; retry := retry c; stopped := stopped c;
          timers := timers c |}.

(** [ws.onopen] *)
Definition onopen (c : Conn) : Conn :=
  {| wsState := open; retry := 0; stopped := stopped c; timers := timers c |}.

(** [ws.onclose]: [retry++] yields the old value to [Math.pow]. *)
Definition onclose (c : Conn) : Conn :=
  if stopped c then
    {| wsState := closed; retry := retry c; stopped := stopped c; timers := timers c |}
  else
    {| wsState := closed; retry := S (retry c); stopped := stopped c;
       timers := timers c ++ [backoff (retry c)] |}.

(** [ws.onerror] *)
Definition onerror (c : Conn) : Conn :=
  {| wsState := error; retry := retry c; stopped := stopped c; timers := timers c |}.

(** The effect's cleanup: [stopped = true; wsRef.current?.close()]. *)
Definition cleanup (c : Conn) : Conn :=
  {| wsState := wsState c; retry := retry c; stopped := true; timers := timers c |}.

(** What can happen to the effect: the socket reports an open, a close or an
    error, a reconnect timer fires (and calls [connect]), the component
    unmounts. *)
Variant ConnEvent := SocketOpen | SocketClose | SocketError | TimerFired | Unmount.

Definition conn_step (c : Conn) (ev : ConnEvent) : Conn :=
  match ev with
  | SocketOpen => onopen c
  | SocketClose => onclose c
  | SocketError => onerror c
  | TimerFired => connect c
  | Unmount => cleanup c
  end.

Definition conn_run (c : Conn) (evs : list ConnEvent) : Conn :=
  foldl conn_step c evs.

(** ** Derived views *)

(** The group key of a row: [`${r.underlying}:${r.expiration}`] *)
Definition group_key (r : OptionRow) : string :=
  underlying r +:+ ":" +:+ expiration r.

(** The loop of [optGrouped]: [const arr = m.get(k) ?? []; arr.push(r);
    m.set(k, arr)]. The array is the one the map holds, so the entry holds
    the pushed row under its key. *)
Definition group_push (m : list (string * list OptionRow)) (r : OptionRow)
    : list (string * list OptionRow) :=
  let k := group_key r in
  let arr := default [] (JsArray.Map_get k m) in
  JsArray.Map_set k (arr ++ [r]) m.

(** The comparator [(a, b) => a.strike - b.strike] *)
Definition by_strike (a b : OptionRow) : float := PrimFloat.sub (strike a) (strike b).

(** [optGrouped] *)
Definition optGrouped (opts : list OptionRow) : list OptionGroup :=
  map (fun e => {| key := e.1; rows := JsArray.sort by_strike e.2 |})
      (foldl group_push [] opts).

End Engine.

(* ===================================================================== *)
(** * The formatters, the views and the watchlist actions *)
(* ===================================================================== *)

Module JsMath.

Local Open Scope float_scope.

(** [Math.floor(x)]: a number that is not finite or is integral is returned
    as it is; otherwise the result is the largest integer below the value
    [±m·2^e] of [x] (here [e < 0]), which is [+0] for [0 < x < 1]. *)
Definition Math_floor (x : float) : float :=
  if negb (JsNumber.isFinite x) then x
  else match JsNumber.to_Z x with
       | Some _ => x
       | None =>
           match Prim2SF x with
           | S754_finite s m e =>
               let n := if s then Z.neg m else Z.pos m in
               let r := (n / 2 ^ (- e))%Z in
               if (r =? 0)%Z then PrimFloat.zero else JsNumber.of_Z r
           | _ => x
           end
       end.

(** [Math.max(a, b)] *)
Definition Math_max (a b : float) : float :=
  if PrimFloat.is_nan a || PrimFloat.is_nan b then PrimFloat.nan
  else if a <? b then b
  else if b <? a then a
  else if PrimFloat.get_sign a then b else a.

(** The integer [n] for which [n / 10^f] is closest to [m·2^e], the larger
    one of two that are equally close. *)
Definition nearest_scaled (m : positive) (e : Z) (f : nat) : Z :=
  let p := (Z.pos m * 10 ^ Z.of_nat f)%Z in
  if (0 <=? e)%Z then (p * 2 ^ e)%Z
  else ((2 * p + 2 ^ (- e)) / (2 * 2 ^ (- e)))%Z.

(** The digits of [toFixed]: the decimal digits of [n >= 0], padded with
    zeros on the left to [f + 1] digits, with a point before the last [f]
    digits when [f] is not zero. *)
Definition fixed_digits (n : Z) (f : nat) : string :=
  let m := JsNumber.Z_to_string n in
  if (f =? 0)%nat then m
  else
    let k := String.length m in
    let '(m, k) :=
      if (k <=? f)%nat
      then (string_of_list_ascii (repeat "0"%char (f + 1 - k)%nat) +:+ m, (f + 1)%nat)
      else (m, k) in
    substring 0 (k - f)%nat m +:+ "." +:+ substring (k - f)%nat f m.

End JsMath.

Section Views.

Variable number_digits : float -> string.
Variable string_to_number : string -> float.

(** ** Safe formatters *)

(** [x.toFixed(f)] for a digit count [f] that is a natural number (the
    callers pass the literals 0, 1 and 2): a count above 100 throws a
    [RangeError] ([None]); a number that is not finite, or is at least 10^21
    in magnitude, prints as [Number::toString] prints it. *)
Definition Number_toFixed (x : float) (f : nat) : option string :=
  if (100 <? f)%nat then None
  else if negb (JsNumber.isFinite x) then Some (Number_toString number_digits x)
  else
    let s := if PrimFloat.ltb x 0 then "-" else "" in
    let ax := PrimFloat.abs x in
    if PrimFloat.leb 1e21 ax then Some (s +:+ Number_toString number_digits ax)
    else
      let n := match Prim2SF ax with
               | S754_finite _ m e => JsMath.nearest_scaled m e f
               | _ => 0%Z
               end in
      Some (s +:+ JsMath.fixed_digits n f).

(** [isFiniteNum] *)
Definition isFiniteNum (x : jsval) : bool :=
  match x with
  | JNum n => JsNumber.isFinite n
  | _ => false
  end.

(** [coerceNum]; where [isFiniteNum(x)] holds, [x] is a number and
    [Number(x)] is [x]. *)
Definition coerceNum (x : jsval) : float :=
  if isFiniteNum x then js_Number number_digits string_to_number x
  else
    let n := js_Number number_digits string_to_number x in
    if JsNumber.isFinite n then n else PrimFloat.nan.

(** [fmt]: format number with [d] decimals; the dash if not numeric. The
    callers pass [d]. *)
Definition fmt (x : jsval) (d : nat) : option string :=
  let n := coerceNum x in
  if JsNumber.isFinite n then Number_toFixed n d else Some DASH.

(** [fmtOrDashIfZero]: like [fmt], but the dash for 0 as well. *)
Definition fmtOrDashIfZero (x : jsval) (d : nat) : option string :=
  let n := coerceNum x in
  if negb (JsNumber.isFinite n) || PrimFloat.eqb n 0 then Some DASH
  else Number_toFixed n d.

(** [tsAgo], with the value [now] that [Date.now()] returns. *)
Definition tsAgo (now : float) (ts : jsval) : string :=
  let t := coerceNum ts in
  if negb (JsNumber.isFinite t) then DASH
  else
    let diff := PrimFloat.sub now t in
    if PrimFloat.ltb diff 1500 then "now"
    else
      let s := JsMath.Math_floor (PrimFloat.div diff 1000) in
      if PrimFloat.ltb s 60 then Number_toString number_digits s +:+ "s"
      else
        let m := JsMath.Math_floor (PrimFloat.div s 60) in
        if PrimFloat.ltb m 60 then Number_toString number_digits m +:+ "m"
        else
          let h := JsMath.Math_floor (PrimFloat.div m 60) in
          if PrimFloat.ltb h 24 then Number_toString number_digits h +:+ "h"
          else
            let d := JsMath.Math_floor (PrimFloat.div h 24) in
            Number_toString number_digits d +:+ "d".

(** [s === lit] for a string literal [lit]. *)
Definition is_string (s : jsval) (lit : string) : bool :=
  match s with
  | JStr x => String.eqb x lit
  | _ => false
  end.

(** [marketFmt.price]; [None] where [normalizeSymbol] throws. *)
Definition marketFmt_price (sym x : jsval) : option string :=
  let n := coerceNum x in
  if negb (JsNumber.isFinite n) then Some DASH
  else
    match normalizeSymbol sym with
    | None => None
    | Some s =>
        let special := is_string s "SPX" || is_string s "ES" in
        let d := if special then 2 else if PrimFloat.leb 1000 n then 1 else 2 in
        Number_toFixed n d
    end.

(** [marketFmt.nbbo] *)
Definition marketFmt_nbbo (x : jsval) : option string := fmtOrDashIfZero x 2.

(** [marketFmt.iv] *)
Definition marketFmt_iv (iv : jsval) : string := fmtIvPct number_digits string_to_number iv.


(** ** Derived views of the flow buffers *)

(** The filter of [filteredSweeps] and [filteredBlocks]:
    [notionalOf(m) >= minNotional && (m.qty || 0) >= minQty] *)
Definition passes (minNotional minQty : float) (m : FlowSize) : bool :=
  PrimFloat.leb minNotional (notionalOf m) && PrimFloat.leb minQty (or_zero (qty m)).

(** [filteredSweeps] *)
Definition filteredSweeps (sweeps : list FlowSize) (minNotional minQty : float)
    : list FlowSize :=
  List.filter (passes minNotional minQty) sweeps.

(** [filteredBlocks] *)
Definition filteredBlocks (blocks : list FlowSize) (minNotional minQty : float)
    : list FlowSize :=
  List.filter (passes minNotional minQty) blocks.

(** The rows of the sweeps and blocks tables:
    [filtered.slice(-200).reverse()] *)
Definition table_rows {A} (filtered : list A) : list A :=
  rev (JsArray.slice_from (-200) filtered).

(** The threshold a filter input sets:
    [Math.max(0, Number(e.target.value || 0))] *)
Definition threshold_of_input (value : string) : float :=
  JsMath.Math_max 0
    (js_Number number_digits string_to_number
       (if Js.truthy (JStr value) then JStr value else JNum 0)).

(** ** Watchlist actions *)

(** The symbol [addEquity] posts to the watchlist, if it posts one:
    [const cleaned = parseSymbolsList(sym).at(0); if (!cleaned) return;] *)
Definition addEquity_symbol (sym : string) : option string :=
  match head (parseSymbolsList number_digits (JStr sym)) with
  | Some cleaned => if Js.truthy (JStr cleaned) then Some cleaned else None
  | None => None
  end.

(** The click on the Add button: [if (newSym.trim()) addEquity(newSym);
    setNewSym("")]. The result is the symbol posted, if any, and the new text
    of the input. *)
Definition add_click (newSym : string) : option string * string :=
  (if Js.truthy (JStr (JsString.trim newSym)) then addEquity_symbol newSym else None, "").

End Views.

(* ===================================================================== *)
(** * Vocabulary of the specification *)
(* ===================================================================== *)

Module Spec.

(** The most recent [n] entries of a buffer (its last [n], in order). *)
Definition most_recent {A} (n : nat) (buf : list A) : list A :=
  rev (take n (rev buf)).

(** A list without its repetitions, in order of first occurrence. *)
Fixpoint first_occurrences (l : list string) : list string :=
  match l with
  | [] => []
  | x :: r => x :: List.filter (fun y => negb (String.eqb x y)) (first_occurrences r)
  end.




(** A failure of the connection, as opposed to a successful open or the
    teardown. *)
Definition is_failure (ev : ConnEvent) : bool :=
  match ev with
  | SocketOpen | Unmount => false
  | SocketClose | SocketError | TimerFired => true
  end.

Definition is_close (ev : ConnEvent) : bool :=
  match ev with SocketClose => true | _ => false end.

(** The delays scheduled while the events [evs] happen to [c]. *)
Definition scheduled (c : Conn) (evs : list ConnEvent) : list Z :=
  drop (length (timers c)) (timers (conn_run c evs)).

(** The buffer a flow topic appends to. *)
Definition buffer_of (topic : string) (st : State) : list jsval :=
  if String.eqb topic "sweeps" then sweeps st else blocks st.

(** The topics the handler knows. *)
Definition known_topics : list string :=
  ["equity_ts"; "basis"; "options_ts"; "sweeps"; "blocks"; "watchlist"].

(** The canonical symbol: uppercase, one leading slash removed. *)
Definition canonical (s : string) : string :=
  JsString.strip_leading_slash (JsString.toUpperCase s).

(** The symbol of a tick as the feed types it ([EquityTick]): an object
    whose [symbol] is a string. *)
Definition tick_symbol (t : jsval) : option string :=
  match t with
  | JObj props =>
      match Js.lookup "symbol" props with
      | Some (JStr s) => Some s
      | _ => None
      end
  | _ => None
  end.

(** A tick as the feed types it. *)
Definition is_tick (t : jsval) : Prop :=
  exists s, tick_symbol t = Some s.

(** Whether [t] is a tick of the canonical symbol [k]. *)
Definition has_symbol (k : string) (t : jsval) : bool :=
  match tick_symbol t with
  | Some s => String.eqb (canonical s) k
  | None => false
  end.

(** The most recent tick of the canonical symbol [k] among [ticks]. *)
Definition latest (k : string) (ticks : list jsval) : option jsval :=
  last (List.filter (has_symbol k) ticks).

(** The tick [t] as merged under the canonical symbol [k]: all of its
    fields, with [symbol] set to [k]. *)
Definition merged_tick (k : string) (t : jsval) : jsval :=
  match t with
  | JObj props => JObj (Js.assign "symbol" (JStr k) props)
  | _ => t
  end.

(** An [equity_ts] payload that carries the ticks [b]: the array itself, or
    an envelope whose [rows] is the array. *)
Definition carries_ticks (payload : jsval) (b : list jsval) : Prop :=
  payload = JArr b
  \/ exists props, payload = JObj props /\ Js.lookup "rows" props = Some (JArr b).

(** A decoded message of a topic. *)
Definition message (topic : string) (payload : jsval) : jsval :=
  JObj [("topic", JStr topic); ("data", payload)].

(** The entries of the equity map under the key [k]. *)
Definition entries_of (k : string) (m : gmap string jsval) : list (string * jsval) :=
  List.filter (fun e => String.eqb e.1 k) (map_to_list m).

(** A frame that decodes to an [equity_ts] message carrying the ticks [b]. *)
Definition decodes_to_ticks (parse : string -> parse_result) (frame : string)
    (b : list jsval) : Prop :=
  exists msg,
    parse frame = Parsed msg
    /\ Js.get msg "topic" = Some (JStr "equity_ts")
    /\ carries_ticks (Js.opt_get msg "data") b.

(** A topic tag that none of the handler's cases matches: a string that
    is not a known topic, or a value that is not a string. *)
Definition unrecognized (tag : jsval) : bool :=
  match tag with
  | JStr t => negb (existsb (String.eqb t) known_topics)
  | _ => true
  end.

(** Two states with the same data: all fields but the last error. *)
Definition same_data (a b : State) : Prop :=
  equity a = equity b /\ options a = options b /\ sweeps a = sweeps b
  /\ blocks a = blocks b /\ wl a = wl b /\ basis a = basis b.

Definition same_outcome_data (a b : outcome) : Prop :=
  match a, b with
  | Handled sa, Handled sb => same_data sa sb
  | UpdaterThrew, UpdaterThrew => True
  | _, _ => False
  end.

(** Membership in a list of strings, as a boolean. *)
Definition mem (x : string) (l : list string) : bool := existsb (String.eqb x) l.


(** The rows of a group key, in the order of the option list. *)
Definition rows_of (k : string) (opts : list OptionRow) : list OptionRow :=
  List.filter (fun r => String.eqb (group_key r) k) opts.

(** Rows in ascending order of strike. *)
Definition ascending (l : list OptionRow) : Prop :=
  Sorted (fun a b => PrimFloat.leb (strike a) (strike b) = true) l.

(** A row whose strike is a number, as opposed to [NaN]. *)
Definition has_strike (r : OptionRow) : Prop := PrimFloat.is_nan (strike r) = false.

(** A string without a colon. *)
Definition no_colon (s : string) : bool :=
  JsString.forallb (fun c => negb (Ascii.eqb c ":")) s.

End Spec.

(* ===================================================================== *)
(** * Vocabulary of the further properties *)
(* ===================================================================== *)

Module Notions.

(** The topic a frame carries: the [topic] string of the message it decodes
    to, if it decodes to one. *)
Definition topic_of (parse : string -> parse_result) (frame : string) : option string :=
  match parse frame with
  | Parsed msg =>
      match Js.get msg "topic" with
      | Some (JStr t) => Some t
      | _ => None
      end
  | SyntaxError _ => None
  end.

(** No frame of [frames] carries the topic [t]. *)
Definition without_topic (parse : string -> parse_result) (t : string)
    (frames : list string) : Prop :=
  Forall (fun f => topic_of parse f <> Some t) frames.


(** The number of events a frame carries in its [data]. *)
Definition batch_size (parse : string -> parse_result) (frame : string) : nat :=
  match parse frame with
  | Parsed msg =>
      match iterate (Js.opt_get msg "data") with
      | Some b => length b
      | None => 0
      end
  | SyntaxError _ => 0
  end.

(** Every entry of the equity map is an object whose [symbol] names its
    key. *)
Definition keyed_by_symbol (number_digits : float -> string) (m : gmap string jsval) : Prop :=
  forall k v, m !! k = Some v ->
    exists props sym,
      v = JObj props /\ Js.lookup "symbol" props = Some sym
      /\ js_String number_digits sym = k.

(** A watchlist whose equities are valid tickers, each listed once. *)
Definition clean_watchlist (w : Watchlist) : Prop :=
  NoDup (equities w) /\ Forall (fun s => TICKER_OK s = true) (equities w).

(** The ticks an [equity_ts] payload hands to the updater. *)
Definition ticks_of (payload : jsval) : list jsval :=
  match payload with
  | JArr xs => xs
  | _ => match Js.opt_get payload "rows" with
         | JArr xs => xs
         | _ => []
         end
  end.

(** A tick the merge throws on: [null] (or [undefined]), or a tick whose
    [symbol] is neither absent, [null] nor a string. *)
Definition unmergeable (t : jsval) : bool :=
  match Js.get t "symbol" with
  | None => true
  | Some (JUndefined | JNull | JStr _) => false
  | Some _ => true
  end.

(** A tick that carries no symbol: an object without a [symbol]
    property. *)
Definition symbolless (t : jsval) : Prop :=
  exists props, t = JObj props /\ Js.lookup "symbol" props = None.

(** The entry the merge stores for a tick without a symbol: its fields,
    and a [symbol] that is [undefined]. *)
Definition unnamed_entry (t : jsval) : jsval :=
  match t with
  | JObj props => JObj (props ++ [("symbol", JUndefined)])
  | _ => t
  end.

(** A non-empty string of decimal digits. *)
Definition digits (s : string) : Prop :=
  1 <= String.length s /\ JsString.forallb JsString.is_digit s = true.

(** A number printed in fixed notation with [d] decimals: an optional minus
    sign, integer digits and, when [d] is not zero, a point and exactly [d]
    digits. *)
Definition fixed_notation (d : nat) (s : string) : Prop :=
  exists sign int,
    (sign = "" \/ sign = "-") /\ digits int
    /\ match d with
       | 0 => s = sign +:+ int
       | S _ => exists frac,
           s = sign +:+ int +:+ "." +:+ frac
           /\ String.length frac = d
           /\ JsString.forallb JsString.is_digit frac = true
       end.

(** The rows of a list with the strike [s]. *)
Definition at_strike (s : float) (l : list OptionRow) : list OptionRow :=
  List.filter (fun r => PrimFloat.eqb (strike r) s) l.

End Notions.

(* ===================================================================== *)
(** * A test engine and test inputs *)
(* ===================================================================== *)

(** An engine to run the program on concrete inputs. It decodes the frames
    of a small table of JSON texts and reports a syntax error for every other
    frame. *)
Module TestEngine.

(** The double quote of a JSON text. *)
Definition q : string := String (ascii_of_nat 34) EmptyString.

(** Stand-ins for the engine's number printing and reading: every
    non-integral number prints as [0.5], and the only numeric string is
    [0.23]. *)
Definition number_digits (x : float) : string := "0.5".

Definition string_to_number (s : string) : float :=
  if String.eqb s "0.23" then 0.23%float else PrimFloat.nan.

(** The text of the engine's error for reading a property of [null]. *)
Definition null_read_message (k : string) : string :=
  "Cannot read properties of null (reading " +:+ k +:+ ")".

(** A tick with a symbol and a last price. *)
Definition tick (sym : string) (last : float) : jsval :=
  JObj [("symbol", JStr sym); ("last", JNum last)].

(** The JSON text of [{topic: equity_ts, data: [{symbol: /ES, last: 4500},
    {symbol: spy, last: 449}, {symbol: es, last: 4501}]}] (keys and strings
    quoted in the text). *)
Definition frame_es_1 : string :=
  "{" +:+ q +:+ "topic" +:+ q +:+ ":" +:+ q +:+ "equity_ts" +:+ q +:+ ","
  +:+ q +:+ "data" +:+ q +:+ ":[{" +:+ q +:+ "symbol" +:+ q +:+ ":" +:+ q +:+ "/ES" +:+ q
  +:+ "," +:+ q +:+ "last" +:+ q +:+ ":4500},{" +:+ q +:+ "symbol" +:+ q +:+ ":"
  +:+ q +:+ "spy" +:+ q +:+ "," +:+ q +:+ "last" +:+ q +:+ ":449},{" +:+ q +:+ "symbol" +:+ q
  +:+ ":" +:+ q +:+ "es" +:+ q +:+ "," +:+ q +:+ "last" +:+ q +:+ ":4501}]}".

Definition msg_es_1 : jsval :=
  Spec.message "equity_ts" (JArr [tick "/ES" 4500; tick "spy" 449; tick "es" 4501]).

(** The JSON text of [{topic: equity_ts, data: {rows: [{symbol: ES, last:
    4502}, {symbol: SPY, last: 450}], es_spx_basis: 1.25}}]. *)
Definition frame_es_2 : string :=
  "{" +:+ q +:+ "topic" +:+ q +:+ ":" +:+ q +:+ "equity_ts" +:+ q +:+ ","
  +:+ q +:+ "data" +:+ q +:+ ":{" +:+ q +:+ "rows" +:+ q +:+ ":[{" +:+ q +:+ "symbol" +:+ q
  +:+ ":" +:+ q +:+ "ES" +:+ q +:+ "," +:+ q +:+ "last" +:+ q +:+ ":4502},{"
  +:+ q +:+ "symbol" +:+ q +:+ ":" +:+ q +:+ "SPY" +:+ q +:+ "," +:+ q +:+ "last" +:+ q
  +:+ ":450}]," +:+ q +:+ "es_spx_basis" +:+ q +:+ ":1.25}}".

Definition msg_es_2 : jsval :=
  Spec.message "equity_ts"
    (JObj [("rows", JArr [tick "ES" 4502; tick "SPY" 450]); ("es_spx_basis", JNum 1.25)]).

(** The JSON text of [{topic: heartbeat, data: 1}]. *)
Definition frame_heartbeat : string :=
  "{" +:+ q +:+ "topic" +:+ q +:+ ":" +:+ q +:+ "heartbeat" +:+ q +:+ ","
  +:+ q +:+ "data" +:+ q +:+ ":1}".

Definition msg_heartbeat : jsval := Spec.message "heartbeat" (JNum 1).

(** A frame cut short in the middle of a string. *)
Definition frame_truncated : string := "{" +:+ q +:+ "topic" +:+ q +:+ ":" +:+ q +:+ "swee".

Definition JSON_parse (frame : string) : parse_result :=
  if String.eqb frame frame_es_1 then Parsed msg_es_1
  else if String.eqb frame frame_es_2 then Parsed msg_es_2
  else if String.eqb frame frame_heartbeat then Parsed msg_heartbeat
  else if String.eqb frame "null" then Parsed JNull
  else SyntaxError "Unexpected end of JSON input".

End TestEngine.

(** Option rows to run the grouping on. *)
Module TestRows.

Definition row (u e : string) (k : float) (side : OptionRight) : OptionRow :=
  {| underlying := u; expiration := e; strike := k; right := side;
     opt_last := None; opt_bid := None; opt_ask := None; opt_ts := None |}.

Definition aapl_jan_150 : OptionRow := row "AAPL" "2025-01-17" 150 C.
Definition aapl_jan_140 : OptionRow := row "AAPL" "2025-01-17" 140 C.
Definition aapl_feb_145 : OptionRow := row "AAPL" "2025-02-21" 145 P.

(** Two rows of different pairs whose composite strings coincide. *)
Definition colon_in_underlying : OptionRow := row "A:B" "C" 10 C.
Definition colon_in_expiration : OptionRow := row "A" "B:C" 20 C.

End TestRows.

(** Frames of the other topics, decoded on top of the table of
    [TestEngine]. *)
Module TestFeed.

Import TestEngine.

(** A flow event with an underlying, a quantity and a price. *)
Definition event (ul : string) (qty price : float) : jsval :=
  JObj [("ul", JStr ul); ("qty", JNum qty); ("price", JNum price)].

(** The JSON text of [{topic: sweeps, data: [{ul: SPY, qty: 100, price: 1.5},
    {ul: QQQ, qty: 10, price: 2}]}]. *)
Definition frame_sweeps : string :=
  "{" +:+ q +:+ "topic" +:+ q +:+ ":" +:+ q +:+ "sweeps" +:+ q +:+ ","
  +:+ q +:+ "data" +:+ q +:+ ":[{" +:+ q +:+ "ul" +:+ q +:+ ":" +:+ q +:+ "SPY" +:+ q
  +:+ "," +:+ q +:+ "qty" +:+ q +:+ ":100," +:+ q +:+ "price" +:+ q +:+ ":1.5},{"
  +:+ q +:+ "ul" +:+ q +:+ ":" +:+ q +:+ "QQQ" +:+ q +:+ "," +:+ q +:+ "qty" +:+ q
  +:+ ":10," +:+ q +:+ "price" +:+ q +:+ ":2}]}".

Definition msg_sweeps : jsval :=
  Spec.message "sweeps" (JArr [event "SPY" 100 1.5; event "QQQ" 10 2]).

(** The JSON text of [{topic: watchlist, data: {equities: [spy, SPY, qqq,
    $$], options: []}}], the third symbol with a space on either side. *)
Definition frame_watchlist : string :=
  "{" +:+ q +:+ "topic" +:+ q +:+ ":" +:+ q +:+ "watchlist" +:+ q +:+ ","
  +:+ q +:+ "data" +:+ q +:+ ":{" +:+ q +:+ "equities" +:+ q +:+ ":[" +:+ q +:+ "spy" +:+ q
  +:+ "," +:+ q +:+ "SPY" +:+ q +:+ "," +:+ q +:+ " qqq " +:+ q +:+ "," +:+ q +:+ "$$" +:+ q
  +:+ "]," +:+ q +:+ "options" +:+ q +:+ ":[]}}".

Definition msg_watchlist : jsval :=
  Spec.message "watchlist"
    (JObj [("equities", JArr [JStr "spy"; JStr "SPY"; JStr " qqq "; JStr "$$"]);
           ("options", JArr [])]).

Definition JSON_parse (frame : string) : parse_result :=
  if String.eqb frame frame_sweeps then Parsed msg_sweeps
  else if String.eqb frame frame_watchlist then Parsed msg_watchlist
  else TestEngine.JSON_parse frame.

(** A tick without a symbol. *)
Definition anon (last : float) : jsval := JObj [("last", JNum last)].

(** Flow sizes: a computed notional of 15000, one of 2000, a provided one. *)
Definition size_spy : FlowSize :=
  {| notional := None; qty := Some 100%float; price := Some 1.5%float |}.
Definition size_qqq : FlowSize :=
  {| notional := None; qty := Some 10%float; price := Some 2%float |}.
Definition size_iwm : FlowSize :=
  {| notional := Some 50000%float; qty := Some 75%float; price := None |}.

(** A call and a put at one strike, and a call below them. *)
Definition msft_call_300 : OptionRow := TestRows.row "MSFT" "2025-01-17" 300 C.
Definition msft_put_300 : OptionRow := TestRows.row "MSFT" "2025-01-17" 300 P.
Definition msft_call_290 : OptionRow := TestRows.row "MSFT" "2025-01-17" 290 C.

End TestFeed.

(* ===================================================================== *)
(** * Reconnect with backoff *)
(* ===================================================================== *)

Section Reconnect.

Lemma backoff_capped (k : nat) : 4 <= k -> backoff k = 10000%Z.
Proof.
  intros Hk. unfold backoff.
  assert (2 ^ 4 <= 2 ^ Z.of_nat k)%Z by (apply Z.pow_le_mono_r; lia).
  lia.
Qed.

Lemma conn_run_cons (c : Conn) (ev : ConnEvent) (evs : list ConnEvent) :
  conn_run c (ev :: evs) = conn_run (conn_step c ev) evs.
Proof. reflexivity. Qed.

Lemma onclose_running (c : Conn) :
  stopped c = false ->
  stopped (onclose c) = false
  /\ retry (onclose c) = S (retry c)
  /\ timers (onclose c) = timers c ++ [backoff (retry c)].
Proof. intros Hs. unfold onclose. rewrite Hs. cbn. auto. Qed.

Lemma connect_running (c : Conn) :
  stopped c = false ->
  stopped (connect c) = false
  /\ retry (connect c) = retry c
  /\ timers (connect c) = timers c.
Proof. intros Hs. unfold connect. rewrite Hs. cbn. auto. Qed.

(** While only failures happen, the effect is never stopped, [retry] counts
    the closes, and each close schedules the backoff of the count before
    it. *)
Lemma conn_run_failures (evs : list ConnEvent) :
  forall c : Conn,
    stopped c = false ->
    forallb Spec.is_failure evs = true ->
    stopped (conn_run c evs) = false
    /\ retry (conn_run c evs) = retry c + length (List.filter Spec.is_close evs)
    /\ timers (conn_run c evs)
       = timers c ++ map backoff (seq (retry c) (length (List.filter Spec.is_close evs))).
Proof.
  induction evs as [|ev evs IH]; intros c Hs Hf.
  - cbn. rewrite Nat.add_0_r, app_nil_r. auto.
  - cbn [forallb] in Hf. apply andb_prop in Hf as [Hev Hrest].
    rewrite conn_run_cons.
    destruct ev; try discriminate Hev; cbn [conn_step List.filter Spec.is_close].
    + destruct (onclose_running c Hs) as (Hs' & Hr' & Ht').
      destruct (IH (onclose c) Hs' Hrest) as (H1 & H2 & H3).
      rewrite H1, H2, H3, Hr', Ht'. cbn [length seq map].
      rewrite <- app_assoc. split; [reflexivity | split; [lia | reflexivity]].
    + destruct (IH (onerror c) Hs Hrest) as (H1 & H2 & H3). auto.
    + destruct (connect_running c Hs) as (Hs' & Hr' & Ht').
      destruct (IH (connect c) Hs' Hrest) as (H1 & H2 & H3).
      rewrite H1, H2, H3, Hr', Ht'. auto.
Qed.

End Reconnect.

(** C3. After the k-th consecutive failure (counting from 0, from a fresh
    effect or from a successful open) the reconnect is scheduled after
    [min(1000 * 2^k, 10000)] milliseconds: 1000, 2000, 4000, 8000, 10000,
    10000, ...; a successful open sets the retry counter to 0, and the next
    failure is again followed after 1000 milliseconds. *)
Theorem reconnect_delay_sequence (c : Conn) (evs : list ConnEvent) (k : nat) :
  stopped c = false ->
  retry c = 0 ->
  forallb Spec.is_failure evs = true ->
  k < length (List.filter Spec.is_close evs) ->
  Spec.scheduled c evs !! k = Some (Z.min (1000 * 2 ^ Z.of_nat k) 10000)
  /\ map backoff (seq 0 6) = [1000; 2000; 4000; 8000; 10000; 10000]%Z
  /\ (4 <= k -> Spec.scheduled c evs !! k = Some 10000%Z)
  /\ retry (onopen (conn_run c evs)) = 0
  /\ Spec.scheduled (onopen (conn_run c evs)) [SocketClose] = [1000%Z].
Proof.
  intros Hs Hr Hf Hk.
  destruct (conn_run_failures evs c Hs Hf) as (Hs' & _ & Ht).
  assert (Hk' : Spec.scheduled c evs !! k = Some (backoff k)).
  { unfold Spec.scheduled. rewrite Ht, drop_app_length, Hr.
    rewrite list_lookup_fmap, lookup_seq_lt by exact Hk. reflexivity. }
  split; [exact Hk' |].
  split; [reflexivity |].
  split; [intros H4; rewrite Hk', (backoff_capped k H4); reflexivity |].
  split; [reflexivity |].
  unfold Spec.scheduled. rewrite conn_run_cons. cbn [conn_run foldl conn_step].
  destruct (onclose_running (onopen (conn_run c evs)) Hs') as (_ & _ & Ht').
  rewrite Ht'. cbn [onopen timers retry]. rewrite drop_app_length. reflexivity.
Qed.

Lemma reconnect_delay_sequence_witness :
  let evs := [TimerFired; SocketError; SocketClose; TimerFired; SocketClose;
              TimerFired; SocketClose; TimerFired; SocketError; SocketClose;
              TimerFired; SocketClose; TimerFired; SocketClose] in
  stopped Conn_init = false
  /\ retry Conn_init = 0
  /\ forallb Spec.is_failure evs = true
  /\ 5 < length (List.filter Spec.is_close evs)
  /\ Spec.scheduled Conn_init evs !! 5 = Some (Z.min (1000 * 2 ^ Z.of_nat 5) 10000).
Proof.
  intros evs.
  assert (H5 : 5 < length (List.filter Spec.is_close evs)) by (cbn; lia).
  split; [reflexivity |]. split; [reflexivity |]. split; [reflexivity |].
  split; [exact H5 |].
  exact (proj1 (reconnect_delay_sequence Conn_init evs 5 eq_refl eq_refl eq_refl H5)).
Defined.

(* ===================================================================== *)
(** * Bounded event buffers *)
(* ===================================================================== *)

Section Buffers.

Context {A : Type}.

(** [slice(-n)] keeps the most recent [n] entries. *)
Lemma slice_from_neg (n : nat) (buf : list A) :
  0 < n ->
  JsArray.slice_from (- Z.of_nat n) buf = Spec.most_recent n buf.
Proof.
  intros Hn. unfold JsArray.slice_from, Spec.most_recent.
  rewrite firstn_rev, rev_involutive.
  destruct (Z.ltb_spec (- Z.of_nat n) 0) as [_ | ?]; [| lia].
  f_equal. lia.
Qed.

Lemma most_recent_length (n : nat) (buf : list A) :
  length (Spec.most_recent n buf) = Nat.min n (length buf).
Proof.
  unfold Spec.most_recent.
  rewrite length_rev, length_take, length_rev. reflexivity.
Qed.

(** The most recent entries are a suffix of the buffer: the older ones
    are dropped, the order is kept. *)
Lemma most_recent_suffix (n : nat) (buf : list A) :
  buf = take (length buf - n) buf ++ Spec.most_recent n buf.
Proof.
  unfold Spec.most_recent.
  rewrite firstn_rev, rev_involutive, take_drop. reflexivity.
Qed.

End Buffers.

(** C2. A batch of N events on the sweeps or the blocks topic: the buffer is
    first cut to its most recent 400 entries, then the N events are appended.
    The new buffer has at most 400 + N entries, and what precedes the batch
    in it is exactly the most recent 400 entries from before, in order. *)
Theorem flow_buffer_prune_then_append
    (number_digits : float -> string) (null_read_message : string -> string)
    (st : State) (msg : jsval) (topic : string) (batch : list jsval) :
  topic = "sweeps" \/ topic = "blocks" ->
  Js.get msg "topic" = Some (JStr topic) ->
  Js.opt_get msg "data" = JArr batch ->
  exists st',
    dispatch number_digits null_read_message st msg = Handled st'
    /\ Spec.buffer_of topic st'
       = Spec.most_recent 400 (Spec.buffer_of topic st) ++ batch
    /\ length (Spec.buffer_of topic st') <= 400 + length batch
    /\ take (length (Spec.buffer_of topic st') - length batch) (Spec.buffer_of topic st')
       = Spec.most_recent 400 (Spec.buffer_of topic st)
    /\ Spec.buffer_of topic st
       = take (length (Spec.buffer_of topic st) - 400) (Spec.buffer_of topic st)
         ++ Spec.most_recent 400 (Spec.buffer_of topic st).
Proof.
  intros Htopic Hget Hdata.
  assert (Hbound : forall buf : list jsval,
             length (Spec.most_recent 400 buf ++ batch) <= 400 + length batch).
  { intros buf. rewrite length_app, most_recent_length. lia. }
  assert (Hold : forall buf : list jsval,
             take (length (Spec.most_recent 400 buf ++ batch) - length batch)
               (Spec.most_recent 400 buf ++ batch) = Spec.most_recent 400 buf).
  { intros buf. rewrite length_app, Nat.add_sub. apply take_app_length. }
  unfold dispatch. rewrite Hget.
  destruct Htopic as [-> | ->]; cbn [String.eqb Ascii.eqb Bool.eqb];
    unfold append_events; rewrite Hdata; cbn [iterate];
    rewrite (slice_from_neg 400) by lia.
  - exists (set_sweeps (Spec.most_recent 400 (sweeps st) ++ batch) st).
    cbn. repeat split; auto using most_recent_suffix.
  - exists (set_blocks (Spec.most_recent 400 (blocks st) ++ batch) st).
    cbn. repeat split; auto using most_recent_suffix.
Qed.

Lemma flow_buffer_prune_then_append_witness :
  let st := set_sweeps (repeat (JStr "print") 401) State_init in
  let batch := [JStr "new 1"; JStr "new 2"] in
  let msg := Spec.message "sweeps" (JArr batch) in
  Js.get msg "topic" = Some (JStr "sweeps")
  /\ Js.opt_get msg "data" = JArr batch
  /\ exists st',
       dispatch TestEngine.number_digits TestEngine.null_read_message st msg = Handled st'
       /\ length (Spec.buffer_of "sweeps" st') <= 400 + length batch.
Proof.
  intros st batch msg.
  split; [reflexivity |]. split; [reflexivity |].
  destruct (flow_buffer_prune_then_append TestEngine.number_digits
              TestEngine.null_read_message st msg "sweeps" batch
              (or_introl eq_refl) eq_refl eq_refl) as (st' & Hd & _ & Hlen & _).
  exists st'. split; [exact Hd | exact Hlen].
Defined.

(* ===================================================================== *)
(** * The equity map: latest tick wins *)
(* ===================================================================== *)

Section Equity.

Variable number_digits : float -> string.
Variable JSON_parse : string -> parse_result.
Variable null_read_message : string -> string.

Lemma merge_tick_symbol (s : string) (t : jsval) (next : gmap string jsval) :
  Spec.tick_symbol t = Some s ->
  merge_tick number_digits next t
  = Some (<[Spec.canonical s := Spec.merged_tick (Spec.canonical s) t]> next).
Proof.
  intros Hsym. unfold Spec.tick_symbol in Hsym.
  destruct t as [| | | | |? | props]; try discriminate Hsym.
  destruct (Js.lookup "symbol" props) as [[| | | | s' | |]|] eqn:Hl; try discriminate Hsym.
  injection Hsym as ->.
  unfold merge_tick, Js.get, Js.opt_get. cbn [Js.isNullish]. rewrite Hl.
  reflexivity.
Qed.

Lemma latest_cons (k : string) (t : jsval) (ticks : list jsval) :
  Spec.latest k (t :: ticks)
  = match Spec.latest k ticks with
    | Some t' => Some t'
    | None => if Spec.has_symbol k t then Some t else None
    end.
Proof.
  unfold Spec.latest. cbn [List.filter].
  destruct (Spec.has_symbol k t); [| destruct (last _); reflexivity].
  destruct (List.filter (Spec.has_symbol k) ticks) as [|t' l] eqn:Hf; [reflexivity |].
  change (last (t :: t' :: l)) with (last (t' :: l)).
  destruct (last (t' :: l)) eqn:E; [reflexivity |].
  apply last_None in E. discriminate E.
Qed.

Lemma latest_app (k : string) (l1 l2 : list jsval) :
  Spec.latest k (l1 ++ l2)
  = match Spec.latest k l2 with
    | Some t => Some t
    | None => Spec.latest k l1
    end.
Proof.
  unfold Spec.latest. rewrite List.filter_app, last_app. reflexivity.
Qed.

(** Merging ticks of any symbols, in any order: every key holds the most
    recent tick of its symbol, or what it held before when there is none. *)
Lemma merge_ticks_latest (ticks : list jsval) :
  forall next : gmap string jsval,
    Forall Spec.is_tick ticks ->
    exists next',
      merge_ticks number_digits next ticks = Some next'
      /\ forall k, next' !! k = match Spec.latest k ticks with
                                | Some t => Some (Spec.merged_tick k t)
                                | None => next !! k
                                end.
Proof.
  induction ticks as [|t ticks IH]; intros next Hall.
  - exists next. split; reflexivity.
  - apply Forall_cons in Hall as [[s Hs] Hall].
    cbn [merge_ticks]. rewrite (merge_tick_symbol s t next Hs).
    destruct (IH (<[Spec.canonical s := Spec.merged_tick (Spec.canonical s) t]> next) Hall)
      as (next' & Hm & Hk).
    exists next'. split; [exact Hm |]. intros k. rewrite Hk, latest_cons.
    destruct (Spec.latest k ticks); [reflexivity |].
    unfold Spec.has_symbol. rewrite Hs.
    destruct (String.eqb_spec (Spec.canonical s) k) as [<- | Hne].
    + apply lookup_insert_eq.
    + apply lookup_insert_ne. exact Hne.
Qed.

(** A key that is present has exactly one entry. *)
Lemma entries_of_lookup (k : string) (v : jsval) (m : gmap string jsval) :
  m !! k = Some v -> Spec.entries_of k m = [(k, v)].
Proof.
  intros Hl. unfold Spec.entries_of.
  pose proof (NoDup_fst_map_to_list m) as Hnd.
  assert (Hin : (k, v) ∈ map_to_list m) by (apply elem_of_map_to_list; exact Hl).
  induction (map_to_list m) as [|[k0 v0] l IH]; [inversion Hin |].
  cbn [fmap list_fmap fst] in Hnd. apply NoDup_cons in Hnd as [Hnotin Hnd].
  cbn [List.filter fst].
  destruct (String.eqb_spec k0 k) as [-> | Hne].
  - assert (Hnone : List.filter (fun e : string * jsval => String.eqb e.1 k) l = []).
    { clear -Hnotin. induction l as [|[k1 v1] l IHl]; [reflexivity |].
      cbn [List.filter fst]. destruct (String.eqb_spec k1 k) as [-> | ?].
      - exfalso. apply Hnotin. cbn. left.
      - apply IHl. intros Hin. apply Hnotin. cbn. right. exact Hin. }
    rewrite Hnone. apply elem_of_cons in Hin as [Heq | Hin].
    + congruence.
    + exfalso. apply Hnotin. apply list_elem_of_fmap. exists (k, v). auto.
  - apply elem_of_cons in Hin as [Heq | Hin]; [congruence |].
    apply IH; assumption.
Qed.

Lemma dispatch_equity_ts (st : State) (msg : jsval) (b : list jsval) :
  Js.get msg "topic" = Some (JStr "equity_ts") ->
  Spec.carries_ticks (Js.opt_get msg "data") b ->
  Forall Spec.is_tick b ->
  exists st',
    dispatch number_digits null_read_message st msg = Handled st'
    /\ forall k, equity st' !! k = match Spec.latest k b with
                                   | Some t => Some (Spec.merged_tick k t)
                                   | None => equity st !! k
                                   end.
Proof.
  intros Htopic Hcarry Hall. unfold dispatch. rewrite Htopic.
  cbn [String.eqb Ascii.eqb Bool.eqb].
  set (payload := Js.opt_get msg "data") in *.
  assert (Harr : match payload with
                 | JArr xs => xs
                 | _ => match Js.opt_get payload "rows" with
                        | JArr xs => xs
                        | _ => []
                        end
                 end = b).
  { destruct Hcarry as [-> | (props & -> & Hrows)]; [reflexivity |].
    cbn [Js.opt_get]. rewrite Hrows. reflexivity. }
  rewrite Harr. clear Harr.
  destruct b as [|t b'].
  - eexists. split; [reflexivity |]. cbn. auto.
  - destruct (merge_ticks_latest (t :: b') (equity st) Hall) as (next & Hm & Hk).
    cbn [equity set_basis]. rewrite Hm.
    eexists. split; [reflexivity |]. cbn [equity set_equity]. exact Hk.
Qed.

Lemma onmessages_equity_ts (frames : list string) (batches : list (list jsval)) :
  Forall2 (Spec.decodes_to_ticks JSON_parse) frames batches ->
  Forall Spec.is_tick (concat batches) ->
  forall st : State,
  exists st',
    onmessages number_digits JSON_parse null_read_message st frames = Handled st'
    /\ forall k, equity st' !! k = match Spec.latest k (concat batches) with
                                   | Some t => Some (Spec.merged_tick k t)
                                   | None => equity st !! k
                                   end.
Proof.
  induction 1 as [|f b frames batches (msg & Hp & Htopic & Hcarry) _ IH]; intros Hall st.
  - exists st. cbn. auto.
  - cbn [concat] in Hall. apply Forall_app in Hall as [Hb Hrest].
    destruct (dispatch_equity_ts st msg b Htopic Hcarry Hb) as (st1 & Hd & Hk1).
    destruct (IH Hrest st1) as (st' & Hrun & Hk).
    exists st'. cbn [onmessages]. unfold onmessage. rewrite Hp, Hd.
    split; [exact Hrun |]. intros k.
    rewrite Hk. cbn [concat]. rewrite latest_app.
    destruct (Spec.latest k (concat batches)); [reflexivity | apply Hk1].
Qed.

End Equity.

(** C1. For any sequence of [equity_ts] ticks, of any symbols in any order
    and over any number of frames, the equity map ends with exactly one entry
    for every symbol that occurs, and the entry is the most recent tick of
    that symbol as a whole (its own fields, with the canonical symbol); a
    symbol that does not occur keeps what it had. [/ES] and [ES] have the
    same key. *)
Theorem equity_latest_tick_wins
    (number_digits : float -> string) (JSON_parse : string -> parse_result)
    (null_read_message : string -> string)
    (st : State) (frames : list string) (batches : list (list jsval)) :
  Forall2 (Spec.decodes_to_ticks JSON_parse) frames batches ->
  Forall Spec.is_tick (concat batches) ->
  exists st',
    onmessages number_digits JSON_parse null_read_message st frames = Handled st'
    /\ (forall k t,
          Spec.latest k (concat batches) = Some t ->
          equity st' !! k = Some (Spec.merged_tick k t)
          /\ Spec.entries_of k (equity st') = [(k, Spec.merged_tick k t)])
    /\ (forall k,
          Spec.latest k (concat batches) = None ->
          equity st' !! k = equity st !! k)
    /\ normalizeSymbol (JStr "/ES") = Some (JStr "ES")
    /\ normalizeSymbol (JStr "ES") = Some (JStr "ES").
Proof.
  intros Hframes Hall.
  destruct (onmessages_equity_ts number_digits JSON_parse null_read_message
              frames batches Hframes Hall st) as (st' & Hrun & Hk).
  exists st'. split; [exact Hrun |]. split.
  - intros k t Hlast. specialize (Hk k). rewrite Hlast in Hk.
    split; [exact Hk | apply entries_of_lookup; exact Hk].
  - split; [| split; reflexivity].
    intros k Hnone. specialize (Hk k). rewrite Hnone in Hk. exact Hk.
Qed.

Lemma equity_latest_tick_wins_witness :
  Forall2 (Spec.decodes_to_ticks TestEngine.JSON_parse)
    [TestEngine.frame_es_1; TestEngine.frame_es_2]
    [[TestEngine.tick "/ES" 4500; TestEngine.tick "spy" 449; TestEngine.tick "es" 4501];
     [TestEngine.tick "ES" 4502; TestEngine.tick "SPY" 450]]
  /\ Forall Spec.is_tick
       [TestEngine.tick "/ES" 4500; TestEngine.tick "spy" 449; TestEngine.tick "es" 4501;
        TestEngine.tick "ES" 4502; TestEngine.tick "SPY" 450]
  /\ exists st',
       onmessages TestEngine.number_digits TestEngine.JSON_parse
         TestEngine.null_read_message State_init
         [TestEngine.frame_es_1; TestEngine.frame_es_2] = Handled st'
       /\ equity st' !! "ES" = Some (TestEngine.tick "ES" 4502)
       /\ equity st' !! "SPY" = Some (TestEngine.tick "SPY" 450)
       /\ equity st' !! "QQQ" = None.
Proof.
  assert (H1 : Forall2 (Spec.decodes_to_ticks TestEngine.JSON_parse)
                 [TestEngine.frame_es_1; TestEngine.frame_es_2]
                 [[TestEngine.tick "/ES" 4500; TestEngine.tick "spy" 449;
                   TestEngine.tick "es" 4501];
                  [TestEngine.tick "ES" 4502; TestEngine.tick "SPY" 450]]).
  { constructor; [| constructor; [| constructor]].
    - exists TestEngine.msg_es_1. split; [reflexivity |]. split; [reflexivity |].
      left. reflexivity.
    - exists TestEngine.msg_es_2. split; [reflexivity |]. split; [reflexivity |].
      right. eexists. split; reflexivity. }
  assert (H2 : Forall Spec.is_tick
                 (concat [[TestEngine.tick "/ES" 4500; TestEngine.tick "spy" 449;
                           TestEngine.tick "es" 4501];
                          [TestEngine.tick "ES" 4502; TestEngine.tick "SPY" 450]])).
  { repeat constructor; eexists; reflexivity. }
  split; [exact H1 |]. split; [exact H2 |].
  destruct (equity_latest_tick_wins TestEngine.number_digits TestEngine.JSON_parse
              TestEngine.null_read_message State_init _ _ H1 H2)
    as (st' & Hrun & Hsome & Hnone & _).
  exists st'. split; [exact Hrun |]. split; [| split].
  - exact (proj1 (Hsome "ES" (TestEngine.tick "ES" 4502) eq_refl)).
  - exact (proj1 (Hsome "SPY" (TestEngine.tick "SPY" 450) eq_refl)).
  - exact (Hnone "QQQ" eq_refl).
Defined.

(* ===================================================================== *)
(** * Decode faults and unknown topics *)
(* ===================================================================== *)

Section Faults.

Variable number_digits : float -> string.
Variable JSON_parse : string -> parse_result.
Variable null_read_message : string -> string.

Lemma same_data_refl (st : State) : Spec.same_data st st.
Proof. unfold Spec.same_data. auto 10. Qed.

Lemma same_data_set_err (e : option string) (st : State) :
  Spec.same_data (set_err e st) st.
Proof. unfold Spec.same_data. cbn. auto 10. Qed.

(** The handler never reads the last error: states with the same data are
    taken to outcomes with the same data. *)
Lemma dispatch_same_data (a b : State) (msg : jsval) :
  Spec.same_data a b ->
  Spec.same_outcome_data (dispatch number_digits null_read_message a msg)
    (dispatch number_digits null_read_message b msg).
Proof.
  destruct a as [ea oa sa ba wa erra bsa], b as [eb ob sb bb wb errb bsb].
  unfold Spec.same_data. cbn. intros (-> & -> & -> & -> & -> & ->).
  unfold dispatch, Spec.same_outcome_data, Spec.same_data.
  destruct (Js.get msg "topic") as [[| | | | topic | |]|]; cbn; auto 10.
  repeat match goal with
         | |- context [if String.eqb ?x ?y then _ else _] => destruct (String.eqb x y)
         end; cbn; auto 10.
  - destruct (match Js.opt_get msg "data" with
              | JArr xs => xs
              | _ => match Js.opt_get (Js.opt_get msg "data") "rows" with
                     | JArr xs => xs
                     | _ => []
                     end
              end) as [|t r]; cbn; auto 10.
    destruct (merge_tick number_digits eb t) as [next|]; cbn; auto.
    destruct (merge_ticks number_digits next r); cbn; auto 10.
  - destruct (append_events sb (Js.opt_get msg "data")); cbn; auto 10.
  - destruct (append_events bb (Js.opt_get msg "data")); cbn; auto 10.
Qed.

Lemma onmessage_same_data (a b : State) (frame : string) :
  Spec.same_data a b ->
  Spec.same_outcome_data (onmessage number_digits JSON_parse null_read_message a frame)
    (onmessage number_digits JSON_parse null_read_message b frame).
Proof.
  intros Hab. unfold onmessage. destruct (JSON_parse frame) as [msg | message].
  - apply dispatch_same_data, Hab.
  - destruct Hab as (? & ? & ? & ? & ? & ?). cbn. unfold Spec.same_data. cbn. auto 10.
Qed.

Lemma onmessages_same_data (frames : list string) :
  forall a b : State,
    Spec.same_data a b ->
    Spec.same_outcome_data (onmessages number_digits JSON_parse null_read_message a frames)
      (onmessages number_digits JSON_parse null_read_message b frames).
Proof.
  induction frames as [|f frames IH]; intros a b Hab; cbn [onmessages].
  - exact Hab.
  - pose proof (onmessage_same_data a b f Hab) as Hstep.
    destruct (onmessage number_digits JSON_parse null_read_message a f) as [a' |],
             (onmessage number_digits JSON_parse null_read_message b f) as [b' |];
      cbn in Hstep; try contradiction; [apply IH, Hstep | exact I].
Qed.

(** A message whose topic tag is unrecognized changes nothing. *)
Lemma dispatch_unrecognized (st : State) (msg tag : jsval) :
  Js.get msg "topic" = Some tag ->
  Spec.unrecognized tag = true ->
  dispatch number_digits null_read_message st msg = Handled st.
Proof.
  intros Hget Hun. unfold dispatch. rewrite Hget.
  destruct tag as [| | | | topic | |]; try reflexivity.
  cbn [Spec.unrecognized Spec.known_topics existsb] in Hun.
  apply negb_true_iff in Hun.
  repeat (apply orb_false_elim in Hun as [?H Hun]).
  repeat match goal with
         | H : String.eqb topic ?y = false |- _ => rewrite H; clear H
         end.
  reflexivity.
Qed.

End Faults.

(** C9. A frame that does not decode: the handler catches the exception and
    changes the last error only (equity map, options list, sweeps and blocks
    buffers, watchlist and basis are as before), and the frames after it are
    handled as they would be without it. A frame that decodes and carries an
    unrecognized topic changes nothing, the last error included. *)
Theorem decode_fault_is_contained
    (number_digits : float -> string) (JSON_parse : string -> parse_result)
    (null_read_message : string -> string)
    (st : State) (bad : string) (message : string) (rest : list string)
    (unknown : string) (msg tag : jsval) :
  JSON_parse bad = SyntaxError message ->
  JSON_parse unknown = Parsed msg ->
  Js.get msg "topic" = Some tag ->
  Spec.unrecognized tag = true ->
  (exists st',
     onmessage number_digits JSON_parse null_read_message st bad = Handled st'
     /\ err st' = Some message
     /\ equity st' = equity st /\ options st' = options st
     /\ sweeps st' = sweeps st /\ blocks st' = blocks st
     /\ wl st' = wl st /\ basis st' = basis st)
  /\ onmessages number_digits JSON_parse null_read_message st (bad :: rest)
     = onmessages number_digits JSON_parse null_read_message
         (set_err (Some message) st) rest
  /\ Spec.same_outcome_data
       (onmessages number_digits JSON_parse null_read_message st (bad :: rest))
       (onmessages number_digits JSON_parse null_read_message st rest)
  /\ onmessage number_digits JSON_parse null_read_message st unknown = Handled st.
Proof.
  intros Hbad Hparse Htag Hun.
  assert (Hstep : onmessage number_digits JSON_parse null_read_message st bad
                  = Handled (set_err (Some message) st))
    by (unfold onmessage; rewrite Hbad; reflexivity).
  split.
  { exists (set_err (Some message) st). rewrite Hstep. cbn. auto 10. }
  assert (Hrun : onmessages number_digits JSON_parse null_read_message st (bad :: rest)
                 = onmessages number_digits JSON_parse null_read_message
                     (set_err (Some message) st) rest)
    by (cbn [onmessages]; rewrite Hstep; reflexivity).
  split; [exact Hrun |]. split.
  - rewrite Hrun. apply onmessages_same_data, same_data_set_err.
  - unfold onmessage. rewrite Hparse.
    apply (dispatch_unrecognized number_digits null_read_message st msg tag Htag Hun).
Qed.

Lemma decode_fault_is_contained_witness :
  TestEngine.JSON_parse TestEngine.frame_truncated
  = SyntaxError "Unexpected end of JSON input"
  /\ TestEngine.JSON_parse TestEngine.frame_heartbeat = Parsed TestEngine.msg_heartbeat
  /\ Js.get TestEngine.msg_heartbeat "topic" = Some (JStr "heartbeat")
  /\ Spec.unrecognized (JStr "heartbeat") = true
  /\ onmessage TestEngine.number_digits TestEngine.JSON_parse TestEngine.null_read_message
       State_init TestEngine.frame_heartbeat = Handled State_init
  /\ Spec.same_outcome_data
       (onmessages TestEngine.number_digits TestEngine.JSON_parse
          TestEngine.null_read_message State_init
          [TestEngine.frame_truncated; TestEngine.frame_es_1])
       (onmessages TestEngine.number_digits TestEngine.JSON_parse
          TestEngine.null_read_message State_init [TestEngine.frame_es_1]).
Proof.
  pose proof (decode_fault_is_contained TestEngine.number_digits TestEngine.JSON_parse
                TestEngine.null_read_message State_init TestEngine.frame_truncated
                "Unexpected end of JSON input" [TestEngine.frame_es_1]
                TestEngine.frame_heartbeat TestEngine.msg_heartbeat (JStr "heartbeat")
                eq_refl eq_refl eq_refl eq_refl) as (_ & _ & Hsame & Hunknown).
  split; [reflexivity |]. split; [reflexivity |]. split; [reflexivity |].
  split; [reflexivity |]. split; [exact Hunknown | exact Hsame].
Defined.

(* ===================================================================== *)
(** * The basis value *)
(* ===================================================================== *)

Section Basis.

Variable number_digits : float -> string.
Variable null_read_message : string -> string.

(** On the [equity_ts] path the stored basis is checked: it is [null], or
    the finite number the envelope carries. *)
Lemma equity_ts_basis_checked (st st' : State) (msg : jsval) :
  Js.get msg "topic" = Some (JStr "equity_ts") ->
  dispatch number_digits null_read_message st msg = Handled st' ->
  basis st' = JNull
  \/ exists n, basis st' = JNum n /\ JsNumber.isFinite n = true
               /\ Js.opt_get (Js.opt_get msg "data") "es_spx_basis" = JNum n.
Proof.
  intros Htopic. unfold dispatch. rewrite Htopic. cbn [String.eqb Ascii.eqb Bool.eqb].
  set (payload := Js.opt_get msg "data").
  set (arr := match payload with
              | JArr xs => xs
              | _ => match Js.opt_get payload "rows" with
                     | JArr xs => xs
                     | _ => []
                     end
              end).
  set (maybeBasis := if Js.isArray payload then JNull
                     else Js.nullish_or (Js.opt_get payload "es_spx_basis") JNull).
  assert (Hb : forall b, b = match maybeBasis with
                             | JNum n => if JsNumber.isFinite n then maybeBasis else JNull
                             | _ => JNull
                             end ->
               b = JNull
               \/ exists n, b = JNum n /\ JsNumber.isFinite n = true
                            /\ Js.opt_get payload "es_spx_basis" = JNum n).
  { intros b ->. unfold maybeBasis.
    destruct (Js.isArray payload); [left; reflexivity |].
    unfold Js.nullish_or.
    destruct (Js.opt_get payload "es_spx_basis") as [| | | n | | |]; cbn [Js.isNullish];
      try (left; reflexivity).
    destruct (JsNumber.isFinite n) eqn:Hfin; [| left; reflexivity].
    right. exists n. auto. }
  destruct arr as [|t r].
  - intros [= <-]. apply Hb. reflexivity.
  - cbn [equity set_basis].
    destruct (merge_ticks number_digits (equity st) (t :: r)); [| discriminate].
    intros [= <-]. apply Hb. reflexivity.
Qed.

(** On the [basis] topic the stored basis is whatever the payload carries,
    unless that is nullish. *)
Lemma basis_topic_unchecked (st : State) (msg : jsval) (props : list (string * jsval))
    (v : jsval) :
  Js.get msg "topic" = Some (JStr "basis") ->
  Js.opt_get msg "data" = JObj props ->
  Js.lookup "es_spx_basis" props = Some v ->
  dispatch number_digits null_read_message st msg
  = Handled (set_basis (if Js.isNullish v then JNull else v) st).
Proof.
  intros Htopic Hdata Hv. unfold dispatch. rewrite Htopic.
  cbn [String.eqb Ascii.eqb Bool.eqb]. rewrite Hdata.
  cbn [Js.truthy Js.opt_get]. rewrite Hv. reflexivity.
Qed.

End Basis.

(** C6 (the code at the failing inputs). On the [basis] topic a basis that is
    not finite ([Infinity], which [JSON.parse] returns for [1e999]) or not a
    number is stored as it is, where the [equity_ts] path stores [null] for
    the same value; an absent or [null] basis gives [null] on both paths, and
    a finite one is stored on both. *)
Theorem basis_topic_stores_unchecked_value
    (number_digits : float -> string) (null_read_message : string -> string)
    (st : State) :
  let on_basis v :=
    dispatch number_digits null_read_message st
      (Spec.message "basis" (JObj [("es_spx_basis", v)])) in
  let on_equity v :=
    dispatch number_digits null_read_message st
      (Spec.message "equity_ts" (JObj [("es_spx_basis", v)])) in
  on_basis (JNum PrimFloat.infinity) = Handled (set_basis (JNum PrimFloat.infinity) st)
  /\ on_basis (JStr "abc") = Handled (set_basis (JStr "abc") st)
  /\ on_equity (JNum PrimFloat.infinity) = Handled (set_basis JNull st)
  /\ on_equity (JStr "abc") = Handled (set_basis JNull st)
  /\ on_basis JNull = Handled (set_basis JNull st)
  /\ on_equity JNull = Handled (set_basis JNull st)
  /\ on_basis (JNum 1.25) = Handled (set_basis (JNum 1.25) st)
  /\ on_equity (JNum 1.25) = Handled (set_basis (JNum 1.25) st)
  /\ dispatch number_digits null_read_message st (Spec.message "basis" JNull)
     = Handled (set_basis JNull st)
  /\ (forall v, Js.isNullish v = false -> on_basis v = Handled (set_basis v st))
  /\ (forall v st', on_equity v = Handled st' ->
                    basis st' = JNull
                    \/ exists n, basis st' = JNum n /\ JsNumber.isFinite n = true).
Proof.
  cbv zeta. repeat (split; [reflexivity |]). split.
  - intros v Hv.
    rewrite (basis_topic_unchecked number_digits null_read_message st
               (Spec.message "basis" (JObj [("es_spx_basis", v)]))
               [("es_spx_basis", v)] v eq_refl eq_refl eq_refl).
    rewrite Hv. reflexivity.
  - intros v st' H.
    destruct (equity_ts_basis_checked number_digits null_read_message st st'
                (Spec.message "equity_ts" (JObj [("es_spx_basis", v)])) eq_refl H)
      as [Hnull | (n & Hn & Hfin & _)]; [left; exact Hnull | right; exists n; auto].
Qed.

(* ===================================================================== *)
(** * Notional *)
(* ===================================================================== *)

(** C4 (as amended). With no explicit notional, a quantity of 10 at a price
    of 5 has the notional [10 * 5 * 100 = 5000]. *)
Theorem notionalOf_qty_10_price_5 :
  notionalOf {| notional := None; qty := Some 10%float; price := Some 5%float |}
  = 5000%float.
Proof. reflexivity. Qed.

(** C4 (counterexample). The notional of a quantity of 10 at a price of 5 is
    5000, which is not 500. *)
Lemma notionalOf_qty_10_price_5_differs_from_500 :
  notionalOf {| notional := None; qty := Some 10%float; price := Some 5%float |}
  = 5000%float
  /\ PrimFloat.eqb
       (notionalOf {| notional := None; qty := Some 10%float; price := Some 5%float |})
       500 = false.
Proof. split; reflexivity. Qed.

(** C5 (counterexample). A provided notional of 999.5 is not returned as it
    is: the result is 1000. *)
Lemma notionalOf_rounds_the_provided_value :
  notionalOf {| notional := Some 999.5%float; qty := Some 1%float; price := Some 1%float |}
  = 1000%float
  /\ PrimFloat.eqb
       (notionalOf {| notional := Some 999.5%float; qty := Some 1%float;
                      price := Some 1%float |})
       999.5 = false.
Proof. split; reflexivity. Qed.

(** C5 (as amended). [notionalOf] returns the provided notional rounded to
    the nearest integer when one is present (so a provided integer, or a value
    that is not finite, is returned as it is), and otherwise
    [round(qty * price * 100)], an absent or falsy [qty] or [price] counting as
    0; the explicit notional 999 wins over [qty = 1], [price = 1]. *)
Theorem notionalOf_provided_or_computed (m : FlowSize) :
  notionalOf m
  = JsNumber.Math_round
      (match notional m with
       | Some n => n
       | None => PrimFloat.mul (PrimFloat.mul (or_zero (qty m)) (or_zero (price m))) 100
       end)
  /\ (forall n z, notional m = Some n -> JsNumber.to_Z n = Some z -> notionalOf m = n)
  /\ (forall n, notional m = Some n -> JsNumber.isFinite n = false -> notionalOf m = n)
  /\ or_zero None = 0%float
  /\ or_zero (Some PrimFloat.nan) = 0%float
  /\ notionalOf {| notional := Some 999%float; qty := Some 1%float; price := Some 1%float |}
     = 999%float
  /\ notionalOf {| notional := None; qty := None; price := Some 5%float |} = 0%float.
Proof.
  split; [reflexivity |]. split.
  - intros n z Hn Hz. unfold notionalOf, JsNumber.Math_round. rewrite Hn, Hz.
    destruct (negb (JsNumber.isFinite n)); reflexivity.
  - split.
    + intros n Hn Hfin. unfold notionalOf, JsNumber.Math_round. rewrite Hn, Hfin.
      reflexivity.
    + repeat split.
Qed.

Lemma notionalOf_provided_or_computed_witness :
  let m := {| notional := Some 999%float; qty := Some 1%float; price := Some 1%float |} in
  notional m = Some 999%float
  /\ JsNumber.to_Z 999 = Some 999%Z
  /\ notionalOf m = 999%float.
Proof.
  intros m. split; [reflexivity |]. split; [reflexivity |].
  exact (proj1 (proj2 (notionalOf_provided_or_computed m)) 999%float 999%Z eq_refl eq_refl).
Defined.

(* ===================================================================== *)
(** * Watchlist symbols *)
(* ===================================================================== *)

Section Symbols.




Lemma length_toUpperCase (s : string) :
  String.length (JsString.toUpperCase s) = String.length s.
Proof. induction s as [|c s IH]; cbn; [reflexivity | rewrite IH; reflexivity]. Qed.



Lemma mem_spec (x : string) (l : list string) : Spec.mem x l = true <-> x ∈ l.
Proof.
  unfold Spec.mem. rewrite existsb_exists. split.
  - intros (y & Hin & Heq). apply String.eqb_eq in Heq. subst y.
    apply list_elem_of_In, Hin.
  - intros Hin. exists x. split; [apply list_elem_of_In, Hin | apply String.eqb_refl].
Qed.

Lemma Set_add_mem (acc : list string) (x : string) :
  JsArray.Set_add acc x = if Spec.mem x acc then acc else acc ++ [x].
Proof.
  unfold JsArray.Set_add. destruct (decide (x ∈ acc)) as [Hin | Hout].
  - apply mem_spec in Hin. rewrite Hin. reflexivity.
  - destruct (Spec.mem x acc) eqn:E; [| reflexivity]. apply mem_spec in E. contradiction.
Qed.

Lemma filter_filter_comm {A} (f g : A -> bool) (l : list A) :
  List.filter f (List.filter g l) = List.filter (fun x => f x && g x) l.
Proof.
  induction l as [|x l IH]; [reflexivity |].
  cbn [List.filter]. destruct (g x) eqn:Hg; cbn [List.filter];
    destruct (f x) eqn:Hf; cbn [andb]; rewrite ?IH; reflexivity.
Qed.

(** Filling a [Set] from [acc] with [l] adds the first occurrences of [l]
    that [acc] does not hold. *)
Lemma Set_of_from (l : list string) :
  forall acc : list string,
    foldl JsArray.Set_add acc l
    = acc ++ List.filter (fun y => negb (Spec.mem y acc)) (Spec.first_occurrences l).
Proof.
  induction l as [|x l IH]; intros acc.
  - cbn. rewrite app_nil_r. reflexivity.
  - cbn [foldl Spec.first_occurrences List.filter]. rewrite IH, Set_add_mem.
    destruct (Spec.mem x acc) eqn:Hx; cbn [negb].
    + f_equal. rewrite filter_filter_comm. apply List.filter_ext. intros y.
      destruct (String.eqb_spec x y) as [-> | Hne]; cbn [negb].
      * rewrite Hx. reflexivity.
      * rewrite andb_true_r. reflexivity.
    + rewrite <- app_assoc. cbn [app]. do 2 f_equal.
      rewrite filter_filter_comm. apply List.filter_ext. intros y.
      unfold Spec.mem. rewrite existsb_app. cbn [existsb]. rewrite orb_false_r.
      rewrite negb_orb. rewrite (String.eqb_sym y x). reflexivity.
Qed.

Lemma uniq_first_occurrences (l : list string) : uniq l = Spec.first_occurrences l.
Proof.
  unfold uniq, JsArray.Set_of. rewrite Set_of_from. cbn [app].
  rewrite <- (List.filter_ext (fun _ => true)) by reflexivity.
  induction (Spec.first_occurrences l) as [|y r IH]; [reflexivity |].
  cbn [List.filter]. rewrite IH. reflexivity.
Qed.

Lemma first_occurrences_elem (x : string) (l : list string) :
  x ∈ Spec.first_occurrences l <-> x ∈ l.
Proof.
  induction l as [|y l IH]; [reflexivity |].
  cbn [Spec.first_occurrences]. rewrite !elem_of_cons, <- IH.
  rewrite !list_elem_of_In, filter_In, <- !list_elem_of_In.
  destruct (String.eqb_spec y x) as [-> | Hne]; cbn [negb].
  - split; [intros [? | [? ?]]; auto | intros [? | ?]; auto].
  - split; [intros [? | [? ?]]; auto | intros [? | ?]; auto].
Qed.

Lemma first_occurrences_NoDup (l : list string) : NoDup (Spec.first_occurrences l).
Proof.
  induction l as [|y l IH]; [constructor |].
  cbn [Spec.first_occurrences]. constructor.
  - rewrite list_elem_of_In, filter_In. intros [_ H].
    rewrite String.eqb_refl in H. discriminate H.
  - apply NoDup_ListNoDup, List.NoDup_filter, NoDup_ListNoDup, IH.
Qed.









Lemma candidates_of_strings (number_digits : float -> string) (l : list string) :
  symbol_candidates number_digits (JArr (map JStr l)) = l.
Proof.
  cbn [symbol_candidates]. rewrite map_map. cbn [js_String]. apply map_id.
Qed.

End Symbols.

Lemma filter_sublist {A} (f : A -> bool) (l : list A) : List.filter f l `sublist_of` l.
Proof.
  induction l as [|x l IH]; [constructor |].
  cbn [List.filter]. destruct (f x); [apply sublist_skip | apply sublist_cons]; exact IH.
Qed.



(* ===================================================================== *)
(** * Binary64 facts and the implied-volatility percentage *)
(* ===================================================================== *)

Local Open Scope Z_scope.

Section FloatFacts.

Variable number_digits : float -> string.
Variable string_to_number : string -> float.

(** ** Mantissas *)

Lemma digits2_pos_bounds (m : positive) :
  2 ^ (Z.pos (digits2_pos m) - 1) <= Z.pos m < 2 ^ Z.pos (digits2_pos m).
Proof.
  induction m as [m IH | m IH |]; cbn [digits2_pos]; [| | cbn; lia].
  - rewrite Pos2Z.inj_succ.
    replace (Z.succ (Z.pos (digits2_pos m)) - 1) with (Z.succ (Z.pos (digits2_pos m) - 1)) by lia.
    rewrite !Z.pow_succ_r by lia. lia.
  - rewrite Pos2Z.inj_succ.
    replace (Z.succ (Z.pos (digits2_pos m)) - 1) with (Z.succ (Z.pos (digits2_pos m) - 1)) by lia.
    rewrite !Z.pow_succ_r by lia. lia.
Qed.

(** What validity says of a finite binary64: the exponent is at least
    [emin], the mantissa has at most 53 bits, and exactly 53 above [emin]. *)
Lemma valid_finite (s : bool) (m : positive) (e : Z) :
  valid_binary (S754_finite s m e) = true ->
  -1074 <= e <= 971
  /\ Z.pos (digits2_pos m) <= 53
  /\ (-1074 < e -> Z.pos (digits2_pos m) = 53).
Proof.
  cbn [SpecFloat.valid_binary]. unfold bounded, canonical_mantissa, fexp, SpecFloat.emin.
  intros H. apply andb_prop in H as [H1 H2].
  apply Z.eqb_eq in H1. apply Z.leb_le in H2.
  change (3 - emax - prec) with (-1074) in H1. change prec with 53 in H1.
  change (emax - prec) with 971 in H2. lia.
Qed.

(** ** Classification *)

Lemma SFeqb_refl (X : spec_float) :
  SFeqb X X = match X with S754_nan => false | _ => true end.
Proof.
  destruct X as [s | s | | s m e]; try (destruct s; reflexivity); try reflexivity.
  unfold SFeqb, SFcompare.
  rewrite Z.compare_refl, Pos.compare_cont_refl. destruct s; reflexivity.
Qed.

Lemma is_nan_spec (x : float) :
  PrimFloat.is_nan x = match Prim2SF x with S754_nan => true | _ => false end.
Proof.
  unfold PrimFloat.is_nan. rewrite FloatAxioms.eqb_spec, SFeqb_refl.
  destruct (Prim2SF x); reflexivity.
Qed.

Lemma is_infinity_spec (x : float) :
  PrimFloat.is_infinity x = match Prim2SF x with S754_infinity _ => true | _ => false end.
Proof.
  unfold PrimFloat.is_infinity. rewrite FloatAxioms.eqb_spec, FloatAxioms.abs_spec.
  change (Prim2SF PrimFloat.infinity) with (S754_infinity false).
  destruct (Prim2SF x) as [s | s | | s m e]; reflexivity.
Qed.

Lemma isFinite_spec (x : float) :
  JsNumber.isFinite x
  = match Prim2SF x with S754_zero _ | S754_finite _ _ _ => true | _ => false end.
Proof.
  unfold JsNumber.isFinite. rewrite is_nan_spec, is_infinity_spec.
  destruct (Prim2SF x); reflexivity.
Qed.

Lemma is_zero_spec (x : float) :
  PrimFloat.is_zero x = match Prim2SF x with S754_zero _ => true | _ => false end.
Proof.
  unfold PrimFloat.is_zero. rewrite FloatAxioms.eqb_spec.
  change (Prim2SF PrimFloat.zero) with (S754_zero false).
  destruct (Prim2SF x) as [s | s | | s m e]; try reflexivity; destruct s; reflexivity.
Qed.



(** ** Rounding never changes the sign *)

Lemma shr_1_nonneg (mrs : shr_record) : 0 <= shr_m mrs -> 0 <= shr_m (shr_1 mrs).
Proof.
  destruct mrs as [m r s]. cbn [shr_m].
  destruct m as [| [p | p |] | p]; cbn; lia.
Qed.

Lemma iter_pos_invariant {A} (P : A -> Prop) (f : A -> A) :
  (forall x, P x -> P (f x)) -> forall p x, P x -> P (SpecFloat.iter_pos f p x).
Proof.
  intros Hf. induction p as [p IH | p IH |]; intros x Hx; cbn [SpecFloat.iter_pos]; auto.
Qed.

Lemma shr_nonneg (mrs : shr_record) (e n : Z) :
  0 <= shr_m mrs -> 0 <= shr_m (fst (shr mrs e n)).
Proof.
  intros Hm. unfold shr. destruct n as [| p | p]; cbn [fst]; try exact Hm.
  apply (iter_pos_invariant (fun r => 0 <= shr_m r)); [apply shr_1_nonneg | exact Hm].
Qed.

Lemma shr_record_of_loc_m (m : Z) (l : location) : shr_m (shr_record_of_loc m l) = m.
Proof. destruct l as [| []]; reflexivity. Qed.

Lemma round_nearest_even_ge (m : Z) (l : location) : m <= round_nearest_even m l.
Proof. unfold round_nearest_even. destruct l as [| []]; try destruct (Z.even m); lia. Qed.

(** The result of rounding a non-negative mantissa is a zero, a finite
    number or an infinity of the given sign. *)
Lemma binary_round_aux_sign (s : bool) (mx ex : Z) (lx : location) :
  0 <= mx ->
  match binary_round_aux prec emax s mx ex lx with
  | S754_zero s' | S754_infinity s' | S754_finite s' _ _ => s' = s
  | S754_nan => False
  end.
Proof.
  intros Hm. unfold binary_round_aux.
  destruct (shr_fexp prec emax mx ex lx) as [mrs' e'] eqn:H1.
  destruct (shr_fexp prec emax (round_nearest_even (shr_m mrs') (loc_of_shr_record mrs')) e'
              loc_Exact) as [mrs'' e''] eqn:H2.
  assert (Hm' : 0 <= shr_m mrs').
  { unfold shr_fexp in H1.
    pose proof (shr_nonneg (shr_record_of_loc mx lx) ex
                  (fexp prec emax (Zdigits2 mx + ex) - ex)) as Hn.
    rewrite H1, shr_record_of_loc_m in Hn. apply Hn, Hm. }
  assert (Hm'' : 0 <= shr_m mrs'').
  { unfold shr_fexp in H2.
    set (m2 := round_nearest_even (shr_m mrs') (loc_of_shr_record mrs')) in *.
    pose proof (shr_nonneg (shr_record_of_loc m2 loc_Exact) e'
                  (fexp prec emax (Zdigits2 m2 + e') - e')) as Hn.
    rewrite H2, shr_record_of_loc_m in Hn. apply Hn.
    pose proof (round_nearest_even_ge (shr_m mrs') (loc_of_shr_record mrs')). unfold m2. lia. }
  destruct (shr_m mrs'') as [| p | p]; [reflexivity | | lia].
  destruct (e'' <=? emax - prec); reflexivity.
Qed.

(** ** The percentage of [fmtIvPct] *)







Lemma to_Z_finite (a : float) (s : bool) (m : positive) (e : Z) :
  Prim2SF a = S754_finite s m e ->
  JsNumber.to_Z a
  = (let v := if 0 <=? e then Some (Z.pos m * 2 ^ e)
              else if Z.pos m mod 2 ^ (- e) =? 0 then Some (Z.pos m / 2 ^ (- e))
              else None in
     if s then Z.opp <$> v else v).
Proof. intros Ha. unfold JsNumber.to_Z. rewrite Ha. reflexivity. Qed.




End FloatFacts.

Local Close Scope Z_scope.



(* ===================================================================== *)
(** * Binary64 facts: the sign of a difference *)
(* ===================================================================== *)

Local Open Scope Z_scope.

Section Subtraction.

(** ** Shifts *)

Lemma iter_pos_nat {A} (f : A -> A) (p : positive) (x : A) :
  SpecFloat.iter_pos f p x = Nat.iter (Pos.to_nat p) f x.
Proof.
  revert x. induction p as [p IH | p IH |]; intros x; cbn [SpecFloat.iter_pos].
  - rewrite !IH, Pos2Nat.inj_xI, <- Nat.iter_add, <- Nat.iter_succ_r.
    f_equal. lia.
  - rewrite !IH, Pos2Nat.inj_xO, <- Nat.iter_add. f_equal. lia.
  - reflexivity.
Qed.

(** Shifting a mantissa right by fewer bits than it has leaves a positive
    mantissa. *)
Lemma iter_shr_1_positive (n : nat) :
  forall (m : positive) (r s : bool),
    Z.of_nat n < Z.pos (digits2_pos m) ->
    exists m', shr_m (Nat.iter n shr_1 {| shr_m := Z.pos m; shr_r := r; shr_s := s |})
               = Z.pos m'.
Proof.
  induction n as [|n IH]; intros m r s Hn.
  - exists m. reflexivity.
  - rewrite Nat.iter_succ_r.
    destruct m as [p | p |]; cbn [digits2_pos] in Hn; cbn [shr_1].
    + apply IH. lia.
    + apply IH. lia.
    + lia.
Qed.

Lemma shr_fexp_positive (m : positive) (e : Z) (l : location) :
  -1074 <= e ->
  (exists m', shr_m (fst (shr_fexp prec emax (Z.pos m) e l)) = Z.pos m')
  /\ -1074 <= snd (shr_fexp prec emax (Z.pos m) e l).
Proof.
  intros He. unfold shr_fexp, shr, fexp, SpecFloat.emin. cbn [Zdigits2].
  change (3 - emax - prec) with (-1074). change prec with 53.
  destruct (Z.max (Z.pos (digits2_pos m) + e - 53) (-1074) - e) as [| p | p] eqn:Hn;
    cbn [fst snd].
  - split; [| exact He]. exists m. destruct l as [| []]; reflexivity.
  - split; [| lia]. rewrite iter_pos_nat.
    destruct l as [| []]; cbn [shr_record_of_loc]; apply iter_shr_1_positive; lia.
  - split; [| exact He]. exists m. destruct l as [| []]; reflexivity.
Qed.

(** Rounding a positive mantissa at an exponent of at least [emin] gives a
    finite number or an infinity of the given sign, never a zero. *)
Lemma binary_round_aux_positive (s : bool) (m : positive) (e : Z) (l : location) :
  -1074 <= e ->
  match binary_round_aux prec emax s (Z.pos m) e l with
  | S754_finite s' _ _ | S754_infinity s' => s' = s
  | _ => False
  end.
Proof.
  intros He. unfold binary_round_aux.
  destruct (shr_fexp_positive m e l He) as ((m1 & Hm1) & He1).
  destruct (shr_fexp prec emax (Z.pos m) e l) as [mrs' e'] eqn:H1.
  cbn [fst snd] in Hm1, He1. rewrite Hm1.
  pose proof (round_nearest_even_ge (Z.pos m1) (loc_of_shr_record mrs')) as Hge.
  destruct (round_nearest_even (Z.pos m1) (loc_of_shr_record mrs')) as [| m2 | m2];
    [lia | | lia].
  destruct (shr_fexp_positive m2 e' loc_Exact He1) as ((m3 & Hm3) & _).
  destruct (shr_fexp prec emax (Z.pos m2) e' loc_Exact) as [mrs'' e''] eqn:H2.
  cbn [fst] in Hm3. rewrite Hm3.
  destruct (e'' <=? emax - prec); reflexivity.
Qed.

Lemma shl_align_exponent (m : positive) (e e' : Z) :
  -1074 <= e -> -1074 <= e' -> -1074 <= snd (shl_align m e e').
Proof.
  intros He He'. unfold shl_align. destruct (e' - e); cbn [snd]; assumption.
Qed.

(** The sign of a normalized integer: the result is above zero exactly
    when the integer is. *)
Lemma binary_normalize_sign (M e : Z) :
  -1074 <= e ->
  SFltb (S754_zero false) (binary_normalize prec emax M e false) = (0 <? M).
Proof.
  intros He. unfold binary_normalize, binary_round.
  destruct M as [| p | p]; [reflexivity | |].
  - destruct (shl_align p e (fexp prec emax (Z.pos (digits2_pos p) + e))) as [mz ez] eqn:Hs.
    assert (Hez : -1074 <= ez).
    { pose proof (shl_align_exponent p e (fexp prec emax (Z.pos (digits2_pos p) + e)) He) as H.
      rewrite Hs in H. apply H. unfold fexp, SpecFloat.emin.
      change (3 - emax - prec) with (-1074). lia. }
    pose proof (binary_round_aux_positive false mz ez loc_Exact Hez) as H.
    destruct (binary_round_aux prec emax false (Z.pos mz) ez loc_Exact) as [s | s | | s m' e'];
      try contradiction; subst s; reflexivity.
  - destruct (shl_align p e (fexp prec emax (Z.pos (digits2_pos p) + e))) as [mz ez] eqn:Hs.
    pose proof (binary_round_aux_sign true (Z.pos mz) ez loc_Exact ltac:(lia)) as H.
    destruct (binary_round_aux prec emax true (Z.pos mz) ez loc_Exact) as [s | s | | s m' e'];
      try contradiction; subst s; reflexivity.
Qed.

(** ** Comparison of finite numbers *)

Lemma shl_align_value (m : positive) (e e' : Z) :
  e' <= e -> Z.pos (fst (shl_align m e e')) = Z.pos m * 2 ^ (e - e').
Proof.
  intros He. unfold shl_align. destruct (e' - e) as [| d | d] eqn:Hd; cbn [fst].
  - replace (e - e') with 0 by lia. lia.
  - lia.
  - change (Pos.iter xO m d) with (shift_pos d m).
    rewrite shift_pos_correct, Z.pow_pos_fold.
    replace (e - e') with (Z.pos d) by lia. lia.
Qed.

Lemma mantissa_below (s : bool) (m : positive) (e : Z) :
  valid_binary (S754_finite s m e) = true -> Z.pos m < 2 ^ 53.
Proof.
  intros Hv. apply valid_finite in Hv as (_ & Hd & _).
  pose proof (digits2_pos_bounds m) as [_ Hm].
  eapply Z.lt_le_trans; [exact Hm |]. apply Z.pow_le_mono_r; lia.
Qed.

Lemma mantissa_normal (s : bool) (m : positive) (e : Z) :
  valid_binary (S754_finite s m e) = true -> -1074 < e -> 2 ^ 52 <= Z.pos m.
Proof.
  intros Hv He. apply valid_finite in Hv as (_ & _ & Hd).
  pose proof (digits2_pos_bounds m) as [Hm _].
  rewrite (Hd He) in Hm. exact Hm.
Qed.

(** A number with the larger exponent has the larger magnitude. *)
Lemma larger_exponent (sx sy : bool) (mx my : positive) (ex ey : Z) :
  valid_binary (S754_finite sx mx ex) = true ->
  valid_binary (S754_finite sy my ey) = true ->
  ey < ex ->
  Z.pos my < Z.pos mx * 2 ^ (ex - ey).
Proof.
  intros Hx Hy Hlt.
  pose proof (mantissa_below sy my ey Hy) as Hmy.
  assert (Hey : -1074 <= ey) by (apply valid_finite in Hy; lia).
  pose proof (mantissa_normal sx mx ex Hx ltac:(lia)) as Hmx.
  assert (Hpow : 2 ^ 1 <= 2 ^ (ex - ey)) by (apply Z.pow_le_mono_r; lia).
  assert (H53 : 2 ^ 53 = 2 ^ 52 * 2 ^ 1) by reflexivity.
  set (P52 := 2 ^ 52) in *. set (P53 := 2 ^ 53) in *. set (P1 := 2 ^ 1) in *.
  set (P := 2 ^ (ex - ey)) in *.
  assert (0 < P52) by reflexivity. assert (0 < P1) by reflexivity.
  clearbody P52 P53 P1 P.
  assert (P52 * P1 <= Z.pos mx * P) by (apply Z.mul_le_mono_nonneg; lia).
  lia.
Qed.

(** The order of two valid finite numbers of one sign, by exponent and then
    by mantissa, is the order of their mantissas aligned at the smaller
    exponent. *)
Lemma aligned_compare (sx sy : bool) (mx my : positive) (ex ey : Z) :
  valid_binary (S754_finite sx mx ex) = true ->
  valid_binary (S754_finite sy my ey) = true ->
  match ey ?= ex with
  | Lt => Lt
  | Gt => Gt
  | Eq => Pos.compare_cont Eq my mx
  end
  = (Z.pos (fst (shl_align my ey (Z.min ex ey)))
     ?= Z.pos (fst (shl_align mx ex (Z.min ex ey)))).
Proof.
  intros Hx Hy. rewrite !shl_align_value by lia.
  destruct (Z.compare_spec ey ex) as [-> | Hlt | Hgt].
  - rewrite Z.min_id, Z.sub_diag, Z.pow_0_r, !Z.mul_1_r. reflexivity.
  - rewrite Z.min_r by lia. rewrite Z.sub_diag, Z.pow_0_r, Z.mul_1_r.
    symmetry. apply Z.compare_lt_iff. apply (larger_exponent sx sy); assumption.
  - rewrite Z.min_l by lia. rewrite Z.sub_diag, Z.pow_0_r, Z.mul_1_r.
    symmetry. apply Z.compare_gt_iff. apply (larger_exponent sy sx); assumption.
Qed.

(** ** The sign of a difference *)

Lemma SFsub_sign_finite (sx sy : bool) (mx my : positive) (ex ey : Z) :
  valid_binary (S754_finite sx mx ex) = true ->
  valid_binary (S754_finite sy my ey) = true ->
  SFltb (S754_zero false) (SF64sub (S754_finite sx mx ex) (S754_finite sy my ey))
  = SFltb (S754_finite sy my ey) (S754_finite sx mx ex).
Proof.
  intros Hx Hy.
  assert (Hex : -1074 <= ex) by (apply valid_finite in Hx; lia).
  assert (Hey : -1074 <= ey) by (apply valid_finite in Hy; lia).
  unfold SF64sub, SFsub. rewrite binary_normalize_sign by lia.
  pose proof (aligned_compare sx sy mx my ex ey Hx Hy) as Hcmp.
  set (a := Z.pos (fst (shl_align mx ex (Z.min ex ey)))) in *.
  set (b := Z.pos (fst (shl_align my ey (Z.min ex ey)))) in *.
  assert (Ha : 0 < a) by reflexivity. assert (Hb : 0 < b) by reflexivity.
  clearbody a b.
  unfold SFltb, SFcompare.
  destruct sy, sx; cbn [cond_Zopp].
  - (* both negative *)
    destruct (ey ?= ex); [destruct (Pos.compare_cont Eq my mx) | |];
      cbv beta iota delta [CompOpp];
      destruct (Z.compare_spec b a); try discriminate Hcmp;
      first [ apply Z.ltb_lt; lia | apply Z.ltb_ge; lia ].
  - apply Z.ltb_lt. lia.
  - apply Z.ltb_ge. lia.
  - (* both positive *)
    destruct (ey ?= ex); [destruct (Pos.compare_cont Eq my mx) | |];
      cbv beta iota;
      destruct (Z.compare_spec b a); try discriminate Hcmp;
      first [ apply Z.ltb_lt; lia | apply Z.ltb_ge; lia ].
Qed.

(** For numbers that are not [NaN], [a - b] is above zero exactly when [b]
    is below [a]. *)
Lemma sub_positive_iff (a b : float) :
  PrimFloat.is_nan a = false ->
  PrimFloat.is_nan b = false ->
  PrimFloat.ltb 0 (PrimFloat.sub a b) = PrimFloat.ltb b a.
Proof.
  rewrite !is_nan_spec, !FloatAxioms.ltb_spec, FloatAxioms.sub_spec.
  change (Prim2SF 0) with (S754_zero false).
  pose proof (Prim2SF_valid a) as Hva. pose proof (Prim2SF_valid b) as Hvb.
  destruct (Prim2SF a) as [sa | sa | | sa ma ea], (Prim2SF b) as [sb | sb | | sb mb eb];
    intros Ha Hb; try discriminate Ha; try discriminate Hb;
    try (destruct sa, sb; reflexivity).
  apply SFsub_sign_finite; assumption.
Qed.

Lemma SFcompare_antisym (X Y : spec_float) :
  SFcompare Y X = CompOpp <$> SFcompare X Y.
Proof.
  destruct X as [sx | sx | | sx mx ex], Y as [sy | sy | | sy my ey];
    try reflexivity; try (destruct sx; reflexivity); try (destruct sy; reflexivity);
    try (destruct sx, sy; reflexivity).
  unfold SFcompare. cbn [fmap option_fmap option_map].
  rewrite (Z.compare_antisym ex ey), (ZC4 my mx).
  destruct sx, sy; try reflexivity;
    destruct (ex ?= ey); try reflexivity;
    destruct (Pos.compare_cont Eq mx my); reflexivity.
Qed.

(** Among numbers that are not [NaN], what is not above is at most. *)
Lemma leb_of_not_gt (a b : float) :
  PrimFloat.is_nan a = false ->
  PrimFloat.is_nan b = false ->
  PrimFloat.ltb b a = false ->
  PrimFloat.leb a b = true.
Proof.
  rewrite !is_nan_spec, FloatAxioms.ltb_spec, FloatAxioms.leb_spec.
  unfold SFltb, SFleb. rewrite (SFcompare_antisym (Prim2SF a) (Prim2SF b)).
  destruct (Prim2SF a) as [sa | sa | | sa ma ea] eqn:Ha,
           (Prim2SF b) as [sb | sb | | sb mb eb] eqn:Hb;
    intros Hna Hnb; try discriminate Hna; try discriminate Hnb;
    destruct (SFcompare _ _) as [[] |] eqn:Hc; cbn; try reflexivity; try discriminate;
    try (intros _; destruct sa, sb; discriminate Hc);
    try (intros _; destruct sa; discriminate Hc);
    try (intros _; destruct sb; discriminate Hc).
Qed.

Lemma leb_of_lt (a b : float) : PrimFloat.ltb a b = true -> PrimFloat.leb a b = true.
Proof.
  rewrite FloatAxioms.ltb_spec, FloatAxioms.leb_spec. unfold SFltb, SFleb.
  destruct (SFcompare (Prim2SF a) (Prim2SF b)) as [[] |]; try discriminate; reflexivity.
Qed.

End Subtraction.

Local Close Scope Z_scope.

(* ===================================================================== *)
(** * Option grouping *)
(* ===================================================================== *)

Section Sorting.

Context {A : Type}.

Lemma sort_insert_perm (cmp : A -> A -> float) (x : A) (l : list A) :
  JsArray.sort_insert cmp x l ≡ₚ x :: l.
Proof.
  induction l as [|y l IH]; [reflexivity |].
  cbn [JsArray.sort_insert]. destruct (PrimFloat.ltb 0 (cmp x y)); [| reflexivity].
  rewrite IH. apply Permutation_swap.
Qed.

(** [sort] rearranges the array. *)
Lemma sort_perm (cmp : A -> A -> float) (l : list A) : JsArray.sort cmp l ≡ₚ l.
Proof.
  induction l as [|x l IH]; [reflexivity |].
  cbn [JsArray.sort foldr]. fold (JsArray.sort cmp l).
  rewrite sort_insert_perm, IH. reflexivity.
Qed.

End Sorting.

Section SortByStrike.

Lemma by_strike_gt (a b : OptionRow) :
  Spec.has_strike a -> Spec.has_strike b ->
  PrimFloat.ltb 0 (by_strike a b) = PrimFloat.ltb (strike b) (strike a).
Proof. intros Ha Hb. apply sub_positive_iff; assumption. Qed.

Lemma sort_insert_ascending (x : OptionRow) (l : list OptionRow) :
  Spec.has_strike x -> Forall Spec.has_strike l ->
  Spec.ascending l -> Spec.ascending (JsArray.sort_insert by_strike x l).
Proof.
  intros Hx Hl Hs. unfold Spec.ascending in *.
  induction l as [|y l IH]; cbn [JsArray.sort_insert].
  - repeat constructor.
  - apply Forall_cons in Hl as [Hy Hl]. apply Sorted_inv in Hs as [Hs Hhd].
    rewrite (by_strike_gt x y Hx Hy).
    destruct (PrimFloat.ltb (strike y) (strike x)) eqn:Hlt.
    + constructor; [apply IH; assumption |].
      destruct l as [|z l]; cbn [JsArray.sort_insert].
      * constructor. apply leb_of_lt, Hlt.
      * destruct (PrimFloat.ltb 0 (by_strike x z)).
        -- constructor. apply HdRel_inv in Hhd. exact Hhd.
        -- constructor. apply leb_of_lt, Hlt.
    + constructor; [constructor; assumption |].
      constructor. apply leb_of_not_gt; assumption.
Qed.

(** Rows with numeric strikes are sorted in ascending order of strike. *)
Lemma sort_by_strike_ascending (l : list OptionRow) :
  Forall Spec.has_strike l -> Spec.ascending (JsArray.sort by_strike l).
Proof.
  induction l as [|x l IH]; intros Hl.
  - constructor.
  - apply Forall_cons in Hl as [Hx Hl]. cbn [JsArray.sort foldr].
    fold (JsArray.sort by_strike l).
    apply sort_insert_ascending; [exact Hx | | apply IH, Hl].
    eapply Forall_impl; [| intros r Hr; exact Hr].
    rewrite (sort_perm by_strike l). exact Hl.
Qed.

End SortByStrike.

Section Grouping.

Lemma Map_set_keys {V} (k : string) (v : V) (m : list (string * V)) :
  map fst (JsArray.Map_set k v m) = JsArray.Set_add (map fst m) k.
Proof.
  rewrite Set_add_mem. induction m as [|[k' v'] m IH]; [reflexivity |].
  cbn [JsArray.Map_set map fst Spec.mem existsb].
  destruct (String.eqb k k') eqn:Hk; cbn [orb map fst]; [reflexivity |].
  unfold Spec.mem in IH. rewrite IH.
  destruct (existsb (String.eqb k) (map fst m)); reflexivity.
Qed.

Lemma Map_get_set {V} (k k' : string) (v : V) (m : list (string * V)) :
  JsArray.Map_get k' (JsArray.Map_set k v m)
  = if String.eqb k' k then Some v else JsArray.Map_get k' m.
Proof.
  unfold JsArray.Map_get. induction m as [|[k0 v0] m IH].
  - cbn. destruct (String.eqb k' k); reflexivity.
  - cbn [JsArray.Map_set]. destruct (String.eqb_spec k k0) as [-> | Hne].
    + cbn [List.find fst]. destruct (String.eqb k' k0); reflexivity.
    + cbn [List.find fst]. destruct (String.eqb_spec k' k0) as [-> | Hne'].
      * destruct (String.eqb_spec k0 k) as [-> | _]; [contradiction | reflexivity].
      * exact IH.
Qed.

Lemma group_push_keys (m : list (string * list OptionRow)) (r : OptionRow) :
  map fst (group_push m r) = JsArray.Set_add (map fst m) (group_key r).
Proof. apply Map_set_keys. Qed.

Lemma group_push_rows (k : string) (m : list (string * list OptionRow)) (r : OptionRow) :
  default [] (JsArray.Map_get k (group_push m r))
  = default [] (JsArray.Map_get k m) ++ Spec.rows_of k [r].
Proof.
  unfold group_push. rewrite Map_get_set. cbn [Spec.rows_of List.filter].
  rewrite (String.eqb_sym k (group_key r)).
  destruct (String.eqb_spec (group_key r) k) as [-> | Hne].
  - reflexivity.
  - rewrite app_nil_r. reflexivity.
Qed.

Lemma grouped_keys (opts : list OptionRow) :
  forall m : list (string * list OptionRow),
    map fst (foldl group_push m opts) = foldl JsArray.Set_add (map fst m) (map group_key opts).
Proof.
  induction opts as [|r opts IH]; intros m; [reflexivity |].
  cbn [foldl map]. rewrite IH, group_push_keys. reflexivity.
Qed.

Lemma grouped_rows (k : string) (opts : list OptionRow) :
  forall m : list (string * list OptionRow),
    default [] (JsArray.Map_get k (foldl group_push m opts))
    = default [] (JsArray.Map_get k m) ++ Spec.rows_of k opts.
Proof.
  induction opts as [|r opts IH]; intros m.
  - cbn. rewrite app_nil_r. reflexivity.
  - cbn [foldl]. rewrite IH, group_push_rows, <- app_assoc.
    change (r :: opts) with ([r] ++ opts). unfold Spec.rows_of at 3.
    rewrite List.filter_app. reflexivity.
Qed.

Lemma Map_get_entry {V} (k : string) (v : V) (m : list (string * V)) :
  NoDup (map fst m) -> (k, v) ∈ m -> JsArray.Map_get k m = Some v.
Proof.
  unfold JsArray.Map_get. induction m as [|[k0 v0] m IH]; intros Hnd Hin.
  - inversion Hin.
  - cbn [map fst] in Hnd. apply NoDup_cons in Hnd as [Hnotin Hnd].
    cbn [List.find fst]. apply elem_of_cons in Hin as [Heq | Hin].
    + injection Heq as -> ->. rewrite String.eqb_refl. reflexivity.
    + destruct (String.eqb_spec k k0) as [-> | Hne]; [| apply IH; assumption].
      exfalso. apply Hnotin. apply list_elem_of_fmap. exists (k0, v). auto.
Qed.

(** The groups of the fold: the keys are the group keys of the rows in
    order of first occurrence, and each entry holds the rows of its key in
    the order of the list. *)
Lemma grouped_entries (opts : list OptionRow) :
  map fst (foldl group_push [] opts) = Spec.first_occurrences (map group_key opts)
  /\ Forall (fun e => e.2 = Spec.rows_of e.1 opts) (foldl group_push [] opts).
Proof.
  assert (Hkeys : map fst (foldl group_push [] opts)
                  = Spec.first_occurrences (map group_key opts)).
  { rewrite grouped_keys. apply uniq_first_occurrences. }
  split; [exact Hkeys |].
  apply Forall_forall. intros [k rows] Hin. cbn [fst snd].
  pose proof (grouped_rows k opts []) as Hrows.
  rewrite (Map_get_entry k rows (foldl group_push [] opts)) in Hrows.
  - exact Hrows.
  - rewrite Hkeys. apply first_occurrences_NoDup.
  - exact Hin.
Qed.

End Grouping.

Section GroupKeys.

Lemma append_nil_l (t : string) : "" +:+ t = t.
Proof. reflexivity. Qed.

Lemma append_cons (c : ascii) (s t : string) : String c s +:+ t = String c (s +:+ t).
Proof. reflexivity. Qed.

Lemma colon_split (u1 : string) :
  forall u2 e1 e2 : string,
    Spec.no_colon u1 = true -> Spec.no_colon u2 = true ->
    u1 +:+ ":" +:+ e1 = u2 +:+ ":" +:+ e2 ->
    u1 = u2 /\ e1 = e2.
Proof.
  induction u1 as [|c1 u1 IH]; intros [|c2 u2] e1 e2 H1 H2 Heq;
    rewrite ?append_cons, ?append_nil_l, ?append_cons, ?append_nil_l in Heq.
  - injection Heq as ->. auto.
  - injection Heq as <- _. discriminate H2.
  - injection Heq as -> _. discriminate H1.
  - injection Heq as -> Heq.
    cbn [Spec.no_colon JsString.forallb] in H1, H2.
    apply andb_prop in H1 as [_ H1]. apply andb_prop in H2 as [_ H2].
    destruct (IH u2 e1 e2 H1 H2 Heq) as [-> ->]. auto.
Qed.

(** Rows of one pair have one group key; rows of one group key have one
    pair, provided their underlyings hold no colon. *)
Lemma group_key_pair (r1 r2 : OptionRow) :
  (underlying r1 = underlying r2 -> expiration r1 = expiration r2 ->
   group_key r1 = group_key r2)
  /\ (Spec.no_colon (underlying r1) = true -> Spec.no_colon (underlying r2) = true ->
      group_key r1 = group_key r2 ->
      underlying r1 = underlying r2 /\ expiration r1 = expiration r2).
Proof.
  unfold group_key. split.
  - intros -> ->. reflexivity.
  - apply colon_split.
Qed.

End GroupKeys.

Lemma rows_of_has_strike (k : string) (opts : list OptionRow) :
  Forall Spec.has_strike opts -> Forall Spec.has_strike (Spec.rows_of k opts).
Proof.
  rewrite !Forall_forall. intros H r Hr. apply H.
  apply list_elem_of_In. apply list_elem_of_In in Hr.
  unfold Spec.rows_of in Hr. apply filter_In in Hr as [Hr _]. exact Hr.
Qed.

(** C10 (as amended). [optGrouped] partitions the option rows by the
    composite string [underlying:expiration]: the groups are keyed by it and
    appear in order of first occurrence of their key (not sorted); each group
    holds exactly the rows of its key, in ascending order of strike. Rows of
    one (underlying, expiration) pair always share a group; rows of different
    pairs are in different groups when no underlying holds a colon. *)
Theorem optGrouped_by_key_sorted (opts : list OptionRow) :
  Forall Spec.has_strike opts ->
  map key (optGrouped opts) = Spec.first_occurrences (map group_key opts)
  /\ NoDup (map key (optGrouped opts))
  /\ Forall (fun g => rows g = JsArray.sort by_strike (Spec.rows_of (key g) opts))
       (optGrouped opts)
  /\ Forall (fun g => rows g ≡ₚ Spec.rows_of (key g) opts) (optGrouped opts)
  /\ Forall (fun g => Spec.ascending (rows g)) (optGrouped opts)
  /\ (forall r, r ∈ opts -> group_key r ∈ map key (optGrouped opts))
  /\ (forall r, group_key r = underlying r +:+ ":" +:+ expiration r)
  /\ (forall r1 r2, underlying r1 = underlying r2 -> expiration r1 = expiration r2 ->
                    group_key r1 = group_key r2)
  /\ (forall r1 r2, Spec.no_colon (underlying r1) = true ->
                    Spec.no_colon (underlying r2) = true ->
                    group_key r1 = group_key r2 ->
                    underlying r1 = underlying r2 /\ expiration r1 = expiration r2)
  /\ map (fun g => (key g, map strike (rows g)))
       (optGrouped [TestRows.aapl_jan_150; TestRows.aapl_jan_140; TestRows.aapl_feb_145])
     = [("AAPL:2025-01-17", [140%float; 150%float]); ("AAPL:2025-02-21", [145%float])].
Proof.
  intros Hstrikes.
  destruct (grouped_entries opts) as [Hkeys Hrows].
  assert (Hk : map key (optGrouped opts) = Spec.first_occurrences (map group_key opts)).
  { unfold optGrouped. rewrite map_map. cbn [key]. exact Hkeys. }
  assert (Hsorted : Forall (fun g => rows g = JsArray.sort by_strike
                                                (Spec.rows_of (key g) opts))
                      (optGrouped opts)).
  { unfold optGrouped. apply Forall_map. cbn [key rows].
    eapply Forall_impl; [exact Hrows |]. intros e He. cbn beta in He.
    rewrite He at 1. reflexivity. }
  split; [exact Hk |].
  split; [rewrite Hk; apply first_occurrences_NoDup |].
  split; [exact Hsorted |].
  split.
  { eapply Forall_impl; [exact Hsorted |]. intros g Hg. cbn beta in Hg.
    rewrite Hg. apply sort_perm. }
  split.
  { eapply Forall_impl; [exact Hsorted |]. intros g Hg. cbn beta in Hg.
    rewrite Hg. apply sort_by_strike_ascending, rows_of_has_strike, Hstrikes. }
  split.
  { intros r Hr. rewrite Hk. apply first_occurrences_elem.
    apply list_elem_of_fmap. exists r. auto. }
  split; [reflexivity |].
  split; [intros r1 r2; apply (group_key_pair r1 r2) |].
  split; [intros r1 r2; apply (group_key_pair r1 r2) | reflexivity].
Qed.

Lemma optGrouped_by_key_sorted_witness :
  let opts := [TestRows.aapl_jan_150; TestRows.aapl_jan_140; TestRows.aapl_feb_145] in
  Forall Spec.has_strike opts
  /\ map key (optGrouped opts) = ["AAPL:2025-01-17"; "AAPL:2025-02-21"]
  /\ Forall (fun g => Spec.ascending (rows g)) (optGrouped opts).
Proof.
  intros opts.
  assert (H : Forall Spec.has_strike opts) by (repeat constructor).
  destruct (optGrouped_by_key_sorted opts H) as (Hk & _ & _ & _ & Hasc & _).
  split; [exact H |]. split; [exact Hk | exact Hasc].
Defined.

(** C10 (counterexample). Two rows of different (underlying, expiration)
    pairs, [(A:B, C)] and [(A, B:C)], land in one group: both have the
    composite key [A:B:C]. *)
Lemma optGrouped_merges_colliding_pairs :
  map (fun g => (key g, map (fun r => (underlying r, expiration r)) (rows g)))
    (optGrouped [TestRows.colon_in_underlying; TestRows.colon_in_expiration])
  = [("A:B:C", [("A:B", "C"); ("A", "B:C")])]
  /\ String.eqb (underlying TestRows.colon_in_underlying)
       (underlying TestRows.colon_in_expiration) = false
  /\ String.eqb (expiration TestRows.colon_in_underlying)
       (expiration TestRows.colon_in_expiration) = false.
Proof. repeat split. Qed.

(* ===================================================================== *)
(** * Teardown of the effect, and the bounds of the backoff *)
(* ===================================================================== *)

Section Teardown.

Lemma conn_run_app (c : Conn) (evs1 evs2 : list ConnEvent) :
  conn_run c (evs1 ++ evs2) = conn_run (conn_run c evs1) evs2.
Proof. unfold conn_run. apply foldl_app. Qed.

Lemma conn_step_stopped (c : Conn) (ev : ConnEvent) :
  stopped c = true ->
  stopped (conn_step c ev) = true /\ timers (conn_step c ev) = timers c.
Proof.
  intros Hs. destruct ev; cbn [conn_step]; unfold onclose, connect; rewrite ?Hs; cbn; auto.
Qed.

(** A stopped effect stays stopped and schedules nothing. *)
Lemma conn_run_stopped (evs : list ConnEvent) :
  forall c : Conn,
    stopped c = true ->
    stopped (conn_run c evs) = true /\ timers (conn_run c evs) = timers c.
Proof.
  induction evs as [|ev evs IH]; intros c Hs; [auto |].
  rewrite conn_run_cons.
  destruct (conn_step_stopped c ev Hs) as [Hs' Ht'].
  destruct (IH (conn_step c ev) Hs') as [H1 H2].
  rewrite H1, H2, Ht'. auto.
Qed.

Lemma backoff_bounds (k : nat) : (1000 <= backoff k <= 10000)%Z.
Proof.
  unfold backoff.
  assert (0 < 2 ^ Z.of_nat k)%Z by (apply Z.pow_pos_nonneg; lia).
  lia.
Qed.

Lemma conn_step_timers (c : Conn) (ev : ConnEvent) :
  timers (conn_step c ev) = timers c
  \/ (ev = SocketClose /\ timers (conn_step c ev) = timers c ++ [backoff (retry c)]).
Proof.
  destruct ev; cbn [conn_step]; try (left; reflexivity).
  - unfold onclose. destruct (stopped c); [left; reflexivity | right; auto].
  - unfold connect. destruct (stopped c); left; reflexivity.
Qed.

Lemma conn_run_timers (evs : list ConnEvent) :
  forall c : Conn,
  exists added,
    timers (conn_run c evs) = timers c ++ added
    /\ Forall (fun d => 1000 <= d <= 10000)%Z added
    /\ length added <= length (List.filter Spec.is_close evs).
Proof.
  induction evs as [|ev evs IH]; intros c.
  - exists []. cbn. rewrite app_nil_r. auto.
  - rewrite conn_run_cons.
    destruct (IH (conn_step c ev)) as (added & Ht & Hb & Hl).
    destruct (conn_step_timers c ev) as [Heq | (-> & Heq)].
    + exists added. rewrite Ht, Heq. split; [reflexivity |]. split; [exact Hb |].
      cbn [List.filter]. destruct (Spec.is_close ev); cbn [length]; lia.
    + exists (backoff (retry c) :: added). rewrite Ht, Heq, <- app_assoc.
      split; [reflexivity |]. split.
      * constructor; [apply backoff_bounds | exact Hb].
      * cbn. lia.
Qed.

End Teardown.

(** X1. Once the component unmounts, nothing reconnects: whatever the socket
    and the pending timers do afterwards, no further reconnect is scheduled,
    the effect stays stopped, and a timer that fires changes nothing. *)
Theorem unmount_stops_reconnecting (c : Conn) (before after : list ConnEvent) :
  let c' := conn_run c (before ++ Unmount :: after) in
  stopped c' = true
  /\ timers c' = timers (conn_run c before)
  /\ conn_step c' TimerFired = c'
  /\ Spec.scheduled (conn_run c (before ++ [Unmount])) after = [].
Proof.
  intros c'.
  assert (Hc : c' = conn_run (cleanup (conn_run c before)) after).
  { unfold c'. rewrite conn_run_app, conn_run_cons. reflexivity. }
  destruct (conn_run_stopped after (cleanup (conn_run c before)) eq_refl) as [Hs Ht].
  rewrite Hc. split; [exact Hs |]. split; [exact Ht |]. split.
  - cbn [conn_step]. unfold connect. rewrite Hs. reflexivity.
  - unfold Spec.scheduled. rewrite conn_run_app.
    change (conn_run (conn_run c before) [Unmount]) with (cleanup (conn_run c before)).
    rewrite Ht. apply drop_all.
Qed.

(** X2. Every reconnect delay the effect schedules is between one and ten
    seconds, whatever the state of the retry counter and whatever happens, and
    at most one reconnect is scheduled per close of a socket. *)
Theorem reconnect_delays_bounded (c : Conn) (evs : list ConnEvent) :
  Forall (fun d => 1000 <= d <= 10000)%Z (Spec.scheduled c evs)
  /\ length (Spec.scheduled c evs) <= length (List.filter Spec.is_close evs).
Proof.
  destruct (conn_run_timers evs c) as (added & Ht & Hb & Hl).
  unfold Spec.scheduled. rewrite Ht, drop_app_length.
  split; [exact Hb | exact Hl].
Qed.

(* ===================================================================== *)
(** * What the frames of a connection may write *)
(* ===================================================================== *)

Section Handler.

Variable number_digits : float -> string.
Variable JSON_parse : string -> parse_result.
Variable null_read_message : string -> string.

(** What a message with a topic string may write. *)
Lemma dispatch_frame (st st' : State) (msg : jsval) (topic : string) :
  Js.get msg "topic" = Some (JStr topic) ->
  dispatch number_digits null_read_message st msg = Handled st' ->
  err st' = err st
  /\ (topic <> "equity_ts" -> equity st' = equity st)
  /\ (topic <> "equity_ts" -> topic <> "basis" -> basis st' = basis st)
  /\ (topic <> "options_ts" -> options st' = options st)
  /\ (topic <> "sweeps" -> sweeps st' = sweeps st)
  /\ (topic <> "blocks" -> blocks st' = blocks st)
  /\ (topic <> "watchlist" -> wl st' = wl st).
Proof.
  intros Htopic. unfold dispatch. rewrite Htopic.
  destruct (String.eqb_spec topic "equity_ts") as [-> | H1].
  { match goal with
    | |- context [match ?arr with [] => _ | _ :: _ => _ end] => destruct arr as [|t r]
    end.
    - intros [= <-]. cbn. repeat split; congruence.
    - cbn [equity set_basis].
      destruct (merge_ticks number_digits (equity st) (t :: r)); [| discriminate].
      intros [= <-]. cbn. repeat split; congruence. }
  destruct (String.eqb_spec topic "basis") as [-> | H2].
  { intros [= <-]. cbn. repeat split; congruence. }
  destruct (String.eqb_spec topic "options_ts") as [-> | H3].
  { intros [= <-]. cbn. repeat split; congruence. }
  destruct (String.eqb_spec topic "sweeps") as [-> | H4].
  { destruct (append_events (sweeps st) (Js.opt_get msg "data")); [| discriminate].
    intros [= <-]. cbn. repeat split; congruence. }
  destruct (String.eqb_spec topic "blocks") as [-> | H5].
  { destruct (append_events (blocks st) (Js.opt_get msg "data")); [| discriminate].
    intros [= <-]. cbn. repeat split; congruence. }
  destruct (String.eqb_spec topic "watchlist") as [-> | H6].
  { intros [= <-]. cbn. repeat split; congruence. }
  intros [= <-]. repeat split; reflexivity.
Qed.

(** A frame without a topic string changes the last error at most. *)
Lemma onmessage_no_topic (st st' : State) (frame : string) :
  Notions.topic_of JSON_parse frame = None ->
  onmessage number_digits JSON_parse null_read_message st frame = Handled st' ->
  Spec.same_data st' st.
Proof.
  unfold Notions.topic_of, onmessage.
  destruct (JSON_parse frame) as [msg | message].
  - unfold dispatch.
    destruct (Js.get msg "topic") as [[| | | | t | |]|]; try discriminate;
      intros _ [= <-]; first [apply same_data_set_err | apply same_data_refl].
  - intros _ [= <-]. apply same_data_set_err.
Qed.

(** The message of a frame that carries a topic. *)
Lemma topic_of_message (frame t : string) :
  Notions.topic_of JSON_parse frame = Some t ->
  exists msg, JSON_parse frame = Parsed msg /\ Js.get msg "topic" = Some (JStr t).
Proof.
  unfold Notions.topic_of. intros H.
  destruct (JSON_parse frame) as [msg | message]; [| discriminate H].
  destruct (Js.get msg "topic") as [[| | | | t' | |]|] eqn:Hget; try discriminate H.
  injection H as ->. exists msg. split; [reflexivity | exact Hget].
Qed.

(** One frame leaves a part of the state as it is unless it carries one of
    the topics that write the part. *)
Lemma onmessage_field {A} (proj : State -> A) (writers : list string)
    (st st' : State) (frame : string) :
  (forall a b, Spec.same_data a b -> proj a = proj b) ->
  (forall a b msg t,
      Js.get msg "topic" = Some (JStr t) ->
      dispatch number_digits null_read_message a msg = Handled b ->
      t ∉ writers -> proj b = proj a) ->
  (forall t, Notions.topic_of JSON_parse frame = Some t -> t ∉ writers) ->
  onmessage number_digits JSON_parse null_read_message st frame = Handled st' ->
  proj st' = proj st.
Proof.
  intros Hdata Hdisp Hnot Hrun.
  destruct (Notions.topic_of JSON_parse frame) as [t|] eqn:Ht.
  - destruct (topic_of_message frame t Ht) as (msg & Hp & Hget).
    unfold onmessage in Hrun. rewrite Hp in Hrun.
    apply (Hdisp st st' msg t Hget Hrun). apply Hnot. reflexivity.
  - apply Hdata, (onmessage_no_topic st st' frame Ht Hrun).
Qed.

Lemma onmessages_field {A} (proj : State -> A) (writers : list string)
    (frames : list string) :
  (forall a b, Spec.same_data a b -> proj a = proj b) ->
  (forall a b msg t,
      Js.get msg "topic" = Some (JStr t) ->
      dispatch number_digits null_read_message a msg = Handled b ->
      t ∉ writers -> proj b = proj a) ->
  Forall (fun f => forall t, Notions.topic_of JSON_parse f = Some t -> t ∉ writers) frames ->
  forall st st',
    onmessages number_digits JSON_parse null_read_message st frames = Handled st' ->
    proj st' = proj st.
Proof.
  intros Hdata Hdisp. induction 1 as [|f frames Hf _ IH]; intros st st' Hrun.
  - injection Hrun as <-. reflexivity.
  - cbn [onmessages] in Hrun.
    destruct (onmessage number_digits JSON_parse null_read_message st f) as [st1 |] eqn:Hstep;
      [| discriminate Hrun].
    rewrite (IH st1 st' Hrun).
    apply (onmessage_field proj writers st st1 f Hdata Hdisp Hf Hstep).
Qed.

Lemma without_topic_writers (t : string) (frames : list string) :
  Notions.without_topic JSON_parse t frames ->
  Forall (fun f => forall t', Notions.topic_of JSON_parse f = Some t' -> t' ∉ [t]) frames.
Proof.
  intros Hw. eapply Forall_impl; [exact Hw |]. intros f Hf t' Ht' Hin. cbn beta in Hf.
  apply list_elem_of_singleton in Hin as ->. exact (Hf Ht').
Qed.

(** ** The last error *)




(** ** The equity map *)

Lemma lookup_assign (k : string) (v : jsval) (props : list (string * jsval)) :
  Js.lookup k (Js.assign k v props) = Some v.
Proof.
  induction props as [|[k' v'] r IH]; cbn [Js.assign Js.lookup].
  - rewrite String.eqb_refl. reflexivity.
  - destruct (String.eqb_spec k k') as [<- | Hne]; cbn [Js.lookup].
    + rewrite String.eqb_refl. reflexivity.
    + destruct (String.eqb_spec k k'); [contradiction | exact IH].
Qed.

(** A merged tick is stored as an object whose [symbol] names the key. *)
Lemma merge_tick_entry (next next' : gmap string jsval) (t : jsval) :
  merge_tick number_digits next t = Some next' ->
  exists sym props,
    next' = <[js_String number_digits sym := JObj props]> next
    /\ Js.lookup "symbol" props = Some sym.
Proof.
  unfold merge_tick. destruct (Js.get t "symbol") as [raw|]; [| discriminate].
  destruct (normalizeSymbol raw) as [sym|]; [| discriminate].
  intros [= <-]. exists sym, (Js.assign "symbol" sym (spread_props t)).
  split; [reflexivity | apply lookup_assign].
Qed.

Lemma merge_ticks_entries (arr : list jsval) :
  forall next next',
    merge_ticks number_digits next arr = Some next' ->
    (forall k, is_Some (next !! k) -> is_Some (next' !! k))
    /\ (Notions.keyed_by_symbol number_digits next ->
        Notions.keyed_by_symbol number_digits next').
Proof.
  induction arr as [|t arr IH]; intros next next' Hm.
  - injection Hm as <-. auto.
  - cbn [merge_ticks] in Hm.
    destruct (merge_tick number_digits next t) as [next1|] eqn:Ht; [| discriminate Hm].
    destruct (merge_tick_entry next next1 t Ht) as (sym & props & -> & Hsym).
    destruct (IH _ _ Hm) as [Hdom Hinv]. split.
    + intros k Hk. apply Hdom.
      destruct (decide (js_String number_digits sym = k)) as [<- | Hne].
      * rewrite lookup_insert_eq. eauto.
      * rewrite lookup_insert_ne by exact Hne. exact Hk.
    + intros Hnext. apply Hinv. intros k v.
      destruct (decide (js_String number_digits sym = k)) as [<- | Hne].
      * rewrite lookup_insert_eq. intros [= <-]. exists props, sym. auto.
      * rewrite lookup_insert_ne by exact Hne. apply Hnext.
Qed.

Lemma onmessage_equity (st st' : State) (frame : string) :
  onmessage number_digits JSON_parse null_read_message st frame = Handled st' ->
  (forall k, is_Some (equity st !! k) -> is_Some (equity st' !! k))
  /\ (Notions.keyed_by_symbol number_digits (equity st) ->
      Notions.keyed_by_symbol number_digits (equity st')).
Proof.
  intros Hrun.
  destruct (Notions.topic_of JSON_parse frame) as [t|] eqn:Ht.
  - destruct (topic_of_message frame t Ht) as (msg & Hp & Hget).
    unfold onmessage in Hrun. rewrite Hp in Hrun.
    destruct (String.eqb_spec t "equity_ts") as [-> | Hne].
    + unfold dispatch in Hrun. rewrite Hget in Hrun.
      cbn [String.eqb Ascii.eqb Bool.eqb] in Hrun.
      match type of Hrun with
      | context [match ?arr with [] => _ | _ :: _ => _ end] => destruct arr as [|x r]
      end.
      * injection Hrun as <-. cbn. auto.
      * cbn [equity set_basis] in Hrun.
        destruct (merge_ticks number_digits (equity st) (x :: r)) as [next|] eqn:Hm;
          [| discriminate Hrun].
        injection Hrun as <-. cbn [equity set_equity].
        apply (merge_ticks_entries (x :: r) _ _ Hm).
    + destruct (dispatch_frame st st' msg t Hget Hrun) as (_ & He & _).
      rewrite (He Hne). auto.
  - destruct (onmessage_no_topic st st' frame Ht Hrun) as (He & _).
    rewrite He. auto.
Qed.

Lemma onmessages_equity (frames : list string) :
  forall st st',
    onmessages number_digits JSON_parse null_read_message st frames = Handled st' ->
    (forall k, is_Some (equity st !! k) -> is_Some (equity st' !! k))
    /\ (Notions.keyed_by_symbol number_digits (equity st) ->
        Notions.keyed_by_symbol number_digits (equity st')).
Proof.
  induction frames as [|f frames IH]; intros st st' Hrun.
  - injection Hrun as <-. auto.
  - cbn [onmessages] in Hrun.
    destruct (onmessage number_digits JSON_parse null_read_message st f) as [st1 |] eqn:Hstep;
      [| discriminate Hrun].
    destruct (onmessage_equity st st1 f Hstep) as [H1 H2].
    destruct (IH st1 st' Hrun) as [H3 H4]. split; auto.
Qed.

(** ** The flow buffers *)

Lemma append_events_length (prev next : list jsval) (data : jsval) :
  append_events prev data = Some next ->
  exists batch, iterate data = Some batch /\ length next <= 400 + length batch.
Proof.
  unfold append_events. destruct (iterate data) as [batch|]; [| discriminate].
  intros [= <-]. exists batch. split; [reflexivity |].
  rewrite (slice_from_neg 400) by lia.
  rewrite length_app, most_recent_length. lia.
Qed.

Lemma onmessage_buffers (st st' : State) (frame : string) :
  onmessage number_digits JSON_parse null_read_message st frame = Handled st' ->
  length (sweeps st')
  <= Nat.max (length (sweeps st)) (400 + Notions.batch_size JSON_parse frame)
  /\ length (blocks st')
     <= Nat.max (length (blocks st)) (400 + Notions.batch_size JSON_parse frame).
Proof.
  intros Hrun.
  destruct (Notions.topic_of JSON_parse frame) as [t|] eqn:Ht.
  - destruct (topic_of_message frame t Ht) as (msg & Hp & Hget).
    unfold onmessage in Hrun. unfold Notions.batch_size. rewrite Hp in *.
    destruct (dispatch_frame st st' msg t Hget Hrun) as (_ & _ & _ & _ & Hs & Hb & _).
    unfold dispatch in Hrun. rewrite Hget in Hrun.
    destruct (String.eqb_spec t "sweeps") as [Hts | Hns];
      [subst t | destruct (String.eqb_spec t "blocks") as [Htb | Hnb]; [subst t |]].
    + cbn [String.eqb Ascii.eqb Bool.eqb] in Hrun.
      destruct (append_events (sweeps st) (Js.opt_get msg "data")) as [next|] eqn:Ha;
        [| discriminate Hrun].
      injection Hrun as <-. cbn [sweeps blocks set_sweeps].
      destruct (append_events_length _ _ _ Ha) as (batch & -> & Hl). lia.
    + cbn [String.eqb Ascii.eqb Bool.eqb] in Hrun.
      destruct (append_events (blocks st) (Js.opt_get msg "data")) as [next|] eqn:Ha;
        [| discriminate Hrun].
      injection Hrun as <-. cbn [sweeps blocks set_blocks].
      destruct (append_events_length _ _ _ Ha) as (batch & -> & Hl). lia.
    + rewrite (Hs Hns), (Hb Hnb). lia.
  - destruct (onmessage_no_topic st st' frame Ht Hrun) as (_ & _ & Hs & Hb & _).
    rewrite Hs, Hb. lia.
Qed.

(** ** Updaters that throw *)

Lemma merge_tick_throws (next : gmap string jsval) (t : jsval) :
  merge_tick number_digits next t = None <-> Notions.unmergeable t = true.
Proof.
  unfold merge_tick, Notions.unmergeable.
  destruct (Js.get t "symbol") as [[| | | | | |]|]; cbn [normalizeSymbol];
    split; congruence.
Qed.

Lemma merge_ticks_throws (arr : list jsval) :
  forall next, merge_ticks number_digits next arr = None
               <-> existsb Notions.unmergeable arr = true.
Proof.
  induction arr as [|t arr IH]; intros next; cbn [merge_ticks existsb].
  - split; discriminate.
  - destruct (merge_tick number_digits next t) as [next1|] eqn:Ht.
    + assert (Hu : Notions.unmergeable t = false).
      { destruct (Notions.unmergeable t) eqn:E; [| reflexivity].
        apply (merge_tick_throws next) in E. congruence. }
      rewrite Hu. cbn [orb]. apply IH.
    + apply merge_tick_throws in Ht. rewrite Ht. cbn [orb]. split; reflexivity.
Qed.

(** ** The watchlist *)

Lemma parseSymbolsList_clean (v : jsval) :
  NoDup (parseSymbolsList number_digits v)
  /\ Forall (fun s => TICKER_OK s = true) (parseSymbolsList number_digits v).
Proof.
  unfold parseSymbolsList. rewrite uniq_first_occurrences. split.
  - apply first_occurrences_NoDup.
  - apply Forall_forall. intros s Hs.
    apply first_occurrences_elem, list_elem_of_In, filter_In in Hs. apply Hs.
Qed.

End Handler.

(** X3. Each part of the state has one topic that writes it (the basis has
    two, [equity_ts] and [basis]): over any run of frames none of which
    carries that topic, the part is unchanged, whatever else the frames
    carry, decodable or not. *)
Theorem state_is_written_by_its_topic_only
    (number_digits : float -> string) (JSON_parse : string -> parse_result)
    (null_read_message : string -> string)
    (frames : list string) (st st' : State) :
  onmessages number_digits JSON_parse null_read_message st frames = Handled st' ->
  (Notions.without_topic JSON_parse "equity_ts" frames -> equity st' = equity st)
  /\ (Notions.without_topic JSON_parse "options_ts" frames -> options st' = options st)
  /\ (Notions.without_topic JSON_parse "sweeps" frames -> sweeps st' = sweeps st)
  /\ (Notions.without_topic JSON_parse "blocks" frames -> blocks st' = blocks st)
  /\ (Notions.without_topic JSON_parse "watchlist" frames -> wl st' = wl st)
  /\ (Notions.without_topic JSON_parse "equity_ts" frames ->
      Notions.without_topic JSON_parse "basis" frames -> basis st' = basis st).
Proof.
  intros Hrun.
  assert (Hone : forall {A} (proj : State -> A) (t : string),
             (forall a b, Spec.same_data a b -> proj a = proj b) ->
             (forall a b msg t',
                 Js.get msg "topic" = Some (JStr t') ->
                 dispatch number_digits null_read_message a msg = Handled b ->
                 t' <> t -> proj b = proj a) ->
             Notions.without_topic JSON_parse t frames -> proj st' = proj st).
  { intros A proj t Hdata Hdisp Hw.
    apply (onmessages_field number_digits JSON_parse null_read_message proj [t] frames
             Hdata); [| apply without_topic_writers, Hw | exact Hrun].
    intros a b msg t' Hget Hd Hnot. apply (Hdisp a b msg t' Hget Hd).
    intros ->. apply Hnot. apply list_elem_of_singleton. reflexivity. }
  repeat split.
  - apply (Hone _ equity); [intros a b H; apply H |].
    intros a b msg t Hget Hd Hne.
    apply (dispatch_frame number_digits null_read_message a b msg t Hget Hd), Hne.
  - apply (Hone _ options); [intros a b H; apply H |].
    intros a b msg t Hget Hd Hne.
    apply (dispatch_frame number_digits null_read_message a b msg t Hget Hd), Hne.
  - apply (Hone _ sweeps); [intros a b H; apply H |].
    intros a b msg t Hget Hd Hne.
    apply (dispatch_frame number_digits null_read_message a b msg t Hget Hd), Hne.
  - apply (Hone _ blocks); [intros a b H; apply H |].
    intros a b msg t Hget Hd Hne.
    apply (dispatch_frame number_digits null_read_message a b msg t Hget Hd), Hne.
  - apply (Hone _ wl); [intros a b H; apply H |].
    intros a b msg t Hget Hd Hne.
    apply (dispatch_frame number_digits null_read_message a b msg t Hget Hd), Hne.
  - intros H1 H2.
    apply (onmessages_field number_digits JSON_parse null_read_message basis
             ["equity_ts"; "basis"] frames); [intros a b H; apply H | | | exact Hrun].
    + intros a b msg t Hget Hd Hnot.
      apply (dispatch_frame number_digits null_read_message a b msg t Hget Hd).
      * intros ->. apply Hnot. set_solver.
      * intros ->. apply Hnot. set_solver.
    + unfold Notions.without_topic in H1, H2. rewrite Forall_forall in H1, H2.
      apply Forall_forall. intros f Hf t Ht Hin.
      apply elem_of_cons in Hin as [-> | Hin]; [exact (H1 f Hf Ht) |].
      apply list_elem_of_singleton in Hin as ->. exact (H2 f Hf Ht).
Qed.

Lemma state_is_written_by_its_topic_only_witness :
  let frames := [TestFeed.frame_sweeps; TestEngine.frame_truncated;
                 TestEngine.frame_heartbeat] in
  exists st',
    onmessages TestEngine.number_digits TestFeed.JSON_parse TestEngine.null_read_message
      State_init frames = Handled st'
    /\ Notions.without_topic TestFeed.JSON_parse "blocks" frames
    /\ length (sweeps st') = 2
    /\ blocks st' = blocks State_init.
Proof.
  intros frames.
  assert (Hw : Notions.without_topic TestFeed.JSON_parse "blocks" frames)
    by (repeat constructor; discriminate).
  eexists. split; [reflexivity |]. split; [exact Hw |]. split; [reflexivity |].
  exact (proj1 (proj2 (proj2 (proj2
           (state_is_written_by_its_topic_only TestEngine.number_digits
              TestFeed.JSON_parse TestEngine.null_read_message frames State_init _
              eq_refl)))) Hw).
Defined.



(** X5. The equity map only grows: a symbol that has an entry keeps one
    whatever frames arrive (no frame removes a key). *)
Theorem equity_symbols_are_never_dropped
    (number_digits : float -> string) (JSON_parse : string -> parse_result)
    (null_read_message : string -> string)
    (frames : list string) (st st' : State) (k : string) :
  onmessages number_digits JSON_parse null_read_message st frames = Handled st' ->
  is_Some (equity st !! k) ->
  is_Some (equity st' !! k).
Proof.
  intros Hrun.
  apply (onmessages_equity number_digits JSON_parse null_read_message frames st st' Hrun).
Qed.

Lemma equity_symbols_are_never_dropped_witness :
  let st := set_equity {["SPY" := TestEngine.tick "SPY" 450]} State_init in
  let frames := [TestEngine.frame_es_1; TestEngine.frame_truncated] in
  exists st',
    onmessages TestEngine.number_digits TestFeed.JSON_parse TestEngine.null_read_message
      st frames = Handled st'
    /\ is_Some (equity st !! "SPY")
    /\ is_Some (equity st' !! "SPY").
Proof.
  intros st frames.
  assert (Hk : is_Some (equity st !! "SPY")) by (eexists; reflexivity).
  eexists. split; [reflexivity |]. split; [exact Hk |].
  exact (equity_symbols_are_never_dropped TestEngine.number_digits TestFeed.JSON_parse
           TestEngine.null_read_message frames st _ "SPY" eq_refl Hk).
Defined.

(** X6. Every entry of the equity map is an object whose [symbol] property
    names the key it is stored under; the handler keeps this over any frames,
    with ticks of any shape. *)
Theorem equity_entries_name_their_key
    (number_digits : float -> string) (JSON_parse : string -> parse_result)
    (null_read_message : string -> string)
    (frames : list string) (st st' : State) :
  onmessages number_digits JSON_parse null_read_message st frames = Handled st' ->
  Notions.keyed_by_symbol number_digits (equity st) ->
  Notions.keyed_by_symbol number_digits (equity st').
Proof.
  intros Hrun.
  apply (onmessages_equity number_digits JSON_parse null_read_message frames st st' Hrun).
Qed.

Lemma equity_entries_name_their_key_witness :
  let frames := [TestEngine.frame_es_1; TestEngine.frame_es_2] in
  exists st',
    onmessages TestEngine.number_digits TestFeed.JSON_parse TestEngine.null_read_message
      State_init frames = Handled st'
    /\ Notions.keyed_by_symbol TestEngine.number_digits (equity State_init)
    /\ Notions.keyed_by_symbol TestEngine.number_digits (equity st').
Proof.
  intros frames.
  assert (H0 : Notions.keyed_by_symbol TestEngine.number_digits (equity State_init)).
  { intros k v H. cbn [equity State_init] in H. rewrite lookup_empty in H. discriminate H. }
  eexists. split; [reflexivity |]. split; [exact H0 |].
  exact (equity_entries_name_their_key TestEngine.number_digits TestFeed.JSON_parse
           TestEngine.null_read_message frames State_init _ eq_refl H0).
Defined.

(** X7. The sweeps and blocks buffers stay bounded: when no frame carries more
    than [N] events, a buffer of at most [400 + N] entries never exceeds
    [400 + N] entries, over any run of frames. *)
Theorem flow_buffers_stay_bounded
    (number_digits : float -> string) (JSON_parse : string -> parse_result)
    (null_read_message : string -> string)
    (N : nat) (frames : list string) :
  Forall (fun f => Notions.batch_size JSON_parse f <= N) frames ->
  forall st st',
    onmessages number_digits JSON_parse null_read_message st frames = Handled st' ->
    (length (sweeps st) <= 400 + N -> length (sweeps st') <= 400 + N)
    /\ (length (blocks st) <= 400 + N -> length (blocks st') <= 400 + N).
Proof.
  induction 1 as [|f frames Hf _ IH]; intros st st' Hrun.
  - injection Hrun as <-. auto.
  - cbn [onmessages] in Hrun.
    destruct (onmessage number_digits JSON_parse null_read_message st f) as [st1 |] eqn:Hstep;
      [| discriminate Hrun].
    destruct (onmessage_buffers number_digits JSON_parse null_read_message st st1 f Hstep)
      as [Hs Hb].
    destruct (IH st1 st' Hrun) as [Hs' Hb'].
    split; intros Hlen; [apply Hs' | apply Hb']; lia.
Qed.

Lemma flow_buffers_stay_bounded_witness :
  let st := set_sweeps (repeat (JStr "print") 401) State_init in
  let frames := [TestFeed.frame_sweeps; TestEngine.frame_heartbeat; TestFeed.frame_sweeps] in
  exists st',
    Forall (fun f => Notions.batch_size TestFeed.JSON_parse f <= 2) frames
    /\ onmessages TestEngine.number_digits TestFeed.JSON_parse TestEngine.null_read_message
         st frames = Handled st'
    /\ length (sweeps st) <= 400 + 2
    /\ length (sweeps st') <= 400 + 2.
Proof.
  intros st frames.
  assert (Hb : Forall (fun f => Notions.batch_size TestFeed.JSON_parse f <= 2) frames)
    by (repeat constructor; vm_compute; lia).
  assert (Hl : length (sweeps st) <= 400 + 2) by (vm_compute; lia).
  eexists. split; [exact Hb |]. split; [reflexivity |]. split; [exact Hl |].
  exact (proj1 (flow_buffers_stay_bounded TestEngine.number_digits TestFeed.JSON_parse
                  TestEngine.null_read_message 2 frames Hb st _ eq_refl) Hl).
Defined.

(** X8. The updates the handler's [try] block does not guard: the update
    throws exactly on an [equity_ts] message with a tick that is [null] or
    whose symbol is neither absent nor a string, and on a [sweeps] or [blocks]
    message whose data cannot be spread (neither an array nor a string). No
    other message makes an update throw. *)
Theorem updater_throws_exactly_on
    (number_digits : float -> string) (null_read_message : string -> string)
    (st : State) (msg : jsval) :
  dispatch number_digits null_read_message st msg = UpdaterThrew
  <-> (Js.get msg "topic" = Some (JStr "equity_ts")
       /\ existsb Notions.unmergeable (Notions.ticks_of (Js.opt_get msg "data")) = true)
      \/ ((Js.get msg "topic" = Some (JStr "sweeps")
           \/ Js.get msg "topic" = Some (JStr "blocks"))
          /\ iterate (Js.opt_get msg "data") = None).
Proof.
  unfold dispatch.
  destruct (Js.get msg "topic") as [[| | | | t | |]|] eqn:Hget;
    try (split; [discriminate | intros [[H _] | [[H | H] _]]; discriminate H]).
  destruct (String.eqb_spec t "equity_ts") as [-> | H1].
  { fold (Notions.ticks_of (Js.opt_get msg "data")).
    destruct (Notions.ticks_of (Js.opt_get msg "data")) as [|x r] eqn:Hticks.
    - split; [discriminate | intros [[_ H] | [[H | H] _]]; discriminate H].
    - cbn [equity set_basis].
      destruct (merge_ticks number_digits (equity st) (x :: r)) as [next|] eqn:Hm.
      + split; [discriminate |]. intros [[_ H] | [[H | H] _]]; try discriminate H.
        apply (merge_ticks_throws number_digits (x :: r) (equity st)) in H. congruence.
      + split; [| reflexivity]. intros _. left. split; [reflexivity |].
        apply (merge_ticks_throws number_digits (x :: r) (equity st)), Hm. }
  destruct (String.eqb_spec t "basis") as [-> | H2].
  { split; [discriminate | intros [[H _] | [[H | H] _]]; discriminate H]. }
  destruct (String.eqb_spec t "options_ts") as [-> | H3].
  { split; [discriminate | intros [[H _] | [[H | H] _]]; discriminate H]. }
  destruct (String.eqb_spec t "sweeps") as [-> | H4].
  { unfold append_events. destruct (iterate (Js.opt_get msg "data")) as [b|].
    - split; [discriminate | intros [[H _] | [_ H]]; discriminate H].
    - split; [intros _; right; auto | reflexivity]. }
  destruct (String.eqb_spec t "blocks") as [-> | H5].
  { unfold append_events. destruct (iterate (Js.opt_get msg "data")) as [b|].
    - split; [discriminate | intros [[H _] | [_ H]]; discriminate H].
    - split; [intros _; right; auto | reflexivity]. }
  destruct (String.eqb_spec t "watchlist") as [-> | H6].
  { split; [discriminate | intros [[H _] | [[H | H] _]]; discriminate H]. }
  split; [discriminate | intros [[H _] | [[H | H] _]]; congruence].
Qed.

(** X9. The watchlist stays clean: whatever a [watchlist] frame carries, the
    equities stored are valid tickers, each listed once, and other frames leave
    the watchlist as it is. *)
Theorem watchlist_stays_clean
    (number_digits : float -> string) (JSON_parse : string -> parse_result)
    (null_read_message : string -> string)
    (frames : list string) :
  forall st st',
    onmessages number_digits JSON_parse null_read_message st frames = Handled st' ->
    Notions.clean_watchlist (wl st) ->
    Notions.clean_watchlist (wl st').
Proof.
  induction frames as [|f frames IH]; intros st st' Hrun Hclean.
  - injection Hrun as <-. exact Hclean.
  - cbn [onmessages] in Hrun.
    destruct (onmessage number_digits JSON_parse null_read_message st f) as [st1 |] eqn:Hstep;
      [| discriminate Hrun].
    apply (IH st1 st' Hrun).
    destruct (Notions.topic_of JSON_parse f) as [t|] eqn:Ht.
    + destruct (topic_of_message JSON_parse f t Ht) as (msg & Hp & Hget).
      unfold onmessage in Hstep. rewrite Hp in Hstep.
      destruct (String.eqb_spec t "watchlist") as [-> | Hne].
      * unfold dispatch in Hstep. rewrite Hget in Hstep.
        cbn [String.eqb Ascii.eqb Bool.eqb] in Hstep. injection Hstep as <-.
        cbn [wl set_wl]. unfold Notions.clean_watchlist, normalizeWatchlist. cbn [equities].
        apply parseSymbolsList_clean.
      * destruct (dispatch_frame number_digits null_read_message st st1 msg t Hget Hstep)
          as (_ & _ & _ & _ & _ & _ & Hw).
        rewrite (Hw Hne). exact Hclean.
    + destruct (onmessage_no_topic number_digits JSON_parse null_read_message st st1 f
                  Ht Hstep) as (_ & _ & _ & _ & Hw & _).
      rewrite Hw. exact Hclean.
Qed.

Lemma watchlist_stays_clean_witness :
  let frames := [TestFeed.frame_watchlist; TestFeed.frame_sweeps] in
  exists st',
    onmessages TestEngine.number_digits TestFeed.JSON_parse TestEngine.null_read_message
      State_init frames = Handled st'
    /\ Notions.clean_watchlist (wl State_init)
    /\ equities (wl st') = ["SPY"; "QQQ"]
    /\ Notions.clean_watchlist (wl st').
Proof.
  intros frames.
  assert (H0 : Notions.clean_watchlist (wl State_init)) by (split; constructor).
  eexists. split; [reflexivity |]. split; [exact H0 |]. split; [reflexivity |].
  exact (watchlist_stays_clean TestEngine.number_digits TestFeed.JSON_parse
           TestEngine.null_read_message frames State_init _ eq_refl H0).
Defined.

(* ===================================================================== *)
(** * Ticks without a symbol *)
(* ===================================================================== *)

Section Unnamed.

Variable number_digits : float -> string.

Lemma assign_absent (k : string) (v : jsval) (props : list (string * jsval)) :
  Js.lookup k props = None -> Js.assign k v props = props ++ [(k, v)].
Proof.
  induction props as [|[k' v'] r IH]; [reflexivity |].
  cbn [Js.lookup Js.assign]. destruct (String.eqb k k'); [discriminate |].
  intros H. rewrite (IH H). reflexivity.
Qed.

Lemma merge_tick_symbolless (next : gmap string jsval) (t : jsval) :
  Notions.symbolless t ->
  merge_tick number_digits next t
  = Some (<["undefined" := Notions.unnamed_entry t]> next).
Proof.
  intros (props & -> & Hl). unfold merge_tick, Js.get, Js.opt_get.
  cbn [Js.isNullish]. rewrite Hl. cbn [default normalizeSymbol js_String spread_props].
  rewrite (assign_absent _ _ _ Hl). reflexivity.
Qed.

Lemma merge_ticks_symbolless (ticks : list jsval) :
  forall next : gmap string jsval,
    Forall Notions.symbolless ticks ->
    exists next',
      merge_ticks number_digits next ticks = Some next'
      /\ (forall k, k <> "undefined" -> next' !! k = next !! k)
      /\ next' !! "undefined"
         = match last ticks with
           | Some t => Some (Notions.unnamed_entry t)
           | None => next !! "undefined"
           end.
Proof.
  induction ticks as [|t ticks IH]; intros next Hall.
  - exists next. cbn. auto.
  - apply Forall_cons in Hall as [Ht Hall].
    cbn [merge_ticks]. rewrite (merge_tick_symbolless next t Ht).
    destruct (IH (<["undefined" := Notions.unnamed_entry t]> next) Hall)
      as (next' & Hm & Hother & Hk).
    exists next'. split; [exact Hm |]. split.
    + intros k Hne. rewrite (Hother k Hne). apply lookup_insert_ne. congruence.
    + rewrite Hk. destruct ticks as [|t' ticks'].
      * apply lookup_insert_eq.
      * change (last (t :: t' :: ticks')) with (last (t' :: ticks')).
        destruct (last (t' :: ticks')) eqn:E; [reflexivity |].
        apply last_None in E. discriminate E.
Qed.

End Unnamed.

(** X24. Ticks that carry no symbol are not rejected: each is stored under
    the one key [undefined], with a [symbol] that is [undefined], so ticks
    without a symbol overwrite one another and the last one stays; the entries
    of the other keys are untouched. *)
Theorem ticks_without_symbol_share_a_key
    (number_digits : float -> string) (null_read_message : string -> string)
    (st : State) (msg : jsval) (ticks : list jsval) (t : jsval) :
  Js.get msg "topic" = Some (JStr "equity_ts") ->
  Js.opt_get msg "data" = JArr ticks ->
  Forall Notions.symbolless ticks ->
  last ticks = Some t ->
  exists st',
    dispatch number_digits null_read_message st msg = Handled st'
    /\ equity st' !! "undefined" = Some (Notions.unnamed_entry t)
    /\ (forall k, k <> "undefined" -> equity st' !! k = equity st !! k).
Proof.
  intros Htopic Hdata Hall Hlast. unfold dispatch. rewrite Htopic, Hdata.
  cbn [String.eqb Ascii.eqb Bool.eqb Js.isArray].
  destruct ticks as [|x r]; [discriminate Hlast |].
  cbn [equity set_basis].
  destruct (merge_ticks_symbolless number_digits (x :: r) (equity st) Hall)
    as (next & Hm & Hother & Hk).
  rewrite Hm. eexists. split; [reflexivity |]. cbn [equity set_equity].
  rewrite Hlast in Hk. split; [exact Hk | exact Hother].
Qed.

Lemma ticks_without_symbol_share_a_key_witness :
  let ticks := [TestFeed.anon 1; TestFeed.anon 2] in
  let msg := Spec.message "equity_ts" (JArr ticks) in
  Forall Notions.symbolless ticks
  /\ exists st',
       dispatch TestEngine.number_digits TestEngine.null_read_message State_init msg
       = Handled st'
       /\ equity st' !! "undefined"
          = Some (JObj [("last", JNum 2); ("symbol", JUndefined)]).
Proof.
  intros ticks msg.
  assert (H : Forall Notions.symbolless ticks)
    by (repeat constructor; eexists; split; reflexivity).
  split; [exact H |].
  destruct (ticks_without_symbol_share_a_key TestEngine.number_digits
              TestEngine.null_read_message State_init msg ticks (TestFeed.anon 2)
              eq_refl eq_refl H eq_refl) as (st' & Hd & Hk & _).
  exists st'. split; [exact Hd | exact Hk].
Defined.

(* ===================================================================== *)
(** * Reading symbols again, and the Add button *)
(* ===================================================================== *)

Section Rereading.

Variable number_digits : float -> string.

Lemma ticker_tail_plain (c : ascii) :
  ticker_tail c = true -> JsString.is_lower c = false /\ JsString.is_space c = false.
Proof. destruct c as [[] [] [] [] [] [] [] []]; vm_compute; intros H; auto; discriminate H. Qed.

Lemma ticker_head_tail (c : ascii) : ticker_head c = true -> ticker_tail c = true.
Proof. unfold ticker_tail. intros ->. reflexivity. Qed.

Lemma toUpperCase_plain (s : string) :
  JsString.forallb ticker_tail s = true -> JsString.toUpperCase s = s.
Proof.
  induction s as [|c s IH]; [reflexivity |].
  cbn [JsString.forallb JsString.toUpperCase]. intros H. apply andb_prop in H as [Hc Hs].
  rewrite (IH Hs). unfold JsString.upper_char.
  rewrite (proj1 (ticker_tail_plain c Hc)). reflexivity.
Qed.

Lemma trimEnd_plain (s : string) :
  JsString.forallb ticker_tail s = true -> JsString.trimEnd s = s.
Proof.
  induction s as [|c s IH]; [reflexivity |].
  cbn [JsString.forallb JsString.trimEnd]. intros H. apply andb_prop in H as [Hc Hs].
  rewrite (IH Hs), (proj2 (ticker_tail_plain c Hc)). destruct s; reflexivity.
Qed.

(** A valid ticker is already trimmed and in upper case. *)
Lemma TICKER_OK_normal (s : string) :
  TICKER_OK s = true -> JsString.toUpperCase (JsString.trim s) = s.
Proof.
  destruct s as [|c r]; [discriminate |]. cbn [TICKER_OK]. intros H.
  apply andb_prop in H as [H _]. apply andb_prop in H as [Hc Hr].
  assert (Hall : JsString.forallb ticker_tail (String c r) = true).
  { cbn [JsString.forallb]. rewrite (ticker_head_tail c Hc), Hr. reflexivity. }
  unfold JsString.trim. cbn [JsString.trimStart].
  rewrite (proj2 (ticker_tail_plain c (ticker_head_tail c Hc))).
  rewrite (trimEnd_plain _ Hall). apply toUpperCase_plain, Hall.
Qed.

Lemma first_occurrences_NoDup_id (l : list string) :
  NoDup l -> Spec.first_occurrences l = l.
Proof.
  induction 1 as [|x l Hx _ IH]; [reflexivity |].
  cbn [Spec.first_occurrences]. rewrite IH. f_equal.
  clear IH. induction l as [|y l IHl]; [reflexivity |].
  cbn [List.filter]. destruct (String.eqb_spec x y) as [-> | Hne]; cbn [negb].
  - exfalso. apply Hx. left.
  - f_equal. apply IHl. intros Hin. apply Hx. right. exact Hin.
Qed.

(** A clean list of tickers is read back as it is. *)
Lemma parseSymbolsList_clean_id (l : list string) :
  NoDup l -> Forall (fun s => TICKER_OK s = true) l ->
  parseSymbolsList number_digits (JArr (map JStr l)) = l.
Proof.
  intros Hnd Hok. unfold parseSymbolsList.
  rewrite candidates_of_strings, uniq_first_occurrences.
  assert (Hmap : map (fun s => JsString.toUpperCase (JsString.trim s)) l = l).
  { clear Hnd. induction Hok as [|s l Hs _ IH]; [reflexivity |].
    cbn [map]. rewrite (TICKER_OK_normal s Hs), IH. reflexivity. }
  rewrite Hmap.
  assert (Hfilter : List.filter TICKER_OK l = l).
  { clear Hnd Hmap. induction Hok as [|s l Hs _ IH]; [reflexivity |].
    cbn [List.filter]. rewrite Hs, IH. reflexivity. }
  rewrite Hfilter. apply first_occurrences_NoDup_id, Hnd.
Qed.

(** ** Blank texts *)

Lemma trimEnd_empty (s : string) :
  JsString.trimEnd s = "" -> JsString.forallb JsString.is_space s = true.
Proof.
  induction s as [|c s IH]; [reflexivity |].
  cbn [JsString.trimEnd JsString.forallb].
  destruct (JsString.trimEnd s) eqn:E; [| discriminate].
  destruct (JsString.is_space c); [| discriminate].
  intros _. apply IH. reflexivity.
Qed.

Lemma trimStart_spaces (s : string) :
  JsString.forallb JsString.is_space (JsString.trimStart s) = true ->
  JsString.forallb JsString.is_space s = true.
Proof.
  induction s as [|c s IH]; [reflexivity |].
  cbn [JsString.trimStart JsString.forallb].
  destruct (JsString.is_space c) eqn:Hc; [exact IH |].
  cbn [JsString.forallb]. rewrite Hc. discriminate.
Qed.

(** A text of separators is cut into empty pieces only. *)
Lemma split_go_blank (sep : ascii -> bool) (s : string) :
  JsString.forallb sep s = true ->
  forall in_run, Forall (fun piece => piece = "") (JsString.split_go sep [] in_run s).
Proof.
  induction s as [|c s IH]; intros Hs in_run.
  - repeat constructor.
  - cbn [JsString.forallb] in Hs. apply andb_prop in Hs as [Hc Hs].
    cbn [JsString.split_go]. rewrite Hc. destruct in_run.
    + apply IH, Hs.
    + constructor; [reflexivity | apply IH, Hs].
Qed.

Lemma forallb_weaken (p q : ascii -> bool) (s : string) :
  (forall c, p c = true -> q c = true) ->
  JsString.forallb p s = true -> JsString.forallb q s = true.
Proof.
  intros Hpq. induction s as [|c s IH]; [reflexivity |].
  cbn [JsString.forallb]. intros H. apply andb_prop in H as [Hc Hs].
  rewrite (Hpq c Hc), (IH Hs). reflexivity.
Qed.

(** A blank text holds no symbol. *)
Lemma blank_has_no_symbol (s : string) :
  JsString.trim s = "" -> parseSymbolsList number_digits (JStr s) = [].
Proof.
  intros Ht. unfold JsString.trim in Ht.
  apply trimEnd_empty, trimStart_spaces in Ht.
  assert (Hsep : JsString.forallb list_sep s = true).
  { revert Ht. apply forallb_weaken. intros c Hc. unfold list_sep. rewrite Hc. reflexivity. }
  unfold parseSymbolsList. cbn [symbol_candidates]. unfold JsString.split_runs.
  pose proof (split_go_blank list_sep s Hsep false) as Hall.
  induction Hall as [|p l -> _ IH]; [reflexivity |].
  cbn [map List.filter]. exact IH.
Qed.

End Rereading.

(** X10. Reading a symbol list is idempotent: the list [parseSymbolsList]
    returns, read again, is returned as it is, so a watchlist that was
    normalized once is a fixed point of [normalizeWatchlist]. *)
Theorem parseSymbolsList_is_idempotent
    (number_digits : float -> string) (v raw : jsval) :
  parseSymbolsList number_digits
    (JArr (map JStr (parseSymbolsList number_digits v)))
  = parseSymbolsList number_digits v
  /\ (let w := normalizeWatchlist number_digits raw in
      normalizeWatchlist number_digits
        (JObj [("equities", JArr (map JStr (equities w))); ("options", JArr (wl_options w))])
      = w).
Proof.
  assert (Hid : forall v, parseSymbolsList number_digits
                            (JArr (map JStr (parseSymbolsList number_digits v)))
                          = parseSymbolsList number_digits v).
  { intros v'. destruct (parseSymbolsList_clean number_digits v') as [Hnd Hok].
    apply parseSymbolsList_clean_id; assumption. }
  split; [apply Hid |].
  intros w.
  assert (Hw : parseSymbolsList number_digits (JArr (map JStr (equities w))) = equities w)
    by apply Hid.
  unfold normalizeWatchlist at 1.
  change (Js.opt_get (JObj [("equities", JArr (map JStr (equities w)));
                            ("options", JArr (wl_options w))]) "equities")
    with (JArr (map JStr (equities w))).
  change (Js.opt_get (JObj [("equities", JArr (map JStr (equities w)));
                            ("options", JArr (wl_options w))]) "options")
    with (JArr (wl_options w)).
  rewrite Hw. destruct w; reflexivity.
Qed.

(** X11. The Add button posts a symbol exactly when the text holds a valid
    ticker: the symbol posted is the first valid ticker of the text (trimmed
    and in upper case), nothing is posted for a text without one, blank or not,
    and the input is cleared in every case. *)
Theorem add_posts_first_valid_ticker
    (number_digits : float -> string) (newSym : string) :
  add_click number_digits newSym
  = (head (parseSymbolsList number_digits (JStr newSym)), "")
  /\ (forall s, (add_click number_digits newSym).1 = Some s -> TICKER_OK s = true)
  /\ ((add_click number_digits newSym).1 = None
      <-> parseSymbolsList number_digits (JStr newSym) = []).
Proof.
  destruct (parseSymbolsList_clean number_digits (JStr newSym)) as [_ Hok].
  assert (Hadd : addEquity_symbol number_digits newSym
                 = head (parseSymbolsList number_digits (JStr newSym))).
  { unfold addEquity_symbol.
    destruct (parseSymbolsList number_digits (JStr newSym)) as [|s l]; [reflexivity |].
    cbn [head]. apply Forall_cons in Hok as [Hs _].
    destruct s; [discriminate Hs | reflexivity]. }
  assert (Hclick : add_click number_digits newSym
                   = (head (parseSymbolsList number_digits (JStr newSym)), "")).
  { unfold add_click. rewrite Hadd. cbn [Js.truthy].
    destruct (String.eqb_spec (JsString.trim newSym) "") as [Hblank | _]; [| reflexivity].
    rewrite (blank_has_no_symbol number_digits newSym Hblank). reflexivity. }
  rewrite Hclick. cbn [fst]. split; [reflexivity |]. split.
  - intros s Hs. destruct (parseSymbolsList number_digits (JStr newSym)) as [|s' l];
      [discriminate Hs |].
    injection Hs as <-. apply Forall_cons in Hok as [Hs _]. exact Hs.
  - destruct (parseSymbolsList number_digits (JStr newSym)); cbn [head]; split; intros H;
      first [reflexivity | discriminate H].
Qed.

(* ===================================================================== *)
(** * Fixed notation: [fmt] and [marketFmt] *)
(* ===================================================================== *)

Section FixedNotation.

Variable number_digits : float -> string.
Variable string_to_number : string -> float.

Lemma length_append (s t : string) :
  String.length (s +:+ t) = String.length s + String.length t.
Proof. induction s as [|c s IH]; [reflexivity |]. cbn. rewrite <- IH. reflexivity. Qed.

Lemma forallb_append (p : ascii -> bool) (s t : string) :
  JsString.forallb p (s +:+ t) = JsString.forallb p s && JsString.forallb p t.
Proof.
  induction s as [|c s IH]; [reflexivity |].
  cbn [JsString.forallb]. change (String c s +:+ t) with (String c (s +:+ t)).
  cbn [JsString.forallb]. rewrite IH, andb_assoc. reflexivity.
Qed.

Lemma length_substring (s : string) :
  forall i j, i + j <= String.length s -> String.length (substring i j s) = j.
Proof.
  induction s as [|c s IH]; intros i j H; cbn [String.length] in H.
  - destruct i, j; cbn; lia.
  - destruct i as [|i]; cbn [substring].
    + destruct j as [|j]; [reflexivity |]. cbn [String.length]. rewrite IH; lia.
    + apply IH. lia.
Qed.

Lemma forallb_substring (p : ascii -> bool) (s : string) :
  forall i j, JsString.forallb p s = true -> JsString.forallb p (substring i j s) = true.
Proof.
  induction s as [|c s IH]; intros i j H.
  - destruct i, j; reflexivity.
  - cbn [JsString.forallb] in H. apply andb_prop in H as [Hc Hs].
    destruct i as [|i]; cbn [substring].
    + destruct j as [|j]; [reflexivity |]. cbn [JsString.forallb].
      rewrite Hc. apply IH, Hs.
    + apply IH, Hs.
Qed.

Lemma length_zeros (n : nat) :
  String.length (string_of_list_ascii (repeat "0"%char n)) = n.
Proof. induction n as [|n IH]; [reflexivity |]. cbn. rewrite IH. reflexivity. Qed.

Lemma forallb_zeros (n : nat) :
  JsString.forallb JsString.is_digit (string_of_list_ascii (repeat "0"%char n)) = true.
Proof. induction n as [|n IH]; [reflexivity |]. cbn. exact IH. Qed.

(** The decimal digits of a natural number are digits. *)
Lemma string_of_uint_digits (u : Decimal.uint) :
  JsString.forallb JsString.is_digit (NilEmpty.string_of_uint u) = true.
Proof. induction u; cbn; auto. Qed.

Lemma NilZero_digits (u : Decimal.uint) : Notions.digits (NilZero.string_of_uint u).
Proof.
  destruct u; (split; [cbn; lia |]); try reflexivity;
    match goal with
    | |- JsString.forallb _ (NilZero.string_of_uint ?d) = true =>
        apply (string_of_uint_digits d)
    end.
Qed.

Lemma Z_to_string_digits (n : Z) : (0 <= n)%Z -> Notions.digits (JsNumber.Z_to_string n).
Proof.
  intros Hn. unfold JsNumber.Z_to_string.
  destruct (Z.ltb_spec n 0) as [? | _]; [lia |]. apply NilZero_digits.
Qed.

(** The digits of [toFixed], with or without a sign, are in fixed
    notation. *)
Lemma fixed_digits_notation (n : Z) (f : nat) (sign : string) :
  (0 <= n)%Z ->
  sign = "" \/ sign = "-" ->
  Notions.fixed_notation f (sign +:+ JsMath.fixed_digits n f).
Proof.
  intros Hn Hs. destruct (Z_to_string_digits n Hn) as [Hlen Hdig].
  unfold JsMath.fixed_digits, Notions.fixed_notation.
  destruct f as [|f'].
  - exists sign, (JsNumber.Z_to_string n). cbn [Nat.eqb]. repeat split; auto.
  - set (f := S f') in *. cbn [Nat.eqb].
    set (m0 := JsNumber.Z_to_string n) in *.
    set (padded := if (String.length m0 <=? f)%nat
                   then (string_of_list_ascii (repeat "0"%char (f + 1 - String.length m0))
                         +:+ m0, f + 1)
                   else (m0, String.length m0)).
    assert (Hp : String.length padded.1 = padded.2 /\ f + 1 <= padded.2
                 /\ JsString.forallb JsString.is_digit padded.1 = true).
    { unfold padded. destruct (Nat.leb_spec (String.length m0) f) as [Hle | Hgt]; cbn [fst snd].
      - rewrite length_append, length_zeros, forallb_append, forallb_zeros, Hdig.
        repeat split; lia.
      - repeat split; [lia | exact Hdig]. }
    destruct padded as [m k]. cbn [fst snd] in Hp. destruct Hp as (Hk & Hfk & Hd).
    exists sign, (substring 0 (k - f) m). split; [exact Hs |]. split.
    + split; [rewrite length_substring; lia | apply forallb_substring, Hd].
    + exists (substring (k - f) f m). split; [reflexivity |]. split.
      * apply length_substring. lia.
      * apply forallb_substring, Hd.
Qed.

Lemma nearest_scaled_nonneg (m : positive) (e : Z) (f : nat) :
  (0 <= JsMath.nearest_scaled m e f)%Z.
Proof.
  unfold JsMath.nearest_scaled.
  assert (Hp : (0 <= Z.pos m * 10 ^ Z.of_nat f)%Z).
  { apply Z.mul_nonneg_nonneg; [lia | apply Z.pow_nonneg; lia]. }
  destruct (0 <=? e)%Z eqn:He.
  - apply Z.mul_nonneg_nonneg; [exact Hp | apply Z.pow_nonneg; lia].
  - assert (0 < 2 ^ (- e))%Z by (apply Z.pow_pos_nonneg; lia).
    apply Z.div_pos; lia.
Qed.

Lemma ltb_not_ge (a b : float) : PrimFloat.ltb a b = true -> PrimFloat.leb b a = false.
Proof.
  rewrite FloatAxioms.ltb_spec, FloatAxioms.leb_spec. unfold SFltb, SFleb.
  rewrite (SFcompare_antisym (Prim2SF a) (Prim2SF b)).
  destruct (SFcompare (Prim2SF a) (Prim2SF b)) as [[] |]; cbn; congruence.
Qed.

(** A finite number below 10^21 in magnitude prints in fixed notation. *)
Lemma Number_toFixed_notation (x : float) (f : nat) :
  JsNumber.isFinite x = true ->
  PrimFloat.ltb (PrimFloat.abs x) 1e21 = true ->
  f <= 100 ->
  exists s, Number_toFixed number_digits x f = Some s /\ Notions.fixed_notation f s.
Proof.
  intros Hfin Hlt Hf. unfold Number_toFixed.
  destruct (Nat.ltb_spec 100 f) as [? | _]; [lia |].
  rewrite Hfin, (ltb_not_ge _ _ Hlt). cbn [negb].
  eexists. split; [reflexivity |].
  apply fixed_digits_notation.
  - destruct (Prim2SF (PrimFloat.abs x)); try lia. apply nearest_scaled_nonneg.
  - destruct (PrimFloat.ltb x 0); auto.
Qed.

End FixedNotation.



(** X13. [marketFmt.price] of a symbol string and a value that reads as a
    finite number below 10^21 in magnitude never throws and prints one or two
    decimals: one exactly when the value is at least 1000 and the symbol is
    neither SPX nor ES (in any case, with or without a leading slash). *)
Theorem price_prints_one_or_two_decimals
    (number_digits : float -> string) (string_to_number : string -> float)
    (sym : string) (x : jsval) :
  let n := coerceNum number_digits string_to_number x in
  let special := String.eqb (Spec.canonical sym) "SPX" || String.eqb (Spec.canonical sym) "ES" in
  JsNumber.isFinite n = true ->
  PrimFloat.ltb (PrimFloat.abs n) 1e21 = true ->
  exists s,
    marketFmt_price number_digits string_to_number (JStr sym) x = Some s
    /\ Notions.fixed_notation (if negb special && PrimFloat.leb 1000 n then 1 else 2) s.
Proof.
  intros n special Hfin Hlt. unfold marketFmt_price. fold n. rewrite Hfin.
  cbn [negb normalizeSymbol is_string]. fold (Spec.canonical sym). fold special.
  destruct special; cbn [negb andb].
  - apply Number_toFixed_notation; [assumption | assumption | lia].
  - destruct (PrimFloat.leb 1000 n); apply Number_toFixed_notation; first [assumption | lia].
Qed.

Lemma price_prints_one_or_two_decimals_witness :
  let price := marketFmt_price TestEngine.number_digits TestEngine.string_to_number in
  price (JStr "AAPL") (JNum 4500.25) = Some "4500.3"
  /\ price (JStr "/es") (JNum 4500.25) = Some "4500.25"
  /\ price (JStr "AAPL") (JNum 189.5) = Some "189.50"
  /\ exists s, price (JStr "AAPL") (JNum 4500.25) = Some s /\ Notions.fixed_notation 1 s.
Proof.
  intros price. split; [reflexivity |]. split; [reflexivity |]. split; [reflexivity |].
  exact (price_prints_one_or_two_decimals TestEngine.number_digits
           TestEngine.string_to_number "AAPL" (JNum 4500.25) eq_refl eq_refl).
Defined.


(** X14. A missing value reads differently as [null] and as [undefined]:
    [undefined] prints as the dash everywhere, while [null] reads as the
    number 0, so [fmt] and [marketFmt.price] print it as zero and [tsAgo] as
    the age of the epoch; [marketFmt.nbbo] prints the dash for both. *)
Theorem null_reads_as_zero
    (number_digits : float -> string) (string_to_number : string -> float)
    (d : nat) (sym : string) (now : float) :
  fmt number_digits string_to_number JUndefined d = Some DASH
  /\ fmt number_digits string_to_number JNull d
     = fmt number_digits string_to_number (JNum 0) d
  /\ fmt number_digits string_to_number JNull 2 = Some "0.00"
  /\ marketFmt_price number_digits string_to_number (JStr sym) JUndefined = Some DASH
  /\ marketFmt_price number_digits string_to_number (JStr sym) JNull = Some "0.00"
  /\ marketFmt_nbbo number_digits string_to_number JUndefined = Some DASH
  /\ marketFmt_nbbo number_digits string_to_number JNull = Some DASH
  /\ tsAgo number_digits string_to_number now JUndefined = DASH
  /\ tsAgo number_digits string_to_number now JNull
     = tsAgo number_digits string_to_number now (JNum 0).
Proof.
  repeat split; try reflexivity.
  unfold marketFmt_price. cbn [normalizeSymbol is_string].
  change (JsNumber.isFinite (coerceNum number_digits string_to_number JNull)) with true.
  cbn [negb].
  change (PrimFloat.leb 1000 (coerceNum number_digits string_to_number JNull)) with false.
  destruct (_ || _); reflexivity.
Qed.

(* ===================================================================== *)
(** * Ages: [tsAgo] *)
(* ===================================================================== *)

Section Ages.

Lemma binary_normalize_not_nan (M e : Z) (szero : bool) :
  binary_normalize prec emax M e szero <> S754_nan.
Proof.
  unfold binary_normalize, binary_round. destruct M as [| p | p]; [discriminate | |].
  - destruct (shl_align p e (fexp prec emax (Z.pos (digits2_pos p) + e))) as [mz ez].
    pose proof (binary_round_aux_sign false (Z.pos mz) ez loc_Exact ltac:(lia)) as H.
    destruct (binary_round_aux prec emax false (Z.pos mz) ez loc_Exact);
      [discriminate | discriminate | contradiction | discriminate].
  - destruct (shl_align p e (fexp prec emax (Z.pos (digits2_pos p) + e))) as [mz ez].
    pose proof (binary_round_aux_sign true (Z.pos mz) ez loc_Exact ltac:(lia)) as H.
    destruct (binary_round_aux prec emax true (Z.pos mz) ez loc_Exact);
      [discriminate | discriminate | contradiction | discriminate].
Qed.

(** The difference of two finite numbers is a number. *)
Lemma sub_finite_not_nan (a b : float) :
  JsNumber.isFinite a = true ->
  JsNumber.isFinite b = true ->
  PrimFloat.is_nan (PrimFloat.sub a b) = false.
Proof.
  rewrite !isFinite_spec, is_nan_spec, FloatAxioms.sub_spec. unfold SF64sub.
  destruct (Prim2SF a) as [sa | sa | | sa ma ea], (Prim2SF b) as [sb | sb | | sb mb eb];
    intros Ha Hb; try discriminate Ha; try discriminate Hb; cbn [SFsub];
    try reflexivity; try (destruct sa, sb; reflexivity).
  match goal with
  | |- match ?X with _ => _ end = false =>
      pose proof (binary_normalize_not_nan
                    (cond_Zopp sa (Z.pos (fst (shl_align ma ea (Z.min ea eb))))
                     - cond_Zopp sb (Z.pos (fst (shl_align mb eb (Z.min ea eb)))))
                    (Z.min ea eb) false) as H;
      destruct X; try reflexivity; contradiction
  end.
Qed.

Lemma Prim2SF_1500 : Prim2SF 1500 = S754_finite false 6597069766656000 (-42).
Proof. vm_compute. reflexivity. Qed.

(** A number that is not above zero is below 1500. *)
Lemma not_positive_below_1500 (x : float) :
  PrimFloat.is_nan x = false ->
  PrimFloat.ltb 0 x = false ->
  PrimFloat.ltb x 1500 = true.
Proof.
  rewrite is_nan_spec, !FloatAxioms.ltb_spec, Prim2SF_1500.
  change (Prim2SF 0) with (S754_zero false).
  destruct (Prim2SF x) as [s | s | | s m e]; intros H1 H2; try discriminate H1;
    destruct s; try discriminate H2; reflexivity.
Qed.

Lemma leb_not_lt (a b : float) : PrimFloat.leb a b = true -> PrimFloat.ltb b a = false.
Proof.
  rewrite FloatAxioms.ltb_spec, FloatAxioms.leb_spec. unfold SFltb, SFleb.
  rewrite (SFcompare_antisym (Prim2SF a) (Prim2SF b)).
  destruct (SFcompare (Prim2SF a) (Prim2SF b)) as [[] |]; cbn; congruence.
Qed.

Lemma isFinite_not_nan (x : float) : JsNumber.isFinite x = true -> PrimFloat.is_nan x = false.
Proof. unfold JsNumber.isFinite. destruct (PrimFloat.is_nan x); [discriminate | reflexivity]. Qed.


End Ages.


(** X16. A timestamp at or after the current time (a clock ahead of the
    local one) shows as [now], never as a negative age. *)
Theorem future_timestamp_shows_now
    (number_digits : float -> string) (string_to_number : string -> float)
    (now : float) (ts : jsval) :
  let t := coerceNum number_digits string_to_number ts in
  JsNumber.isFinite now = true ->
  JsNumber.isFinite t = true ->
  PrimFloat.leb now t = true ->
  tsAgo number_digits string_to_number now ts = "now".
Proof.
  intros t Hnow Ht Hle. unfold tsAgo. fold t. rewrite Ht. cbn [negb].
  rewrite not_positive_below_1500; [reflexivity | |].
  - apply sub_finite_not_nan; assumption.
  - rewrite sub_positive_iff by (apply isFinite_not_nan; assumption).
    apply leb_not_lt, Hle.
Qed.

Lemma future_timestamp_shows_now_witness :
  let age := tsAgo TestEngine.number_digits TestEngine.string_to_number 1700000000000 in
  age (JNum 1700000060000) = "now"
  /\ age (JNum 1699999998000) = "2s"
  /\ age (JNum 1699990000000) = "2h".
Proof.
  intros age. split; [| split; reflexivity].
  exact (future_timestamp_shows_now TestEngine.number_digits TestEngine.string_to_number
           1700000000000 (JNum 1700000060000) eq_refl eq_refl eq_refl).
Defined.



(* ===================================================================== *)
(** * Whole numbers: the notional cell *)
(* ===================================================================== *)

Local Open Scope Z_scope.

Section Whole.

Variable number_digits : float -> string.

Lemma digits2_shift (q p : positive) :
  Z.pos (digits2_pos (Pos.iter xO p q)) = Z.pos (digits2_pos p) + Z.pos q.
Proof.
  induction q as [|q IH] using Pos.peano_ind.
  - cbn [Pos.iter digits2_pos]. lia.
  - rewrite Pos.iter_succ. cbn [digits2_pos]. lia.
Qed.

(** A mantissa of 53 bits at an exponent in range is a number as it is. *)
Lemma binary_round_aux_exact (s : bool) (m : positive) (e : Z) :
  Z.pos (digits2_pos m) = 53 -> -1074 <= e <= 971 ->
  binary_round_aux prec emax s (Z.pos m) e loc_Exact = S754_finite s m e.
Proof.
  intros Hd He. unfold binary_round_aux, shr_fexp. cbn [Zdigits2].
  assert (H0 : fexp prec emax (Z.pos (digits2_pos m) + e) - e = 0).
  { unfold fexp, SpecFloat.emin. change (3 - emax - prec) with (-1074).
    change prec with 53. lia. }
  rewrite H0. cbn [shr shr_record_of_loc shr_m loc_of_shr_record round_nearest_even Zdigits2].
  rewrite H0. cbn [shr shr_record_of_loc shr_m].
  destruct (Z.leb_spec e (emax - prec)) as [_ | H]; [reflexivity |].
  change (emax - prec) with 971 in H. lia.
Qed.

(** An integer of at most 53 bits is a binary64 exactly. *)
Lemma binary_round_small (s : bool) (p : positive) :
  Z.pos p < 2 ^ 53 ->
  exists m e,
    binary_round prec emax s p 0 = S754_finite s m e
    /\ -52 <= e <= 0 /\ Z.pos m = Z.pos p * 2 ^ (- e).
Proof.
  intros Hp. unfold binary_round.
  pose proof (digits2_pos_bounds p) as [Hlo _].
  assert (Hd : Z.pos (digits2_pos p) <= 53).
  { destruct (Z.le_gt_cases (Z.pos (digits2_pos p)) 53) as [H | H]; [exact H |].
    assert (2 ^ 53 <= 2 ^ (Z.pos (digits2_pos p) - 1)) by (apply Z.pow_le_mono_r; lia).
    lia. }
  assert (Hf : fexp prec emax (Z.pos (digits2_pos p) + 0) = Z.pos (digits2_pos p) - 53).
  { unfold fexp, SpecFloat.emin. change (3 - emax - prec) with (-1074).
    change prec with 53. lia. }
  rewrite Hf.
  pose proof (shl_align_value p 0 (Z.pos (digits2_pos p) - 53) ltac:(lia)) as Hv.
  unfold shl_align in *.
  destruct (Z.pos (digits2_pos p) - 53 - 0) as [| d | d] eqn:Hdiff; [| lia |].
  - cbn [fst] in Hv. exists p, 0. rewrite binary_round_aux_exact by lia.
    split; [reflexivity |]. split; [lia |]. cbn. lia.
  - cbn [fst] in Hv. exists (Pos.iter xO p d), (Z.pos (digits2_pos p) - 53).
    rewrite binary_round_aux_exact; [| rewrite digits2_shift; lia | lia].
    split; [reflexivity |]. split; [lia |]. rewrite Hv, Z.sub_0_l. reflexivity.
Qed.

(** The number of an integer below 2^53 in magnitude is that integer. *)
Lemma to_Z_of_Z (r : Z) :
  Z.abs r < 2 ^ 53 -> JsNumber.to_Z (JsNumber.of_Z r) = Some r.
Proof.
  intros Hr. unfold JsNumber.of_Z.
  assert (Hphi : Uint63.to_Z (Uint63.of_Z (Z.abs r)) = Z.abs r).
  { rewrite Uint63.of_Z_spec. apply Z.mod_small. split; [lia |].
    eapply Z.lt_trans; [exact Hr |]. reflexivity. }
  assert (Habs : forall p, Z.abs r = Z.pos p ->
            exists m e, Prim2SF (PrimFloat.of_uint63 (Uint63.of_Z (Z.abs r)))
                        = S754_finite false m e
                        /\ -52 <= e <= 0 /\ Z.pos m = Z.pos p * 2 ^ (- e)).
  { intros p Hpos. rewrite of_uint63_spec, Hphi, Hpos. cbn [binary_normalize].
    apply binary_round_small. lia. }
  assert (Hval : forall (s : bool) (m : positive) (e : Z) (p : positive),
            -52 <= e <= 0 -> Z.pos m = Z.pos p * 2 ^ (- e) ->
            (let v := if 0 <=? e then Some (Z.pos m * 2 ^ e)
                      else if Z.pos m mod 2 ^ (- e) =? 0 then Some (Z.pos m / 2 ^ (- e))
                      else None in
             if s then Z.opp <$> v else v)
            = Some (if s then Z.neg p else Z.pos p)).
  { intros s m e p He Hm. cbv zeta.
    assert (Hpow : 0 < 2 ^ (- e)) by (apply Z.pow_pos_nonneg; lia).
    destruct (Z.leb_spec 0 e) as [H0 | Hneg].
    - assert (e = 0) by lia. subst e. cbn in Hm. rewrite Hm.
      destruct s; cbn; f_equal; lia.
    - rewrite Hm, Z.mod_mul, Z.div_mul by lia. cbn [Z.eqb].
      destruct s; reflexivity. }
  destruct r as [| p | p].
  - reflexivity.
  - destruct (Habs p eq_refl) as (m & e & Hsf & He & Hm).
    change (Z.pos p <? 0) with false. cbv iota.
    unfold JsNumber.to_Z. rewrite Hsf. apply (Hval false m e p He Hm).
  - destruct (Habs p eq_refl) as (m & e & Hsf & He & Hm).
    change (Z.neg p <? 0) with true. cbv iota.
    unfold JsNumber.to_Z. rewrite FloatAxioms.opp_spec, Hsf. cbn [SFopp negb].
    apply (Hval true m e p He Hm).
Qed.

(** A finite number that is not whole has a negative exponent. *)
Lemma not_whole (x : float) :
  JsNumber.isFinite x = true ->
  JsNumber.to_Z x = None ->
  exists s m e, Prim2SF x = S754_finite s m e /\ e < 0 /\ Z.pos m < 2 ^ 53.
Proof.
  rewrite isFinite_spec. intros Hfin Hz.
  pose proof (Prim2SF_valid x) as Hv.
  destruct (Prim2SF x) as [s | s | | s m e] eqn:Hx; try discriminate Hfin.
  - unfold JsNumber.to_Z in Hz. rewrite Hx in Hz. discriminate Hz.
  - exists s, m, e. split; [reflexivity |]. split; [| apply (mantissa_below s m e Hv)].
    rewrite (to_Z_finite x s m e Hx) in Hz. cbv zeta in Hz.
    destruct (Z.leb_spec 0 e) as [H | H]; [| exact H].
    destruct s; discriminate Hz.
Qed.

(** The nearest integer of a number with a negative exponent has at most
    53 bits. *)
Lemma nearest_small (n d : Z) :
  2 <= d -> Z.abs n < 2 ^ 53 -> Z.abs ((2 * n + d) / (2 * d)) < 2 ^ 53.
Proof.
  intros Hd Hn. set (B := 2 ^ 53) in *. assert (HB : 1 <= B) by (unfold B; lia).
  clearbody B.
  assert (Hup : (2 * n + d) / (2 * d) < B) by (apply Z.div_lt_upper_bound; nia).
  assert (Hlo : - B < (2 * n + d) / (2 * d)).
  { assert (- B + 1 <= (2 * n + d) / (2 * d)); [| lia].
    apply Z.div_le_lower_bound; nia. }
  lia.
Qed.

(** [Math.round] of a finite number is a whole number. *)
Lemma Math_round_whole (x : float) :
  JsNumber.isFinite x = true -> exists z, JsNumber.to_Z (JsNumber.Math_round x) = Some z.
Proof.
  intros Hfin. unfold JsNumber.Math_round. rewrite Hfin. cbn [negb].
  destruct (JsNumber.to_Z x) as [z|] eqn:Hz; [exists z; exact Hz |].
  destruct (not_whole x Hfin Hz) as (s & m & e & Hx & He & Hm). rewrite Hx.
  set (n := if s then Z.neg m else Z.pos m).
  destruct ((2 * n + 2 ^ (- e)) / (2 * 2 ^ (- e)) =? 0) eqn:H0.
  - exists 0. destruct s; reflexivity.
  - eexists. apply to_Z_of_Z. apply nearest_small.
    + assert (2 ^ 1 <= 2 ^ (- e)) by (apply Z.pow_le_mono_r; lia). lia.
    + unfold n. destruct s; cbn [Z.abs]; exact Hm.
Qed.

Lemma Math_round_finite (x : float) :
  JsNumber.isFinite (JsNumber.Math_round x) = true -> JsNumber.isFinite x = true.
Proof.
  unfold JsNumber.Math_round. destruct (JsNumber.isFinite x) eqn:E; [reflexivity |].
  cbn [negb]. rewrite E. discriminate.
Qed.

Lemma Z_to_string_neg (v : Z) :
  0 < v -> JsNumber.Z_to_string (- v) = "-" +:+ JsNumber.Z_to_string v.
Proof.
  intros Hv. unfold JsNumber.Z_to_string.
  destruct (Z.ltb_spec (- v) 0) as [_ | ?]; [| lia].
  destruct (Z.ltb_spec v 0) as [? | _]; [lia |].
  rewrite Z.abs_opp. reflexivity.
Qed.

(** [toFixed(0)] of a whole number below 10^21 in magnitude prints its
    decimal digits. *)
Lemma Number_toFixed_whole (x : float) (z : Z) :
  JsNumber.isFinite x = true ->
  JsNumber.to_Z x = Some z ->
  PrimFloat.ltb (PrimFloat.abs x) 1e21 = true ->
  Number_toFixed number_digits x 0 = Some (JsNumber.Z_to_string z).
Proof.
  intros Hfin Hz Hlt. unfold Number_toFixed.
  rewrite Hfin, (ltb_not_ge _ _ Hlt). cbn [Nat.ltb Nat.leb negb].
  rewrite FloatAxioms.abs_spec, FloatAxioms.ltb_spec.
  change (Prim2SF 0) with (S754_zero false).
  rewrite isFinite_spec in Hfin.
  destruct (Prim2SF x) as [s | s | | s m e] eqn:Hx; try discriminate Hfin.
  - unfold JsNumber.to_Z in Hz. rewrite Hx in Hz. injection Hz as <-.
    destruct s; reflexivity.
  - rewrite (to_Z_finite x s m e Hx) in Hz. cbv zeta in Hz. cbn [SFabs].
    unfold JsMath.nearest_scaled, JsMath.fixed_digits. cbn [Nat.eqb Z.of_nat].
    rewrite Z.pow_0_r, Z.mul_1_r.
    assert (Hpow : 0 < 2 ^ (- e) \/ 0 <= e) by (destruct (Z.le_gt_cases 0 e);
      [right; assumption | left; apply Z.pow_pos_nonneg; lia]).
    assert (Hv : exists v, 0 < v
                 /\ (if 0 <=? e then Z.pos m * 2 ^ e
                     else (2 * Z.pos m + 2 ^ (- e)) / (2 * 2 ^ (- e))) = v
                 /\ z = if s then - v else v).
    { destruct (Z.leb_spec 0 e) as [H0 | Hneg].
      - exists (Z.pos m * 2 ^ e). split; [| split; [reflexivity |]].
        + apply Z.mul_pos_pos; [lia | apply Z.pow_pos_nonneg; lia].
        + destruct s; cbn in Hz; injection Hz as <-; reflexivity.
      - destruct Hpow as [Hpow | ?]; [| lia].
        destruct (Z.eqb_spec (Z.pos m mod 2 ^ (- e)) 0) as [Hmod | ?];
          [| destruct s; discriminate Hz].
        exists (Z.pos m / 2 ^ (- e)).
        apply Z.div_exact in Hmod; [| lia].
        set (d := 2 ^ (- e)) in *. set (q := Z.pos m / d) in *.
        split; [nia |]. split.
        + rewrite Hmod.
          replace (2 * (d * q) + d) with (d + q * (2 * d)) by ring.
          rewrite Z.div_add by lia.
          rewrite Z.div_small by lia. reflexivity.
        + destruct s; cbn in Hz; injection Hz as <-; reflexivity. }
    destruct Hv as (v & Hpos & -> & ->).
    unfold SFltb, SFcompare. destruct s; cbn [append].
    + rewrite (Z_to_string_neg v Hpos). reflexivity.
    + reflexivity.
Qed.

End Whole.

Local Close Scope Z_scope.

(** X18. The notional is a whole number, and the notional cell of the tables
    shows it digit for digit: with no decimals, [fmt] prints a finite notional
    below 10^21 in magnitude as the decimal digits of the integer
    [notionalOf] returns. *)
Theorem notional_cell_shows_whole_number
    (number_digits : float -> string) (string_to_number : string -> float)
    (m : FlowSize) :
  JsNumber.isFinite (notionalOf m) = true ->
  PrimFloat.ltb (PrimFloat.abs (notionalOf m)) 1e21 = true ->
  exists z,
    JsNumber.to_Z (notionalOf m) = Some z
    /\ fmt number_digits string_to_number (JNum (notionalOf m)) 0
       = Some (JsNumber.Z_to_string z).
Proof.
  intros Hfin Hlt.
  destruct (Math_round_whole _ (Math_round_finite _ Hfin)) as [z Hz].
  fold (notionalOf m) in Hz.
  exists z. split; [exact Hz |].
  unfold fmt, coerceNum. cbn [isFiniteNum js_Number]. rewrite Hfin, Hfin.
  apply Number_toFixed_whole; assumption.
Qed.

Lemma notional_cell_shows_whole_number_witness :
  let m := {| notional := Some 999.5%float; qty := None; price := None |} in
  fmt TestEngine.number_digits TestEngine.string_to_number (JNum (notionalOf m)) 0
  = Some "1000"
  /\ fmt TestEngine.number_digits TestEngine.string_to_number
       (JNum (notionalOf TestFeed.size_spy)) 0 = Some "15000"
  /\ exists z,
       JsNumber.to_Z (notionalOf m) = Some z
       /\ fmt TestEngine.number_digits TestEngine.string_to_number (JNum (notionalOf m)) 0
          = Some (JsNumber.Z_to_string z).
Proof.
  intros m. split; [reflexivity |]. split; [reflexivity |].
  exact (notional_cell_shows_whole_number TestEngine.number_digits
           TestEngine.string_to_number m eq_refl eq_refl).
Defined.

(* ===================================================================== *)
(** * The filtered views and their tables *)
(* ===================================================================== *)

Section FlowViews.

(** The order of binary64 numbers is transitive. *)
Lemma SFleb_trans (X Y Z : spec_float) :
  SFleb X Y = true -> SFleb Y Z = true -> SFleb X Z = true.
Proof.
  unfold SFleb, SFcompare.
  destruct X as [sx | sx | | sx mx ex], Y as [sy | sy | | sy my ey],
           Z as [sz | sz | | sz mz ez];
    try discriminate; try reflexivity;
    try (destruct sx, sy, sz; try discriminate; reflexivity);
    try (destruct sx, sy; try discriminate; reflexivity);
    try (destruct sx, sz; try discriminate; reflexivity);
    try (destruct sy, sz; try discriminate; reflexivity).
  rewrite !Pos.compare_cont_spec. cbn [Pos.switch_Eq].
  destruct sx, sy, sz; try discriminate; try reflexivity;
    destruct (Z.compare_spec ex ey), (Z.compare_spec ey ez), (Z.compare_spec ex ez);
    try discriminate; try reflexivity; try lia; subst;
    destruct (Pos.compare_spec mx my), (Pos.compare_spec my mz), (Pos.compare_spec mx mz);
    cbn; try discriminate; try reflexivity; try lia.
Qed.

Lemma leb_trans (a b c : float) :
  PrimFloat.leb a b = true -> PrimFloat.leb b c = true -> PrimFloat.leb a c = true.
Proof. rewrite !FloatAxioms.leb_spec. apply SFleb_trans. Qed.

Lemma leb_nan_l (a b : float) : PrimFloat.is_nan a = true -> PrimFloat.leb a b = false.
Proof.
  rewrite is_nan_spec, FloatAxioms.leb_spec.
  destruct (Prim2SF a); try discriminate. reflexivity.
Qed.

Lemma leb_nan_r (a b : float) : PrimFloat.is_nan b = true -> PrimFloat.leb a b = false.
Proof.
  rewrite is_nan_spec, FloatAxioms.leb_spec.
  destruct (Prim2SF b); try discriminate.
  intros _. unfold SFleb, SFcompare. destruct (Prim2SF a); reflexivity.
Qed.

(** A row that passes higher thresholds passes lower ones. *)
Lemma passes_mono (n1 q1 n2 q2 : float) (m : FlowSize) :
  PrimFloat.leb n1 n2 = true ->
  PrimFloat.leb q1 q2 = true ->
  passes n2 q2 m = true -> passes n1 q1 m = true.
Proof.
  unfold passes. intros Hn Hq H. apply andb_prop in H as [H1 H2].
  rewrite (leb_trans _ _ _ Hn H1), (leb_trans _ _ _ Hq H2). reflexivity.
Qed.

Lemma filter_sublist_mono {A} (f g : A -> bool) (l : list A) :
  (forall x, g x = true -> f x = true) ->
  List.filter g l `sublist_of` List.filter f l.
Proof.
  intros Hfg. induction l as [|x l IH]; [constructor |].
  cbn [List.filter]. destruct (g x) eqn:Hg.
  - rewrite (Hfg x Hg). apply sublist_skip, IH.
  - destruct (f x); [apply sublist_cons, IH | exact IH].
Qed.

Lemma table_rows_newest_first {A} (l : list A) :
  table_rows l = take 200 (rev l).
Proof.
  unfold table_rows. rewrite (slice_from_neg 200) by lia.
  unfold Spec.most_recent. apply rev_involutive.
Qed.

(** ** Thresholds *)

Lemma get_sign_spec (x : float) :
  PrimFloat.get_sign x
  = match Prim2SF x with
    | S754_zero s | S754_infinity s | S754_finite s _ _ => s
    | S754_nan => false
    end.
Proof.
  unfold PrimFloat.get_sign. rewrite is_zero_spec.
  destruct (Prim2SF x) as [s | s | | s m e] eqn:Hx.
  - rewrite FloatAxioms.ltb_spec, FloatAxioms.div_spec, Hx.
    destruct s; vm_compute; reflexivity.
  - rewrite FloatAxioms.ltb_spec, Hx. destruct s; reflexivity.
  - rewrite FloatAxioms.ltb_spec, Hx. reflexivity.
  - rewrite FloatAxioms.ltb_spec, Hx. destruct s; reflexivity.
Qed.

(** The larger of zero and a number is [NaN] or at least zero. *)
Lemma Math_max_0 (x : float) :
  let r := JsMath.Math_max 0 x in
  (PrimFloat.is_nan x = true /\ PrimFloat.is_nan r = true)
  \/ (PrimFloat.is_nan x = false /\ PrimFloat.is_nan r = false
      /\ PrimFloat.leb 0 r = true /\ PrimFloat.get_sign r = false).
Proof.
  cbv zeta. unfold JsMath.Math_max.
  change (PrimFloat.is_nan 0) with false. cbn [orb].
  destruct (PrimFloat.is_nan x) eqn:Hn; [left; split; reflexivity |].
  right. split; [reflexivity |].
  destruct (PrimFloat.ltb 0 x) eqn:Hlt.
  - split; [exact Hn |]. split; [apply leb_of_lt, Hlt |].
    rewrite get_sign_spec. rewrite FloatAxioms.ltb_spec in Hlt.
    change (Prim2SF 0) with (S754_zero false) in Hlt.
    destruct (Prim2SF x) as [[] | [] | | [] m e]; try discriminate Hlt; reflexivity.
  - destruct (PrimFloat.ltb x 0); repeat split; reflexivity.
Qed.

End FlowViews.

(** X19. The sweeps and blocks views apply one filter, and raising a
    threshold only hides rows: the view under higher thresholds is the view
    under lower ones filtered again, in the same order; a row whose notional
    is not a number is never shown. *)
Theorem raising_thresholds_only_hides_rows
    (flows : list FlowSize) (n1 q1 n2 q2 : float) :
  PrimFloat.leb n1 n2 = true ->
  PrimFloat.leb q1 q2 = true ->
  filteredSweeps flows n2 q2 = filteredSweeps (filteredSweeps flows n1 q1) n2 q2
  /\ filteredSweeps flows n2 q2 `sublist_of` filteredSweeps flows n1 q1
  /\ filteredSweeps flows n1 q1 `sublist_of` flows
  /\ filteredBlocks flows n2 q2 = filteredSweeps flows n2 q2
  /\ (forall m, m ∈ filteredSweeps flows n1 q1 ->
                PrimFloat.is_nan (notionalOf m) = false).
Proof.
  intros Hn Hq. unfold filteredSweeps, filteredBlocks.
  split.
  { rewrite filter_filter_comm. apply List.filter_ext_in. intros m _.
    destruct (passes n2 q2 m) eqn:H2; [| reflexivity].
    rewrite (passes_mono n1 q1 n2 q2 m Hn Hq H2). reflexivity. }
  split; [apply filter_sublist_mono; intros m; apply passes_mono; assumption |].
  split; [apply filter_sublist |].
  split; [reflexivity |].
  intros m Hm. apply list_elem_of_In, filter_In in Hm as [_ Hm].
  unfold passes in Hm. apply andb_prop in Hm as [Hm _].
  destruct (PrimFloat.is_nan (notionalOf m)) eqn:E; [| reflexivity].
  rewrite (leb_nan_r _ _ E) in Hm. discriminate Hm.
Qed.

Lemma raising_thresholds_only_hides_rows_witness :
  let flows := [TestFeed.size_spy; TestFeed.size_qqq; TestFeed.size_iwm] in
  PrimFloat.leb 0 20000 = true
  /\ PrimFloat.leb 1 50 = true
  /\ filteredSweeps flows 0 1 = flows
  /\ filteredSweeps flows 20000 50 = [TestFeed.size_iwm]
  /\ filteredSweeps flows 20000 50 `sublist_of` filteredSweeps flows 0 1.
Proof.
  intros flows. split; [reflexivity |]. split; [reflexivity |].
  split; [reflexivity |]. split; [reflexivity |].
  exact (proj1 (proj2 (raising_thresholds_only_hides_rows flows 0 1 20000 50
                         eq_refl eq_refl))).
Defined.

(** X20. The threshold a filter input sets is never negative: it is zero for
    an empty input, a number that is at least zero (and not [-0]) for a
    numeric input, and [NaN] for a text that does not read as a number, in
    which case the views are empty. *)
Theorem threshold_is_never_negative
    (number_digits : float -> string) (string_to_number : string -> float)
    (value : string) (flows : list FlowSize) (other : float) :
  let r := threshold_of_input number_digits string_to_number value in
  threshold_of_input number_digits string_to_number "" = 0%float
  /\ ((PrimFloat.is_nan r = false /\ PrimFloat.leb 0 r = true
       /\ PrimFloat.get_sign r = false)
      \/ (PrimFloat.is_nan r = true
          /\ PrimFloat.is_nan (string_to_number value) = true
          /\ filteredSweeps flows r other = []
          /\ filteredSweeps flows other r = [])).
Proof.
  intros r. split; [reflexivity |].
  unfold r, threshold_of_input.
  set (x := js_Number number_digits string_to_number
              (if Js.truthy (JStr value) then JStr value else JNum 0)).
  destruct (Math_max_0 x) as [[Hx Hr] | (Hx & Hr & Hle & Hs)].
  - right. split; [exact Hr |]. split.
    + unfold x in Hx. cbn [Js.truthy] in Hx.
      destruct (negb (String.eqb value "")); [exact Hx | discriminate Hx].
    + unfold filteredSweeps. split.
      * induction flows as [|m l IH]; [reflexivity |].
        cbn [List.filter]. unfold passes at 1. rewrite (leb_nan_l _ _ Hr). exact IH.
      * induction flows as [|m l IH]; [reflexivity |].
        cbn [List.filter]. unfold passes at 1. rewrite (leb_nan_l _ _ Hr), andb_false_r.
        exact IH.
  - left. auto.
Qed.

(** X21. The tables show at most 200 rows, the most recent ones that pass
    the filter, newest first. *)
Theorem tables_show_newest_first
    (flows : list FlowSize) (minNotional minQty : float) :
  table_rows (filteredSweeps flows minNotional minQty)
  = take 200 (rev (filteredSweeps flows minNotional minQty))
  /\ length (table_rows (filteredSweeps flows minNotional minQty)) <= 200
  /\ (forall m earlier,
        filteredSweeps flows minNotional minQty = earlier ++ [m] ->
        head (table_rows (filteredSweeps flows minNotional minQty)) = Some m)
  /\ (length (filteredSweeps flows minNotional minQty) <= 200 ->
      table_rows (filteredSweeps flows minNotional minQty)
      = rev (filteredSweeps flows minNotional minQty)).
Proof.
  rewrite table_rows_newest_first. split; [reflexivity |].
  split; [rewrite length_take; lia |]. split.
  - intros m earlier ->. rewrite rev_app_distr. reflexivity.
  - intros Hlen. apply take_ge. rewrite length_rev. exact Hlen.
Qed.

(* ===================================================================== *)
(** * Option grouping: totals and ties *)
(* ===================================================================== *)

Section Ties.

Lemma SFcompare_eq_r (X Y S : spec_float) :
  SFcompare X S = Some Eq -> SFcompare Y X = SFcompare Y S.
Proof.
  destruct X as [sx | sx | | sx mx ex], S as [ss | ss | | ss ms es];
    try discriminate; try (destruct sx; discriminate); try (destruct ss; discriminate);
    try (destruct sx, ss; discriminate).
  - intros _. destruct Y as [? | ? | | sy my ey]; reflexivity.
  - destruct sx, ss; try discriminate; intros _; destruct Y as [? | [] | | sy my ey];
      reflexivity.
  - unfold SFcompare at 1.
    destruct sx, ss; try discriminate;
      destruct (Z.compare_spec ex es) as [-> | ? | ?]; try discriminate;
      rewrite Pos.compare_cont_spec; cbn [Pos.switch_Eq];
      destruct (Pos.compare_spec mx ms) as [-> | ? | ?]; try discriminate; reflexivity.
Qed.

(** A row placed after another has the larger strike, so not the same one. *)
Lemma after_not_tied (x y : OptionRow) (s : float) :
  Spec.has_strike x -> Spec.has_strike y ->
  PrimFloat.ltb 0 (by_strike x y) = true ->
  PrimFloat.eqb (strike x) s = true ->
  PrimFloat.eqb (strike y) s = false.
Proof.
  intros Hx Hy. rewrite (by_strike_gt x y Hx Hy).
  rewrite FloatAxioms.ltb_spec, !FloatAxioms.eqb_spec. unfold SFltb, SFeqb.
  destruct (SFcompare (Prim2SF (strike x)) (Prim2SF s)) as [[] |] eqn:Hxs;
    try discriminate.
  rewrite (SFcompare_eq_r _ (Prim2SF (strike y)) _ Hxs).
  destruct (SFcompare (Prim2SF (strike y)) (Prim2SF s)) as [[] |]; congruence.
Qed.

Lemma sort_insert_ties (s : float) (x : OptionRow) (l : list OptionRow) :
  Spec.has_strike x -> Forall Spec.has_strike l ->
  Notions.at_strike s (JsArray.sort_insert by_strike x l) = Notions.at_strike s (x :: l).
Proof.
  intros Hx Hl. unfold Notions.at_strike.
  induction l as [|y l IH]; [reflexivity |].
  apply Forall_cons in Hl as [Hy Hl].
  cbn [JsArray.sort_insert].
  destruct (PrimFloat.ltb 0 (by_strike x y)) eqn:Hgt; [| reflexivity].
  cbn [List.filter] in *. rewrite (IH Hl).
  destruct (PrimFloat.eqb (strike x) s) eqn:Hxs; [| reflexivity].
  rewrite (after_not_tied x y s Hx Hy Hgt Hxs). reflexivity.
Qed.

(** The sort is stable: rows of one strike keep their order. *)
Lemma sort_ties (s : float) (l : list OptionRow) :
  Forall Spec.has_strike l ->
  Notions.at_strike s (JsArray.sort by_strike l) = Notions.at_strike s l.
Proof.
  induction l as [|x l IH]; intros Hl; [reflexivity |].
  apply Forall_cons in Hl as [Hx Hl].
  cbn [JsArray.sort foldr]. fold (JsArray.sort by_strike l).
  rewrite sort_insert_ties.
  - unfold Notions.at_strike in *. cbn [List.filter]. rewrite (IH Hl). reflexivity.
  - exact Hx.
  - eapply Forall_impl; [| intros r Hr; exact Hr].
    rewrite (sort_perm by_strike l). exact Hl.
Qed.

End Ties.

Section Totals.

Lemma Map_set_rows (k : string) (r : OptionRow) (m : list (string * list OptionRow)) :
  concat (map snd (JsArray.Map_set k (default [] (JsArray.Map_get k m) ++ [r]) m))
  ≡ₚ concat (map snd m) ++ [r].
Proof.
  induction m as [|[k' v'] m IH]; [reflexivity |].
  unfold JsArray.Map_get in *. cbn [JsArray.Map_set List.find fst].
  destruct (String.eqb k k') eqn:Hk; cbn [map snd concat fmap option_fmap option_map default].
  - rewrite <- !app_assoc. apply Permutation_app_head, Permutation_app_comm.
  - rewrite IH, app_assoc. reflexivity.
Qed.

Lemma Map_set_nonempty (k : string) (v : list OptionRow) (m : list (string * list OptionRow)) :
  v <> [] -> Forall (fun e => e.2 <> []) m ->
  Forall (fun e => e.2 <> []) (JsArray.Map_set k v m).
Proof.
  intros Hv. induction 1 as [|[k' v'] m He Hm IH]; cbn [JsArray.Map_set].
  - repeat constructor. exact Hv.
  - destruct (String.eqb k k'); constructor; assumption.
Qed.

(** The fold keeps every row, and no entry is empty. *)
Lemma grouped_total (opts : list OptionRow) :
  forall m : list (string * list OptionRow),
    Forall (fun e => e.2 <> []) m ->
    concat (map snd (foldl group_push m opts)) ≡ₚ concat (map snd m) ++ opts
    /\ Forall (fun e => e.2 <> []) (foldl group_push m opts).
Proof.
  induction opts as [|r opts IH]; intros m Hm.
  - cbn. rewrite app_nil_r. auto.
  - cbn [foldl].
    destruct (IH (group_push m r)) as [Hp Hn].
    { apply Map_set_nonempty; [| exact Hm]. intros H. apply app_eq_nil in H as [_ H].
      discriminate H. }
    split; [| exact Hn].
    rewrite Hp. unfold group_push. rewrite Map_set_rows, <- app_assoc. reflexivity.
Qed.

Lemma concat_map_perm {A B} (f g : A -> list B) (l : list A) :
  (forall x, f x ≡ₚ g x) -> concat (map f l) ≡ₚ concat (map g l).
Proof.
  intros H. induction l as [|x l IH]; [reflexivity |].
  cbn [map concat]. rewrite (H x), IH. reflexivity.
Qed.

End Totals.

(** X22. The option groups keep every row exactly once: the rows of all
    groups together are the rows of the option list, however the strikes
    compare; no group is empty, and there are at most as many groups as
    rows. *)
Theorem optGrouped_keeps_every_row (opts : list OptionRow) :
  concat (map rows (optGrouped opts)) ≡ₚ opts
  /\ Forall (fun g => rows g <> []) (optGrouped opts)
  /\ length (optGrouped opts) <= length opts
  /\ (opts = [] <-> optGrouped opts = []).
Proof.
  destruct (grouped_total opts [] ltac:(constructor)) as [Hp Hn]. cbn [map concat app] in Hp.
  assert (Hrows : concat (map rows (optGrouped opts)) ≡ₚ opts).
  { unfold optGrouped. rewrite map_map. cbn [rows].
    etransitivity; [| exact Hp].
    apply (concat_map_perm _ snd). intros e. apply sort_perm. }
  assert (Hne : Forall (fun g => rows g <> []) (optGrouped opts)).
  { unfold optGrouped. apply Forall_map. cbn [rows].
    eapply Forall_impl; [exact Hn |]. intros e He Hs. apply He.
    apply Permutation_nil_r. rewrite <- Hs. symmetry. apply sort_perm. }
  split; [exact Hrows |]. split; [exact Hne |]. split.
  - rewrite <- (Permutation_length Hrows).
    clear -Hne. induction Hne as [|g l Hg _ IH]; [cbn; lia |].
    cbn [map concat length]. rewrite length_app.
    destruct (rows g); [contradiction | cbn [length]; lia].
  - split; [intros ->; reflexivity |].
    intros H. rewrite H in Hrows. cbn in Hrows. symmetry in Hrows.
    apply Permutation_nil_r in Hrows. exact Hrows.
Qed.

(** X23. Rows of one strike (a call and a put, say) keep their arrival order
    within their group: the sort by strike is stable. *)
Theorem optGrouped_keeps_order_of_ties (opts : list OptionRow) (s : float) :
  Forall Spec.has_strike opts ->
  Forall (fun g => Notions.at_strike s (rows g)
                   = Notions.at_strike s (Spec.rows_of (key g) opts))
    (optGrouped opts).
Proof.
  intros Hstrikes. destruct (grouped_entries opts) as [_ Hrows].
  unfold optGrouped. apply Forall_map. cbn [key rows].
  eapply Forall_impl; [exact Hrows |]. intros e He. cbn beta in He.
  rewrite He at 1. apply sort_ties, rows_of_has_strike, Hstrikes.
Qed.

Lemma optGrouped_keeps_order_of_ties_witness :
  let opts := [TestFeed.msft_put_300; TestFeed.msft_call_300; TestFeed.msft_call_290] in
  Forall Spec.has_strike opts
  /\ map (fun g => map (fun r => (strike r, right r)) (rows g)) (optGrouped opts)
     = [[(290%float, C); (300%float, P); (300%float, C)]]
  /\ Forall (fun g => Notions.at_strike 300 (rows g)
                      = Notions.at_strike 300 (Spec.rows_of (key g) opts))
       (optGrouped opts).
Proof.
  intros opts.
  assert (H : Forall Spec.has_strike opts) by (repeat constructor).
  split; [exact H |]. split; [reflexivity |].
  exact (optGrouped_keeps_order_of_ties opts 300 H).
Defined.
